(** * Health records PWA: record store, queries, statistics and text extraction

    A shallow embedding of [app.js]: the IndexedDB-backed record store
    ([saveGlucose], [savePressure]), the two cursor queries ([getRecent],
    [getFilteredRecords]), the statistics aggregator ([getStats]) and the
    transcript parser ([parseHealthText]).

    JavaScript strings are sequences of UTF-16 code units, JavaScript numbers
    are binary64 floats, promises are their settled outcome, and the module
    level [db] handle is passed explicitly. *)

From Stdlib Require Import List ZArith NArith Bool Lia Sorted Permutation.
From Stdlib Require Import Ascii Floats QArith Qabs DecimalPos.
From Stdlib Require String.
Import ListNotations String.StringSyntax.
#[local] Delimit Scope string_scope with string.

Set Warnings "-inexact-float,-register-all".
Set Implicit Arguments.

Local Open Scope Z_scope.

(* ================================================================== *)
(** * JavaScript strings *)
(* ================================================================== *)

(** A JavaScript string: its UTF-16 code units. *)
Definition jsstring := list N.

(** Source literals are written here as UTF-8 text; [utf16_of_bytes] turns
    the bytes into the code units the JavaScript engine sees. *)
Fixpoint utf16_of_bytes (bs : list N) : jsstring :=
  match bs with
  | [] => []
  | b0 :: t0 =>
    if (b0 <? 0x80)%N then b0 :: utf16_of_bytes t0
    else if (b0 <? 0xE0)%N then
      match t0 with
      | b1 :: t1 =>
        N.lor (N.shiftl (N.land b0 0x1F) 6) (N.land b1 0x3F) :: utf16_of_bytes t1
      | _ => [0xFFFD%N]
      end
    else if (b0 <? 0xF0)%N then
      match t0 with
      | b1 :: b2 :: t2 =>
        N.lor (N.shiftl (N.land b0 0x0F) 12)
              (N.lor (N.shiftl (N.land b1 0x3F) 6) (N.land b2 0x3F))
          :: utf16_of_bytes t2
      | _ => [0xFFFD%N]
      end
    else
      match t0 with
      | b1 :: b2 :: b3 :: t3 =>
        let cp := N.lor (N.shiftl (N.land b0 0x07) 18)
                    (N.lor (N.shiftl (N.land b1 0x3F) 12)
                       (N.lor (N.shiftl (N.land b2 0x3F) 6) (N.land b3 0x3F))) in
        let v := (cp - 0x10000)%N in
        (0xD800 + N.shiftr v 10)%N :: (0xDC00 + N.land v 0x3FF)%N
          :: utf16_of_bytes t3
      | _ => [0xFFFD%N]
      end
  end.

Definition js (s : String.string) : jsstring :=
  utf16_of_bytes (map N_of_ascii (String.list_ascii_of_string s)).

(** Order of string keys in the persistence engine: code unit by code unit,
    a proper prefix first. *)
Fixpoint key_compare (a b : jsstring) : comparison :=
  match a, b with
  | [], [] => Eq
  | [], _ :: _ => Lt
  | _ :: _, [] => Gt
  | x :: a', y :: b' =>
    match (x ?= y)%N with
    | Eq => key_compare a' b'
    | c => c
    end
  end.

Definition key_leb (a b : jsstring) : bool :=
  match key_compare a b with Gt => false | _ => true end.

Definition key_le (a b : jsstring) : Prop := key_compare a b <> Gt.
Definition key_lt (a b : jsstring) : Prop := key_compare a b = Lt.

(* ================================================================== *)
(** * Record store *)
(* ================================================================== *)

(** The object written by [saveGlucose], before the store adds [id]. *)
Module Glucose.
Record t := mk {
  value : float;
  unit : jsstring;
  recordedAt : jsstring;
  notes : jsstring
}.
End Glucose.

(** The object written by [savePressure], before the store adds [id]. *)
Module Pressure.
Record t := mk {
  systolic : float;
  diastolic : float;
  recordedAt : jsstring;
  notes : jsstring
}.
End Pressure.

(** Both object stores are created with an index on the key path
    [recordedAt]. *)
Class Indexed (A : Type) := recordedAt : A -> jsstring.

#[export] Instance glucose_indexed : Indexed Glucose.t := Glucose.recordedAt.
#[export] Instance pressure_indexed : Indexed Pressure.t := Pressure.recordedAt.

(** A stored record: the object with the key the store generated for it
    ([keyPath: 'id', autoIncrement: true]). *)
Record Stored (A : Type) := mkStored {
  id : Z;
  fields : A
}.

(** An object store: its records in insertion order, and the current number
    of its key generator. *)
Record ObjectStore (A : Type) := mkStore {
  entries : list (Stored A);
  keyGen : Z
}.

Definition createObjectStore (A : Type) : ObjectStore A :=
  {| entries := []; keyGen := 1 |}.

(** [store.add(record)]: the generator's number becomes the record's [id]
    and is the request's result. *)
Definition add {A} (st : ObjectStore A) (record : A) : Z * ObjectStore A :=
  (keyGen st,
   {| entries := entries st ++ [mkStored (keyGen st) record];
      keyGen := keyGen st + 1 |}).

Section Index.
Context {A : Type} `{Indexed A}.

Definition keyOf (r : Stored A) : jsstring := recordedAt (fields r).

(** Records of an index are ordered by index key, then by primary key. *)
Definition index_leb (x y : Stored A) : bool :=
  match key_compare (keyOf x) (keyOf y) with
  | Lt => true
  | Eq => id x <=? id y
  | Gt => false
  end.

Fixpoint index_insert (x : Stored A) (l : list (Stored A)) : list (Stored A) :=
  match l with
  | [] => [x]
  | y :: l' => if index_leb x y then x :: l else y :: index_insert x l'
  end.

(** [store.index('recordedAt')] *)
Definition index (st : ObjectStore A) : list (Stored A) :=
  fold_right index_insert [] (entries st).

(** [IDBKeyRange.lowerBound(k)] is the only range the program builds. *)
Inductive IDBKeyRange := lowerBound (k : jsstring).

Definition includes (range : option IDBKeyRange) (r : Stored A) : bool :=
  match range with
  | None => true
  | Some (lowerBound k) => key_leb k (keyOf r)
  end.

Inductive direction := next | prev.

(** [index.openCursor(range, direction)]: the records the cursor yields,
    one per [continue()], until it is null. *)
Definition openCursor (idx : list (Stored A)) (range : option IDBKeyRange)
           (dir : direction) : list (Stored A) :=
  let inrange := filter (includes range) idx in
  match dir with
  | next => inrange
  | prev => rev inrange
  end.

(** The [onsuccess] handler of [getRecent]: push and continue while there is
    a cursor and fewer than [limit] results. *)
Fixpoint getRecent_onsuccess (cursor : list (Stored A)) (limit : Z)
         (results : list (Stored A)) : list (Stored A) :=
  match cursor with
  | r :: rest =>
    if Z.of_nat (length results) <? limit
    then getRecent_onsuccess rest limit (results ++ [r])
    else results
  | [] => results
  end.

(** The [onsuccess] handler of [getFilteredRecords]. *)
Fixpoint getFilteredRecords_onsuccess (cursor : list (Stored A))
         (results : list (Stored A)) : list (Stored A) :=
  match cursor with
  | r :: rest => getFilteredRecords_onsuccess rest (results ++ [r])
  | [] => results
  end.

(** The order of the index, as a relation. *)
Definition index_le (x y : Stored A) : Prop := index_leb x y = true.

(** [x] is not older than [y]; of two records of one time, [x] is the one
    with the higher [id] (or they share it). *)
Definition recent_first (x y : Stored A) : Prop :=
  key_lt (keyOf y) (keyOf x) \/ (keyOf x = keyOf y /\ id y <= id x).

(** The same with distinct ids. *)
Definition newer (x y : Stored A) : Prop :=
  key_lt (keyOf y) (keyOf x) \/ (keyOf x = keyOf y /\ id y < id x).

Definition oldest_first (x y : Stored A) : Prop := key_le (keyOf x) (keyOf y).

(** Records of one [recordedAt] appear in insertion order (ascending id). *)
Definition ties_in_insertion_order (l : list (Stored A)) : Prop :=
  forall l1 x l2 y l3,
    l = l1 ++ x :: l2 ++ y :: l3 -> keyOf x = keyOf y -> id x < id y.

(** Records of one [recordedAt] appear in reverse insertion order. *)
Definition ties_in_reverse_insertion_order (l : list (Stored A)) : Prop :=
  forall l1 x l2 y l3,
    l = l1 ++ x :: l2 ++ y :: l3 -> keyOf x = keyOf y -> id y < id x.

(** What every store built by [add] satisfies: ids grow with insertion and
    stay below the key generator's number. *)
Definition store_ok (st : ObjectStore A) : Prop :=
  StronglySorted (fun x y => id x < id y) (entries st)
  /\ Forall (fun x => id x < keyGen st) (entries st).
End Index.

(** The database [initDB] opens: the two object stores. *)
Inductive StoreName := glucose | pressure.

Definition fieldsOf (n : StoreName) : Type :=
  match n with
  | glucose => Glucose.t
  | pressure => Pressure.t
  end.

#[export] Instance fieldsOf_indexed (n : StoreName) : Indexed (fieldsOf n) :=
  match n with
  | glucose => glucose_indexed
  | pressure => pressure_indexed
  end.

Record Database := mkDatabase {
  glucoseStore : ObjectStore Glucose.t;
  pressureStore : ObjectStore Pressure.t
}.

Definition objectStore (d : Database) (n : StoreName) : ObjectStore (fieldsOf n) :=
  match n with
  | glucose => glucoseStore d
  | pressure => pressureStore d
  end.

(** What every database built by [initDB] and the save operations
    satisfies. *)
Definition db_ok (d : Database) : Prop :=
  store_ok (glucoseStore d) /\ store_ok (pressureStore d).

(** [onupgradeneeded]: each store is created only if it is not there. *)
Definition initDB (persisted : option Database) : Database :=
  match persisted with
  | Some d => d
  | None => {| glucoseStore := createObjectStore Glucose.t;
               pressureStore := createObjectStore Pressure.t |}
  end.

(** The errors the program itself can cause: a [TypeError] by using the
    handle [db] while it is [null], a [RangeError] by printing an invalid
    date. *)
Inductive JsError := TypeError | RangeError.

(** How a promise settles. *)

Inductive Settled (T : Type) :=
| Fulfilled (v : T)
| Rejected (e : JsError).
Arguments Fulfilled {T} v.
Arguments Rejected {T} e.

(** How a call ends: it returns a value, or it throws. *)
Inductive Completion (T : Type) :=
| Returned (v : T)
| Thrown (e : JsError).
Arguments Returned {T} v.
Arguments Thrown {T} e.

(** [saveGlucose(value, notes)]; [now] is [new Date().toISOString()]. *)
Definition saveGlucose (db : option Database) (now : jsstring)
           (value : float) (notes : jsstring) : Settled Z * option Database :=
  match db with
  | None => (Rejected TypeError, db)
  | Some d =>
    let record := {| Glucose.value := value;
                     Glucose.unit := js "mmol/L"%string;
                     Glucose.recordedAt := now;
                     Glucose.notes := notes |} in
    let (key, store) := add (glucoseStore d) record in
    (Fulfilled key,
     Some {| glucoseStore := store; pressureStore := pressureStore d |})
  end.

(** [savePressure(systolic, diastolic, notes)] *)
Definition savePressure (db : option Database) (now : jsstring)
           (systolic diastolic : float) (notes : jsstring)
  : Settled Z * option Database :=
  match db with
  | None => (Rejected TypeError, db)
  | Some d =>
    let record := {| Pressure.systolic := systolic;
                     Pressure.diastolic := diastolic;
                     Pressure.recordedAt := now;
                     Pressure.notes := notes |} in
    let (key, store) := add (pressureStore d) record in
    (Fulfilled key,
     Some {| glucoseStore := glucoseStore d; pressureStore := store |})
  end.

(** [getRecent(storeName, limit)]; every call of the program gives [limit]
    (its default, 10, is for calls without it). *)
Definition getRecent (db : option Database) (storeName : StoreName) (limit : Z)
  : Settled (list (Stored (fieldsOf storeName))) :=
  match db with
  | None => Rejected TypeError
  | Some d =>
    let request := openCursor (index (objectStore d storeName)) None prev in
    Fulfilled (getRecent_onsuccess request limit [])
  end.

(** [getFilteredRecords(storeName, cutoffISO)] *)
Definition getFilteredRecords (db : option Database) (storeName : StoreName)
           (cutoffISO : jsstring)
  : Settled (list (Stored (fieldsOf storeName))) :=
  match db with
  | None => Rejected TypeError
  | Some d =>
    let range := lowerBound cutoffISO in
    let request := openCursor (index (objectStore d storeName)) (Some range) next in
    Fulfilled (getFilteredRecords_onsuccess request [])
  end.

(* ================================================================== *)
(** * JavaScript numbers *)
(* ================================================================== *)

(** The Number nearest to an integer (ties to even). *)
Definition float_of_Z (z : Z) : float :=
  SF2Prim (binary_normalize prec emax z 0 false).

(** The Number nearest to [p / q], for [0 <= p] and [0 < q]. *)
Definition float_of_ratio (p q : Z) : float :=
  match p, q with
  | Zpos p', Zpos q' =>
    SF2Prim (SFdiv prec emax (S754_finite false p' 0) (S754_finite false q' 0))
  | Z0, Zpos _ => 0%float
  | _, _ => nan
  end.

(** The exact value of a finite Number, as a rational. *)
Definition Q_of_float (x : float) : Q :=
  match Prim2SF x with
  | S754_finite s m e =>
    let z := if s then Zneg m else Zpos m in
    if 0 <=? e then inject_Z (z * 2 ^ e) else Qmake z (Z.to_pos (2 ^ (- e)))
  | _ => 0%Q
  end.

Definition is_digit (c : N) : bool := ((0x30 <=? c) && (c <=? 0x39))%N.

Definition digit_value (c : N) : Z := Z.of_N (c - 0x30).

(** The integer a string of decimal digits denotes. *)
Definition decimal_value (ds : jsstring) : Z :=
  fold_left (fun acc c => 10 * acc + digit_value c) ds 0.

Fixpoint take_digits (s : jsstring) : jsstring * jsstring :=
  match s with
  | c :: s' =>
    if is_digit c then let (ds, rest) := take_digits s' in (c :: ds, rest)
    else ([], s)
  | [] => ([], [])
  end.

(** [parseInt(s)] on strings without leading white space, sign or [0x]
    prefix (a capture of [[0-9]{2,3}] has none): the leading decimal digits,
    [NaN] when there is none. *)
Definition parseInt (s : jsstring) : float :=
  match take_digits s with
  | ([], _) => nan
  | (ds, _) => float_of_Z (decimal_value ds)
  end.

(** [parseFloat(s)] on strings without leading white space, sign, exponent or
    [Infinity] (a capture of [[0-9]+(?:\.[0-9]+)?] has none): the longest
    prefix [digits], [digits.], [digits.digits] or [.digits]. *)
Definition parseFloat (s : jsstring) : float :=
  let (ip, rest) := take_digits s in
  let fp := match rest with
            | 0x2E%N :: rest' => fst (take_digits rest')
            | _ => []
            end in
  match ip, fp with
  | [], [] => nan
  | _, _ => float_of_ratio (decimal_value (ip ++ fp)) (10 ^ Z.of_nat (length fp))
  end.

(** The decimal digits of a natural number, as code units. *)
Fixpoint uint_digits (d : Decimal.uint) : jsstring :=
  match d with
  | Decimal.Nil => []
  | Decimal.D0 d' => 0x30%N :: uint_digits d'
  | Decimal.D1 d' => 0x31%N :: uint_digits d'
  | Decimal.D2 d' => 0x32%N :: uint_digits d'
  | Decimal.D3 d' => 0x33%N :: uint_digits d'
  | Decimal.D4 d' => 0x34%N :: uint_digits d'
  | Decimal.D5 d' => 0x35%N :: uint_digits d'
  | Decimal.D6 d' => 0x36%N :: uint_digits d'
  | Decimal.D7 d' => 0x37%N :: uint_digits d'
  | Decimal.D8 d' => 0x38%N :: uint_digits d'
  | Decimal.D9 d' => 0x39%N :: uint_digits d'
  end.

Definition decimal_digits (n : Z) : jsstring :=
  match n with
  | Zpos p => uint_digits (Pos.to_uint p)
  | _ => [0x30%N]
  end.

(** [floor(x + 1/2)] for [x = z * 2^e]. *)
Definition round_half_up (z e : Z) : Z :=
  if 0 <=? e then z * 2 ^ e
  else (2 * z + 2 ^ (- e)) / (2 * 2 ^ (- e)).

(** [Math.round(x)]: the nearest integer, the one towards +infinity of two. *)
Definition Math_round (x : float) : float :=
  match Prim2SF x with
  | S754_finite s m e =>
    if 0 <=? e then x
    else
      let n := round_half_up (if s then Zneg m else Zpos m) e in
      if (n =? 0) && s then neg_zero else float_of_Z n
  | _ => x
  end.

(** What [toFixed] returns: a string of digits this model builds, or, from
    1e21 on, the result of [ToString], which it leaves uninterpreted. *)
Inductive NumberString :=
| Str (s : jsstring)
| ToString (x : float).

(** The integer [n] of [toFixed(1)]: [n / 10] is as close to [|x|] as
    possible, the larger [n] of two. *)
Definition toFixed1_n (x : float) : Z :=
  match Prim2SF x with
  | S754_finite _ m e => round_half_up (10 * Zpos m) e
  | _ => 0
  end.

(** [x.toFixed(1)] *)
Definition toFixed1 (x : float) : NumberString :=
  if is_nan x then Str (js "NaN"%string)
  else if is_infinity x then
    Str (if (x <? 0)%float then js "-Infinity"%string else js "Infinity"%string)
  else if (1e21 <=? abs x)%float then ToString x
  else
    let n := toFixed1_n x in
    Str ((if (x <? 0)%float then js "-"%string else [])
           ++ decimal_digits (n / 10) ++ js "."%string ++ decimal_digits (n mod 10)).

Definition is_pos_zero (x : float) : bool := is_zero x && negb (get_sign x).
Definition is_neg_zero (x : float) : bool := is_zero x && get_sign x.

(** [Math.min(...values)] *)
Definition Math_min_step (lowest number : float) : float :=
  if is_nan lowest || is_nan number then nan
  else if is_neg_zero number && is_pos_zero lowest then number
  else if (number <? lowest)%float then number
  else lowest.

Definition Math_min (values : list float) : float :=
  fold_left Math_min_step values infinity.

(** [Math.max(...values)] *)
Definition Math_max_step (highest number : float) : float :=
  if is_nan highest || is_nan number then nan
  else if is_pos_zero number && is_neg_zero highest then number
  else if (highest <? number)%float then number
  else highest.

Definition Math_max (values : list float) : float :=
  fold_left Math_max_step values neg_infinity.

(** [values.reduce((a, b) => a + b, 0)] *)
Definition sum (values : list float) : float :=
  fold_left (fun a b => (a + b)%float) values 0%float.

(** [values.length] as a Number. *)
Definition length_number {T} (l : list T) : float :=
  float_of_Z (Z.of_nat (length l)).

(* ================================================================== *)
(** * Regular expressions *)
(* ================================================================== *)

Module RegExp.

(** The fragment of the pattern language the two literals use. A
    quantifier is greedy; [None] as upper bound is no bound. *)
Inductive regex :=
| Char (c : N)
| Class (p : N -> bool)
| Seq (r1 r2 : regex)
| Repeat (r : regex) (lo : nat) (hi : option nat)
| Group (i : nat) (r : regex).

Definition captures := list (nat * jsstring).

Definition below (hi : option nat) (n : nat) : bool :=
  match hi with
  | None => true
  | Some h => (n <? h)%nat
  end.

(** The part of [s] consumed when [s'] is what is left of it. *)
Definition consumed (s s' : jsstring) : jsstring :=
  firstn (length s - length s') s.

Definition outcome := option (jsstring * captures).

(** The iterations of a greedy quantifier [{lo,hi}] after [n] of them:
    one more iteration and what follows it, and, when that fails and [lo]
    is reached, what follows the quantifier. An iteration has to consume
    input (every quantified term of the two patterns does); [fuel] bounds
    the iterations by the length of the input. *)
Fixpoint iterate (body : jsstring -> captures ->
                         (jsstring -> captures -> outcome) -> outcome)
         (lo : nat) (hi : option nat) (k : jsstring -> captures -> outcome)
         (fuel n : nat) (s : jsstring) (caps : captures) : outcome :=
  match fuel with
  | O => None
  | S fuel' =>
    let more :=
        if below hi n then
          body s caps
               (fun s1 c1 =>
                  if (length s1 <? length s)%nat
                  then iterate body lo hi k fuel' (S n) s1 c1
                  else None)
        else None in
    match more with
    | Some res => Some res
    | None => if (lo <=? n)%nat then k s caps else None
    end
  end.

(** A backtracking matcher in continuation-passing style: [run r s caps k]
    matches [r] at the start of [s] and hands the rest of the input to [k];
    when [k] fails, the next alternative of [r] is tried. *)
Fixpoint run (r : regex) (s : jsstring) (caps : captures)
         (k : jsstring -> captures -> outcome) : outcome :=
  match r with
  | Char c =>
    match s with
    | x :: s' => if (x =? c)%N then k s' caps else None
    | [] => None
    end
  | Class p =>
    match s with
    | x :: s' => if p x then k s' caps else None
    | [] => None
    end
  | Seq r1 r2 => run r1 s caps (fun s1 c1 => run r2 s1 c1 k)
  | Group i r1 =>
    run r1 s caps (fun s1 c1 => k s1 ((i, consumed s s1) :: c1))
  | Repeat r1 lo hi =>
    iterate (run r1) lo hi k (S (length s)) 0%nat s caps
  end.

(** A match that reaches the end of the pattern succeeds. *)
Definition accept : jsstring -> captures -> outcome :=
  fun s c => Some (s, c).

(** The array [String.prototype.match] returns for a pattern without the
    [g] flag. *)
Record MatchResult := mkMatch {
  matchIndex : nat;
  matched : jsstring;
  groups : captures
}.

(** [m[i]] for [i >= 1]; [None] is [undefined]. *)
Definition group (m : MatchResult) (i : nat) : option jsstring :=
  option_map snd (find (fun c => (fst c =? i)%nat) (groups m)).

(** The first position of [s], from position [i] of the text on, at which
    the pattern matches. *)
Fixpoint exec_from (r : regex) (s : jsstring) (i : nat) : option MatchResult :=
  match run r s [] accept with
  | Some (s', c) =>
    Some {| matchIndex := i; matched := consumed s s'; groups := c |}
  | None =>
    match s with
    | _ :: s' => exec_from r s' (S i)
    | [] => None
    end
  end.

(** [text.match(r)] *)
Definition exec (r : regex) (text : jsstring) : option MatchResult :=
  exec_from r text 0.

(** [\s] *)
Definition is_space (c : N) : bool :=
  ((c =? 0x09) || (c =? 0x0A) || (c =? 0x0B) || (c =? 0x0C) || (c =? 0x0D)
   || (c =? 0x20) || (c =? 0xA0) || (c =? 0x1680)
   || ((0x2000 <=? c) && (c <=? 0x200A))
   || (c =? 0x2028) || (c =? 0x2029) || (c =? 0x202F) || (c =? 0x205F)
   || (c =? 0x3000) || (c =? 0xFEFF))%N.

Definition star (r : regex) := Repeat r 0 None.
Definition plus (r : regex) := Repeat r 1 None.
Definition opt (r : regex) := Repeat r 0 (Some 1%nat).

(** [r] followed by each of [rs] in turn. *)
Fixpoint sequence (r : regex) (rs : list regex) : regex :=
  match rs with
  | [] => r
  | r' :: rs' => Seq r (sequence r' rs')
  end.

(** [[：:\s]] *)
Definition separator (c : N) : bool :=
  ((c =? 0xFF1A) || (c =? 0x3A))%N || is_space c.

(** [[^\d]] *)
Definition non_digit (c : N) : bool := negb (is_digit c).


(** What a pattern can match, whatever the order in which the matcher tries
    the alternatives: [Match r w c c'] when [r] matches the word [w] and
    turns the captures [c] into [c']. *)
Inductive Iterate (M : jsstring -> captures -> captures -> Prop)
  : nat -> jsstring -> captures -> captures -> Prop :=
| Iterate_zero c : Iterate M 0 [] c c
| Iterate_step n w1 w2 c0 c1 c2 :
    M w1 c0 c1 -> w1 <> [] -> Iterate M n w2 c1 c2 ->
    Iterate M (S n) (w1 ++ w2) c0 c2.

Inductive Match : regex -> jsstring -> captures -> captures -> Prop :=
| Match_Char c caps : Match (Char c) [c] caps caps
| Match_Class (p : N -> bool) x caps :
    p x = true -> Match (Class p) [x] caps caps
| Match_Seq r1 r2 w1 w2 c0 c1 c2 :
    Match r1 w1 c0 c1 -> Match r2 w2 c1 c2 -> Match (Seq r1 r2) (w1 ++ w2) c0 c2
| Match_Group i r w c0 c1 :
    Match r w c0 c1 -> Match (Group i r) w c0 ((i, w) :: c1)
| Match_Repeat r lo hi n w c0 c1 :
    Iterate (Match r) n w c0 c1 ->
    (lo <= n)%nat -> (forall h, hi = Some h -> (n <= h)%nat) ->
    Match (Repeat r lo hi) w c0 c1.

End RegExp.

Import RegExp.

(** [/血糖[：:\s]*([0-9]+(?:\.[0-9]+)?)/] *)
Definition sugarRegex : regex :=
  sequence (Char 0x8840)
           [Char 0x7CD6; star (Class separator);
            Group 1 (Seq (plus (Class is_digit))
                         (opt (Seq (Char 0x2E) (plus (Class is_digit)))))].

(** [/血压[：:\s]*([0-9]{2,3})[^\d]{1,3}([0-9]{2,3})/] *)
Definition bpRegex : regex :=
  sequence (Char 0x8840)
           [Char 0x538B; star (Class separator);
            Group 1 (Repeat (Class is_digit) 2 (Some 3%nat));
            Repeat (Class non_digit) 1 (Some 3%nat);
            Group 2 (Repeat (Class is_digit) 2 (Some 3%nat))].

(* ================================================================== *)
(** * Text extraction *)
(* ================================================================== *)

(** The object [parseHealthText] returns: each property may be absent. *)
Record PartialReading := mkReading {
  bloodSugar : option float;
  systolic : option float;
  diastolic : option float
}.

(** The argument of [parseFloat] and [parseInt]: [undefined] is converted to
    the string "undefined". *)
Definition capture (m : MatchResult) (i : nat) : jsstring :=
  match group m i with
  | Some s => s
  | None => js "undefined"%string
  end.

Definition parseHealthText (text : jsstring) : PartialReading :=
  let result := {| bloodSugar := None; systolic := None; diastolic := None |} in
  let sugarMatch := exec sugarRegex text in
  let result :=
      match sugarMatch with
      | Some m =>
        {| bloodSugar := Some (parseFloat (capture m 1));
           systolic := systolic result;
           diastolic := diastolic result |}
      | None => result
      end in
  let bpMatch := exec bpRegex text in
  match bpMatch with
  | Some m =>
    let sys := parseInt (capture m 1) in
    let dia := parseInt (capture m 2) in
    if ((60 <=? sys) && (sys <=? 250) && (40 <=? dia) && (dia <=? 150))%float
    then {| bloodSugar := bloodSugar result;
            systolic := Some sys;
            diastolic := Some dia |}
    else result
  | None => result
  end.

(* ================================================================== *)
(** * Vocabulary of the text extraction properties *)
(* ================================================================== *)

(** The pattern occurs in the text at position [j]: some word it can match
    starts there. *)
Definition occurs (r : regex) (text : jsstring) (j : nat) : Prop :=
  exists w c rest, skipn j text = w ++ rest /\ Match r w [] c.

(** [m] is the first occurrence of the pattern in the text. *)
Definition first_occurrence (r : regex) (text : jsstring) (m : MatchResult) : Prop :=
  exists pre rest,
    text = pre ++ matched m ++ rest
    /\ matchIndex m = length pre
    /\ Match r (matched m) [] (groups m)
    /\ (forall j, (j < length pre)%nat -> ~ occurs r text j).

(** Between [lo] and [hi] decimal digits. *)
Definition digits (lo hi : nat) (w : jsstring) : Prop :=
  Forall (fun c => is_digit c = true) w /\ (lo <= length w <= hi)%nat.

(** The words the pressure pattern matches with captures [d1] and [d2]. *)
Definition pressure_phrase (w d1 d2 : jsstring) : Prop :=
  exists seps mid,
    w = [0x8840; 0x538B]%N ++ seps ++ d1 ++ mid ++ d2
    /\ Forall (fun c => separator c = true) seps
    /\ digits 2 3 d1
    /\ Forall (fun c => non_digit c = true) mid
    /\ (1 <= length mid <= 3)%nat
    /\ digits 2 3 d2.

(** The words the glucose pattern matches with capture [g]. *)
Definition glucose_phrase (w g : jsstring) : Prop :=
  exists seps ip fp,
    w = [0x8840; 0x7CD6]%N ++ seps ++ g
    /\ Forall (fun c => separator c = true) seps
    /\ Forall (fun c => is_digit c = true) ip /\ ip <> []
    /\ Forall (fun c => is_digit c = true) fp
    /\ (g = ip \/ (fp <> [] /\ g = ip ++ 0x2E%N :: fp)).

(** The physiological bounds of [parseHealthText], on Numbers and on
    integers. *)
Definition in_bounds (sys dia : float) : bool :=
  ((60 <=? sys) && (sys <=? 250) && (40 <=? dia) && (dia <=? 150))%float.

Definition in_range (sys dia : Z) : Prop :=
  60 <= sys <= 250 /\ 40 <= dia <= 150.

Definition no_pressure (r : PartialReading) : Prop :=
  systolic r = None /\ diastolic r = None.

(** The Number [x] is the integer [n], exactly. *)
Definition number_is (x : float) (n : Z) : Prop :=
  x = float_of_Z n /\ (Q_of_float x == inject_Z n)%Q.

(** The result has the pressure reading [sys] over [dia]. *)
Definition pressure_is (r : PartialReading) (sys dia : Z) : Prop :=
  exists x y,
    systolic r = Some x /\ diastolic r = Some y
    /\ number_is x sys /\ number_is y dia.

(* ================================================================== *)
(** * Statistics *)
(* ================================================================== *)

Module GlucoseStats.
Record t := mk {
  count : nat;
  average : option NumberString;
  min : option float;
  max : option float
}.
End GlucoseStats.

Module PressureStats.
Record t := mk {
  count : nat;
  avgSystolic : option float;
  avgDiastolic : option float;
  minSystolic : option float;
  maxSystolic : option float;
  minDiastolic : option float;
  maxDiastolic : option float
}.
End PressureStats.

(** The object [getStats] resolves to. *)
Module Stats.
Record t := mk {
  glucose : GlucoseStats.t;
  pressure : PressureStats.t
}.
End Stats.

(** The glucose half of the [then] callback of [getStats]. *)
Definition glucose_stats (glucoseRecords : list (Stored Glucose.t)) : GlucoseStats.t :=
  let glucoseStats :=
      {| GlucoseStats.count := length glucoseRecords;
         GlucoseStats.average := None;
         GlucoseStats.min := None;
         GlucoseStats.max := None |} in
  if (0 <? length glucoseRecords)%nat then
    let values := map (fun r => Glucose.value (fields r)) glucoseRecords in
    {| GlucoseStats.count := GlucoseStats.count glucoseStats;
       GlucoseStats.average := Some (toFixed1 (sum values / length_number values));
       GlucoseStats.min := Some (Math_min values);
       GlucoseStats.max := Some (Math_max values) |}
  else glucoseStats.

(** The pressure half. *)
Definition pressure_stats (pressureRecords : list (Stored Pressure.t)) : PressureStats.t :=
  let pressureStats :=
      {| PressureStats.count := length pressureRecords;
         PressureStats.avgSystolic := None;
         PressureStats.avgDiastolic := None;
         PressureStats.minSystolic := None;
         PressureStats.maxSystolic := None;
         PressureStats.minDiastolic := None;
         PressureStats.maxDiastolic := None |} in
  if (0 <? length pressureRecords)%nat then
    let systolics := map (fun r => Pressure.systolic (fields r)) pressureRecords in
    let diastolics := map (fun r => Pressure.diastolic (fields r)) pressureRecords in
    {| PressureStats.count := PressureStats.count pressureStats;
       PressureStats.avgSystolic :=
         Some (Math_round (sum systolics / length_number systolics));
       PressureStats.avgDiastolic :=
         Some (Math_round (sum diastolics / length_number diastolics));
       PressureStats.minSystolic := Some (Math_min systolics);
       PressureStats.maxSystolic := Some (Math_max systolics);
       PressureStats.minDiastolic := Some (Math_min diastolics);
       PressureStats.maxDiastolic := Some (Math_max diastolics) |}
  else pressureStats.

(** [getStats(days)]. [cutoffOf days] is what the first three lines compute
    from the clock: the date [new Date()], moved back [days] calendar days by
    [setDate], and the string [toISOString()] prints for it. It is [None]
    when the date is invalid ([days] is [NaN] or infinite, or so large that
    the date leaves the range of dates): then [toISOString()] throws a
    [RangeError], before any query is made, and no promise is returned.
    [Promise.all] rejects as soon as one of the two queries does. *)
Definition getStats (db : option Database) (cutoffOf : float -> option jsstring)
           (days : float) : Completion (Settled Stats.t) :=
  match cutoffOf days with
  | None => Thrown RangeError
  | Some cutoffISO =>
    Returned
      match getFilteredRecords db glucose cutoffISO,
            getFilteredRecords db pressure cutoffISO with
      | Fulfilled glucoseRecords, Fulfilled pressureRecords =>
        let glucoseStats := glucose_stats glucoseRecords in
        let pressureStats := pressure_stats pressureRecords in
        Fulfilled {| Stats.glucose := glucoseStats;
                     Stats.pressure := pressureStats |}
      | Rejected e, _ => Rejected e
      | _, Rejected e => Rejected e
      end
  end.

(* ================================================================== *)
(** * Vocabulary of the statistics properties *)
(* ================================================================== *)

(** The order of JavaScript's [<=] on Numbers. *)
Definition fle (x y : float) : Prop := (x <=? y)%float = true.

Definition no_NaN (values : list float) : Prop :=
  Forall (fun v => is_nan v = false) values.

(** [m] is one of [values], and none of them is below it. *)
Definition minimum_of (values : list float) (m : float) : Prop :=
  In m values /\ Forall (fun v => fle m v) values.

(** [m] is one of [values], and none of them is above it. *)
Definition maximum_of (values : list float) (m : float) : Prop :=
  In m values /\ Forall (fun v => fle v m) values.

(** Neither [NaN] nor an infinity. *)
Definition finiteb (x : float) : bool :=
  match Prim2SF x with
  | S754_finite _ _ _ | S754_zero _ => true
  | _ => false
  end.

(** [n] is the integer nearest to [q], the larger one of two: [q + 1/2]
    rounded down. *)
Definition nearest_integer (q : Q) (n : Z) : Prop :=
  (inject_Z n - (1 # 2) <= q /\ q < inject_Z n + (1 # 2))%Q.

(** [out] is [x] rounded to an integer, as a Number: a finite Number whose
    value is the integer nearest to [x]. *)
Definition rounded_to_integer (x out : float) : Prop :=
  exists n,
    nearest_integer (Q_of_float x) n
    /\ finiteb out = true
    /\ (Q_of_float out == inject_Z n)%Q.

(** Decimal digits with no needless zero in front. *)
Definition no_leading_zero (ip : jsstring) : Prop :=
  ip = [0x30%N] \/ (exists c rest, ip = c :: rest /\ c <> 0x30%N).

(** [out] is [x] rounded to one decimal place, in decimal notation: a sign,
    the digits of [n / 10], a point and the digit [n mod 10], where [n / 10]
    is as near to [|x|] as a multiple of a tenth can be. *)
Definition rounded_to_one_decimal (x : float) (out : NumberString) : Prop :=
  exists n ip fp,
    nearest_integer (10 * Qabs (Q_of_float x)) n
    /\ out = Str ((if (x <? 0)%float then js "-"%string else [])
                    ++ ip ++ js "."%string ++ fp)
    /\ Forall (fun c => is_digit c = true) ip
    /\ no_leading_zero ip
    /\ decimal_value ip = n / 10
    /\ digits 1 1 fp
    /\ decimal_value fp = n mod 10.

(** [s] is the floating-point sum of [values]: 0 for no value, and for the
    values with one more, the sum of the values before it plus that one,
    each addition rounded to a Number as [+] does. *)
Inductive float_sum : list float -> float -> Prop :=
| float_sum_nil : float_sum [] 0%float
| float_sum_snoc (values : list float) (s v : float) :
    float_sum values s -> float_sum (values ++ [v]) (s + v)%float.

(** [c] is the number of [values] as a Number: the Number nearest to it,
    which is that integer itself as long as it has at most 53 binary
    digits. *)
Definition count_Number (values : list float) (c : float) : Prop :=
  c = float_of_Z (Z.of_nat (length values))
  /\ (Z.of_nat (length values) <= 2 ^ 53 ->
      finiteb c = true
      /\ (Q_of_float c == inject_Z (Z.of_nat (length values)))%Q).

(** [avg] is the floating-point sum of [values] divided by their count. *)
Definition float_average (values : list float) (avg : float) : Prop :=
  exists s c,
    float_sum values s /\ count_Number values c /\ avg = (s / c)%float.

(** What [toFixed(1)] prints for [x]: [x] rounded to one decimal place in
    decimal notation when it is finite and below 1e21 in magnitude; the
    names of [NaN] and of the infinities; and from 1e21 on what [ToString]
    prints, which is the exponent notation, with no rounding to a tenth. *)
Definition printed_to_one_decimal (x : float) (out : NumberString) : Prop :=
  if is_nan x then out = Str (js "NaN"%string)
  else if is_infinity x then
         out = Str (if (x <? 0)%float then js "-Infinity"%string
                    else js "Infinity"%string)
       else if (1e21 <=? abs x)%float then out = ToString x
            else rounded_to_one_decimal x out.

(** [out] is the average of [values] as [toFixed(1)] prints it. *)
Definition average_to_one_decimal (values : list float)
           (out : option NumberString) : Prop :=
  exists avg s,
    float_average values avg /\ out = Some s /\ printed_to_one_decimal avg s.

(** [out] is the average of [values] rounded to an integer; an average that
    is [NaN] or infinite is left as it is. *)
Definition average_to_integer (values : list float) (out : option float) : Prop :=
  exists avg r,
    float_average values avg
    /\ out = Some r
    /\ (if finiteb avg then rounded_to_integer avg r else r = avg).

(** [lo] and [hi] are the least and the greatest of [values], themselves;
    both are [NaN] when one of the values is. *)
Definition exact_extrema (values : list float) (lo hi : option float) : Prop :=
  exists m M,
    lo = Some m /\ hi = Some M
    /\ (no_NaN values -> minimum_of values m /\ maximum_of values M)
    /\ (Exists (fun v => is_nan v = true) values ->
        is_nan m = true /\ is_nan M = true).

Definition glucose_stats_spec (glucoseRecords : list (Stored Glucose.t))
           (s : GlucoseStats.t) : Prop :=
  let values := map (fun r => Glucose.value (fields r)) glucoseRecords in
  GlucoseStats.count s = length glucoseRecords
  /\ average_to_one_decimal values (GlucoseStats.average s)
  /\ exact_extrema values (GlucoseStats.min s) (GlucoseStats.max s).

Definition pressure_stats_spec (pressureRecords : list (Stored Pressure.t))
           (s : PressureStats.t) : Prop :=
  let systolics := map (fun r => Pressure.systolic (fields r)) pressureRecords in
  let diastolics := map (fun r => Pressure.diastolic (fields r)) pressureRecords in
  PressureStats.count s = length pressureRecords
  /\ average_to_integer systolics (PressureStats.avgSystolic s)
  /\ average_to_integer diastolics (PressureStats.avgDiastolic s)
  /\ exact_extrema systolics (PressureStats.minSystolic s)
                   (PressureStats.maxSystolic s)
  /\ exact_extrema diastolics (PressureStats.minDiastolic s)
                   (PressureStats.maxDiastolic s).

(* ================================================================== *)
(** * Vocabulary of the rounding of Numbers *)
(* ================================================================== *)

(** [x] is a Number nearest to the rational [q]: a finite Number that no
    finite Number is nearer to [q] than; or [Infinity], from the middle
    between the greatest finite Number and [2 ^ 1024] on. *)
Definition nearest_Number (q : Q) (x : float) : Prop :=
  (finiteb x = true
   /\ forall y, finiteb y = true ->
                (Qabs (Q_of_float x - q) <= Qabs (Q_of_float y - q))%Q)
  \/ (x = infinity /\ (inject_Z ((2 ^ 54 - 1) * 2 ^ 970) <= q)%Q).

(** Where a rational [N / U] lies with respect to the integer [m]: in
    [[m, m + 1)], and at [m], below, at or above the middle. *)
Definition loc_in (N U m : Z) (l : location) : Prop :=
  m * U <= N < (m + 1) * U
  /\ match l with
     | loc_Exact => N = m * U
     | loc_Inexact c => N <> m * U /\ (2 * (N - m * U) ?= U) = c
     end.

(** [m * 2 ^ e] is [(N / U) * 2 ^ ex] rounded in the format: [e] is an
    exponent of the format, at which the quotient is at least [2 ^ 52]
    units unless [e] is the least exponent, and [m] is an integer within half
    a unit of it. *)
Definition rounds_to (N U ex m e : Z) : Prop :=
  ex <= e /\ -1074 <= e /\ 0 <= m <= 2 ^ 53
  /\ (-1074 < e -> 2 ^ 52 * (U * 2 ^ (e - ex)) <= N)
  /\ 2 * Z.abs (m * (U * 2 ^ (e - ex)) - N) <= U * 2 ^ (e - ex).

(** The float of sign [sx] and magnitude [m * 2 ^ e]. *)
Definition float_of_rounding (sx : bool) (m e : Z) : spec_float :=
  if m =? 0 then S754_zero sx
  else if m =? 2 ^ 53 then
         if e + 1 <=? 971 then S754_finite sx (Z.to_pos (2 ^ 52)) (e + 1)
         else S754_infinity sx
       else if e <=? 971 then S754_finite sx (Z.to_pos m) e
            else S754_infinity sx.

(** The exact value of a float that is finite. *)
Definition Q_of_spec (f : spec_float) : Q :=
  match f with
  | S754_finite s m e =>
    let z := if s then Zneg m else Zpos m in
    if 0 <=? e then inject_Z (z * 2 ^ e) else Qmake z (Z.to_pos (2 ^ (- e)))
  | _ => 0%Q
  end.

Definition is_finite_spec (f : spec_float) : bool :=
  match f with
  | S754_finite _ _ _ | S754_zero _ => true
  | _ => false
  end.

(** On the integers three digits can denote, the Number is the integer and
    comparing the Numbers is comparing the integers. *)
Definition bounds_agree (n : Z) : bool :=
  Qeq_bool (Q_of_float (float_of_Z n)) (inject_Z n)
  && Bool.eqb (60 <=? float_of_Z n)%float (60 <=? n)
  && Bool.eqb (float_of_Z n <=? 250)%float (n <=? 250)
  && Bool.eqb (40 <=? float_of_Z n)%float (40 <=? n)
  && Bool.eqb (float_of_Z n <=? 150)%float (n <=? 150).

(* ================================================================== *)
(** * Voice input, summaries, history and export *)
(* ================================================================== *)

(** [a === b] on strings. *)
Definition str_eqb (a b : jsstring) : bool :=
  match key_compare a b with
  | Eq => true
  | _ => false
  end.

(** The value of a Number as a condition: [0], [-0] and [NaN] are false. *)
Definition truthy (x : float) : bool := negb (is_zero x || is_nan x).

(** [Object.keys(parsed).length] *)
Definition keys_length (parsed : PartialReading) : nat :=
  (match bloodSugar parsed with Some _ => 1 | None => 0 end
   + match systolic parsed with Some _ => 1 | None => 0 end
   + match diastolic parsed with Some _ => 1 | None => 0 end)%nat.

(** A string built by a template literal or by [+]: its literal text, and the
    values interpolated into it, which the engine prints ([ToString] of a
    Number, "null" for [null]); [Time iso] is the string [formatTime(iso)]
    returns. *)
Inductive piece :=
| Text (s : jsstring)
| Num (x : float)
| Fixed (s : NumberString)
| Null
| Time (isoTime : jsstring).

Definition template := list piece.

(** [${x}] for a property that is a Number or [null]. *)
Definition num (x : option float) : piece :=
  match x with
  | Some v => Num v
  | None => Null
  end.

(** [${x}] for a property that is a string of [toFixed] or [null]. *)
Definition fixed (x : option NumberString) : piece :=
  match x with
  | Some s => Fixed s
  | None => Null
  end.

(** [${n}] for a length. *)
Definition count_piece (n : nat) : piece := Text (decimal_digits (Z.of_nat n)).

(** [parts.join(sep)] *)
Fixpoint join (sep : jsstring) (parts : list template) : template :=
  match parts with
  | [] => []
  | [p] => p
  | p :: ps => p ++ Text sep :: join sep ps
  end.

(** A line of the history list: the texts of its [value] and [time] spans. *)
Record HistoryItem := mkItem {
  itemValue : template;
  itemTime : template
}.

(** The object [exportData] serializes. *)
Module ExportData.
Record t := mk {
  exportTime : jsstring;
  glucose : list (Stored Glucose.t);
  pressure : list (Stored Pressure.t)
}.
End ExportData.

(** What a handler does to the page and to its collaborators, in order. The
    markup the program writes is fixed around a few texts, which the events
    carry: [SetContent icon message hint] is the assignment of the three-line
    [big-mic] markup to [content.innerHTML], [SetHistory items] and
    [SetHistoryEmpty] the two assignments to the history list, [Download] the
    click on a link to the blob of [JSON.stringify(data, null, 2)]. *)
Inductive event :=
| SetTextContent (elementId : jsstring) (text : template)
| Speak (text : template)
| EnableSpeech
| LoadHistory (type : StoreName)
| ConsoleError (label : jsstring)
| SetContent (icon : jsstring) (message hint : template)
| SetOnclickStartAutoRecord
| SetDisplay (value : jsstring)
| SetTimeout (callback : list event) (ms : Z)
| SetHistory (items : list HistoryItem)
| SetHistoryEmpty
| Download (filename : jsstring) (data : ExportData.t).

(** [processVoiceInput(text)]. [now1] and [now2] are the clock readings of
    the two saves, [currentTab] the tab shown. *)
Definition processVoiceInput (db : option Database) (currentTab : StoreName)
           (now1 now2 : jsstring) (text : jsstring)
  : option Database * list event :=
  let parsed := parseHealthText text in
  if (keys_length parsed =? 0)%nat then
    let speech := [Text (js "没有听清楚，请说例如：血糖6.4，或者血压130 85"%string)] in
    (db, [SetTextContent (js "result"%string) speech;
          SetTextContent (js "statusBar"%string) [Text (js "请重试"%string)];
          Speak speech])
  else
    let savedParts : list template := [] in
    let failed (db : option Database) :=
        (db, [ConsoleError (js "Save error:"%string);
              SetTextContent (js "statusBar"%string) [Text (js "保存失败"%string)]]) in
    let finish (db : option Database) (savedParts : list template) :=
        let speech := Text (js "好的，已记录"%string)
                           :: join (js "，"%string) savedParts
                           ++ [Text (js "。"%string)] in
        (db, [SetTextContent (js "result"%string) speech;
              SetTextContent (js "statusBar"%string) [Text (js "记录成功"%string)];
              Speak speech;
              LoadHistory currentTab]) in
    let pressure (db : option Database) (savedParts : list template) :=
        match systolic parsed, diastolic parsed with
        | Some sys, Some dia =>
          if truthy sys && truthy dia then
            match savePressure db now2 sys dia text with
            | (Fulfilled _, db) =>
              finish db (savedParts
                           ++ [[Text (js "血压"%string); Num sys;
                                Text (js "，"%string); Num dia]])
            | (Rejected _, db) => failed db
            end
          else finish db savedParts
        | _, _ => finish db savedParts
        end in
    match bloodSugar parsed with
    | Some sugar =>
      if truthy sugar then
        match saveGlucose db now1 sugar text with
        | (Fulfilled _, db) =>
          pressure db (savedParts ++ [[Text (js "血糖"%string); Num sugar]])
        | (Rejected _, db) => failed db
        end
      else pressure db savedParts
    | None => pressure db savedParts
    end.

(** [processAutoVoiceInput(text, overlay)] *)
Definition processAutoVoiceInput (db : option Database) (currentTab : StoreName)
           (now1 now2 : jsstring) (text : jsstring)
  : option Database * list event :=
  let parsed := parseHealthText text in
  if (keys_length parsed =? 0)%nat then
    (db, [SetContent (js "❓"%string) [Text (js "没有听清楚"%string)]
                     [Text (js "轻触屏幕重试"%string)];
          Speak [Text (js "没有听清楚，请重试"%string)];
          SetOnclickStartAutoRecord])
  else
    let savedParts : list template := [] in
    let failed (db : option Database) :=
        (db, [ConsoleError (js "Save error:"%string);
              SetContent (js "❌"%string) [Text (js "保存失败"%string)]
                         [Text (js "轻触重试"%string)];
              SetOnclickStartAutoRecord]) in
    let finish (db : option Database) (savedParts : list template) :=
        let speechText := Text (js "好的，已记录"%string)
                               :: join (js "，"%string) savedParts
                               ++ [Text (js "。"%string)] in
        (db, [SetContent (js "✅"%string) [Text (js "记录成功"%string)]
                         (join (js "，"%string) savedParts);
              Speak speechText;
              LoadHistory currentTab;
              SetTimeout
                [SetDisplay (js "none"%string);
                 SetContent (js "🎤"%string) [Text (js "轻触屏幕开始说话"%string)]
                            [Text (js "例如：血糖 6.4 / 血压 130 85"%string)];
                 SetOnclickStartAutoRecord]
                3000]) in
    let pressure (db : option Database) (savedParts : list template) :=
        match systolic parsed, diastolic parsed with
        | Some sys, Some dia =>
          if truthy sys && truthy dia then
            match savePressure db now2 sys dia text with
            | (Fulfilled _, db) =>
              finish db (savedParts
                           ++ [[Text (js "血压"%string); Num sys;
                                Text (js "，"%string); Num dia]])
            | (Rejected _, db) => failed db
            end
          else finish db savedParts
        | _, _ => finish db savedParts
        end in
    match bloodSugar parsed with
    | Some sugar =>
      if truthy sugar then
        match saveGlucose db now1 sugar text with
        | (Fulfilled _, db) =>
          pressure db (savedParts ++ [[Text (js "血糖"%string); Num sugar]])
        | (Rejected _, db) => failed db
        end
      else pressure db savedParts
    | None => pressure db savedParts
    end.

(** The window of [showSummary(type)], in days. *)
Definition summary_days (type : jsstring) : float :=
  let days := 7%float in
  if str_eqb type (js "today"%string) then 1%float
  else if str_eqb type (js "3day"%string) then 3%float
  else if str_eqb type (js "weekly"%string) then 7%float
  else days.

(** [periodName] of [showSummary(type)]. *)
Definition periodName (type : jsstring) : jsstring :=
  if str_eqb type (js "today"%string) then js "今天"%string
  else if str_eqb type (js "3day"%string) then js "过去3天"%string
  else js "过去7天"%string.

(** The [latest] branch of [showSummary]. *)
Definition latest_speech (latestGlucose : list (Stored Glucose.t))
           (latestPressure : list (Stored Pressure.t)) : template :=
  let parts : list template := [] in
  let parts :=
      match latestGlucose with
      | g :: _ =>
        parts ++ [[Text (js "最近血糖"%string); Num (Glucose.value (fields g));
                   Text (js "，"%string); Time (Glucose.recordedAt (fields g))]]
      | [] => parts ++ [[Text (js "暂无血糖记录"%string)]]
      end in
  let parts :=
      match latestPressure with
      | p :: _ =>
        parts ++ [[Text (js "最近血压，高压"%string);
                   Num (Pressure.systolic (fields p));
                   Text (js "，低压"%string);
                   Num (Pressure.diastolic (fields p));
                   Text (js "，"%string);
                   Time (Pressure.recordedAt (fields p))]]
      | [] => parts ++ [[Text (js "暂无血压记录"%string)]]
      end in
  join (js "。"%string) parts ++ [Text (js "。"%string)].

(** The report of [showSummary] on the statistics of a period. *)
Definition report_speech (type : jsstring) (stats : Stats.t) : template :=
  let parts : list template :=
      [[Text (periodName type); Text (js "健康数据汇报。"%string)]] in
  let parts :=
      if (GlucoseStats.count (Stats.glucose stats) =? 0)%nat then
        parts ++ [[Text (js "没有血糖记录。"%string)]]
      else
        parts
          ++ [[Text (js "血糖共"%string);
               count_piece (GlucoseStats.count (Stats.glucose stats));
               Text (js "次，平均"%string);
               fixed (GlucoseStats.average (Stats.glucose stats));
               Text (js "，"%string)]]
          ++ [[Text (js "最低"%string);
               num (GlucoseStats.min (Stats.glucose stats));
               Text (js "，最高"%string);
               num (GlucoseStats.max (Stats.glucose stats));
               Text (js "。"%string)]] in
  let parts :=
      if (PressureStats.count (Stats.pressure stats) =? 0)%nat then
        parts ++ [[Text (js "没有血压记录。"%string)]]
      else
        parts
          ++ [[Text (js "血压共"%string);
               count_piece (PressureStats.count (Stats.pressure stats));
               Text (js "次，平均高压"%string);
               num (PressureStats.avgSystolic (Stats.pressure stats));
               Text (js "，低压"%string);
               num (PressureStats.avgDiastolic (Stats.pressure stats));
               Text (js "，"%string)]]
          ++ [[Text (js "收缩压"%string);
               num (PressureStats.minSystolic (Stats.pressure stats));
               Text (js "到"%string);
               num (PressureStats.maxSystolic (Stats.pressure stats));
               Text (js "，"%string)]]
          ++ [[Text (js "舒张压"%string);
               num (PressureStats.minDiastolic (Stats.pressure stats));
               Text (js "到"%string);
               num (PressureStats.maxDiastolic (Stats.pressure stats));
               Text (js "。"%string)]] in
  let parts := parts ++ [[Text (js "以上数据仅供参考。"%string)]] in
  join [] parts.

(** [showSummary(type)]: what it does, and how its promise settles (it has
    no [catch], and an exception of a call rejects the promise of this
    [async] function). It asks [getStats] for 1, 3 or 7 days only, for
    which the date [getStats] computes is a valid one: [cutoffOf days] is
    the string printed for it. *)
Definition showSummary (db : option Database) (cutoffOf : float -> jsstring)
           (type : jsstring) : list event * Settled unit :=
  if negb (str_eqb type (js "today"%string))
     && negb (str_eqb type (js "3day"%string))
     && negb (str_eqb type (js "weekly"%string))
     && str_eqb type (js "latest"%string)
  then
    match getRecent db glucose 1, getRecent db pressure 1 with
    | Fulfilled latestGlucose, Fulfilled latestPressure =>
      let speech := latest_speech latestGlucose latestPressure in
      ([EnableSpeech; SetTextContent (js "result"%string) speech; Speak speech],
       Fulfilled tt)
    | Rejected e, _ => ([EnableSpeech], Rejected e)
    | _, Rejected e => ([EnableSpeech], Rejected e)
    end
  else
    match getStats db (fun days => Some (cutoffOf days)) (summary_days type) with
    | Returned (Fulfilled stats) =>
      let speech := report_speech type stats in
      ([EnableSpeech; SetTextContent (js "result"%string) speech; Speak speech],
       Fulfilled tt)
    | Returned (Rejected e) => ([EnableSpeech], Rejected e)
    | Thrown e => ([EnableSpeech], Rejected e)
    end.

(** A line of [loadHistory] for a record of the store [type]. *)
Definition history_item (type : StoreName) : Stored (fieldsOf type) -> HistoryItem :=
  match type with
  | glucose => fun r =>
    {| itemValue := [Text (js "血糖 "%string); Num (Glucose.value (fields r));
                     Text (js " mmol/L"%string)];
       itemTime := [Time (Glucose.recordedAt (fields r))] |}
  | pressure => fun r =>
    {| itemValue := [Text (js "血压 "%string); Num (Pressure.systolic (fields r));
                     Text (js "/"%string); Num (Pressure.diastolic (fields r))];
       itemTime := [Time (Pressure.recordedAt (fields r))] |}
  end.

(** [loadHistory(type)] *)
Definition loadHistory (db : option Database) (type : StoreName)
  : list event * Settled unit :=
  match getRecent db type 20 with
  | Fulfilled records =>
    if (length records =? 0)%nat then ([SetHistoryEmpty], Fulfilled tt)
    else ([SetHistory (map (history_item type) records)], Fulfilled tt)
  | Rejected e => ([], Rejected e)
  end.

(** [exportData()]. [now1] and [now2] are the two clock readings. *)
Definition exportData (db : option Database) (now1 now2 : jsstring)
  : list event * Settled unit :=
  match getRecent db glucose 1000, getRecent db pressure 1000 with
  | Fulfilled glucoseRecords, Fulfilled pressureRecords =>
    let data := {| ExportData.exportTime := now1;
                   ExportData.glucose := glucoseRecords;
                   ExportData.pressure := pressureRecords |} in
    ([Download (js "health_data_"%string ++ firstn 10 now2 ++ js ".json"%string)
               data;
      SetTextContent (js "statusBar"%string) [Text (js "数据已导出"%string)]],
     Fulfilled tt)
  | Rejected e, _ => ([], Rejected e)
  | _, Rejected e => ([], Rejected e)
  end.

(** The fraction of a decimal: nothing, or a point and digits. *)
Definition fraction (fp : jsstring) : jsstring :=
  match fp with
  | [] => []
  | _ :: _ => 0x2E%N :: fp
  end.

(* ================================================================== *)
(** * Sequences of saves *)
(* ================================================================== *)

(** A call of one of the two save operations, with its clock reading. *)
Inductive SaveOp :=
| SaveGlucose (now : jsstring) (value : float) (notes : jsstring)
| SavePressure (now : jsstring) (systolic diastolic : float) (notes : jsstring).

Definition store_of (op : SaveOp) : StoreName :=
  match op with
  | SaveGlucose _ _ _ => glucose
  | SavePressure _ _ _ _ => pressure
  end.

Definition save (db : option Database) (op : SaveOp) : Settled Z * option Database :=
  match op with
  | SaveGlucose now value notes => saveGlucose db now value notes
  | SavePressure now sys dia notes => savePressure db now sys dia notes
  end.

Definition same_store (a b : StoreName) : bool :=
  match a, b with
  | glucose, glucose | pressure, pressure => true
  | _, _ => false
  end.





(* ================================================================== *)
(** * Vocabulary of the handler properties *)
(* ================================================================== *)

(** What a handler had spoken, in order. *)
Fixpoint spoken (events : list event) : list template :=
  match events with
  | [] => []
  | Speak text :: events' => text :: spoken events'
  | _ :: events' => spoken events'
  end.

(** The record [saveGlucose(value, notes)] adds at [now] when the key
    generator is at [key]. *)
Definition glucose_record (key : Z) (now : jsstring) (value : float)
           (notes : jsstring) : Stored Glucose.t :=
  mkStored key (Glucose.mk value (js "mmol/L"%string) now notes).

Definition pressure_record (key : Z) (now : jsstring) (sys dia : float)
           (notes : jsstring) : Stored Pressure.t :=
  mkStored key (Pressure.mk sys dia now notes).

(** The glucose record a handler saves for the reading [parsed]: the one of
    a [bloodSugar] that is neither zero nor [NaN]. *)
Definition glucose_to_save (d : Database) (now text : jsstring)
           (parsed : PartialReading) : list (Stored Glucose.t) :=
  match bloodSugar parsed with
  | Some x =>
    if truthy x then [glucose_record (keyGen (glucoseStore d)) now x text] else []
  | None => []
  end.

(** The pressure record a handler saves for the reading [parsed]. *)
Definition pressure_to_save (d : Database) (now text : jsstring)
           (parsed : PartialReading) : list (Stored Pressure.t) :=
  match systolic parsed, diastolic parsed with
  | Some sys, Some dia =>
    [pressure_record (keyGen (pressureStore d)) now sys dia text]
  | _, _ => []
  end.

(** The confirmation a handler speaks after saving [g] and [p]. *)
Definition confirmation (g : list (Stored Glucose.t))
           (p : list (Stored Pressure.t)) : template :=
  Text (js "好的，已记录"%string)
       :: join (js "，"%string)
               (map (fun r => [Text (js "血糖"%string);
                               Num (Glucose.value (fields r))]) g
                ++ map (fun r => [Text (js "血压"%string);
                                  Num (Pressure.systolic (fields r));
                                  Text (js "，"%string);
                                  Num (Pressure.diastolic (fields r))]) p)
       ++ [Text (js "。"%string)].

(** The string holds a printed [null]. *)
Definition says_null (speech : template) : bool :=
  existsb (fun p => match p with Null => true | _ => false end) speech.

(** The clock reading of a save, and the line of the history list for the
    record it adds. *)
Definition now_of (op : SaveOp) : jsstring :=
  match op with
  | SaveGlucose now _ _ => now
  | SavePressure now _ _ _ => now
  end.

Definition item_of (op : SaveOp) : HistoryItem :=
  match op with
  | SaveGlucose now value _ =>
    {| itemValue := [Text (js "血糖 "%string); Num value; Text (js " mmol/L"%string)];
       itemTime := [Time now] |}
  | SavePressure now sys dia _ =>
    {| itemValue := [Text (js "血压 "%string); Num sys; Text (js "/"%string); Num dia];
       itemTime := [Time now] |}
  end.

(** Whether the record a save adds belongs to the window of the store [n]
    that starts at [cutoffISO]. *)
Definition counted (n : StoreName) (cutoffISO : jsstring) (op : SaveOp) : nat :=
  if same_store (store_of op) n && key_leb cutoffISO (now_of op) then 1 else 0.

(* ================================================================== *)
(** * Sample data *)
(* ================================================================== *)

(** Three instants, as [toISOString] prints them. *)
Definition t1 : jsstring := js "2024-03-01T08:00:00.000Z"%string.
Definition t2 : jsstring := js "2024-03-02T08:00:00.000Z"%string.
Definition t3 : jsstring := js "2024-03-03T08:00:00.000Z"%string.

(** The database behind the handle, once [initDB] has run. *)
Definition opened (db : option Database) : Database :=
  match db with
  | Some d => d
  | None => initDB None
  end.

(** A fresh database after three glucose readings at [t1 < t2 < t3]. *)
Definition three_readings : Database :=
  let db := Some (initDB None) in
  let db := snd (saveGlucose db t1 5.5%float []) in
  let db := snd (saveGlucose db t2 6.4%float []) in
  opened (snd (saveGlucose db t3 7.25%float [])).

(** A fresh database after two glucose readings within one millisecond. *)
Definition same_instant : Database :=
  let db := Some (initDB None) in
  let db := snd (saveGlucose db t1 5.5%float []) in
  opened (snd (saveGlucose db t1 6.4%float [])).

(** A database with two glucose and two pressure readings. *)
Definition mixed_readings : Database :=
  let db := Some (initDB None) in
  let db := snd (saveGlucose db t1 6.4%float []) in
  let db := snd (savePressure db t1 130 85 []) in
  let db := snd (saveGlucose db t2 7.25%float []) in
  opened (snd (savePressure db t3 121 78 [])).

(** A fresh database after one glucose reading of 1e21. *)
Definition huge_reading : Database :=
  opened (snd (saveGlucose (Some (initDB None)) t1 1e21%float [])).

(** A fresh database after two glucose readings of 1e308. *)
Definition overflowing_readings : Database :=
  let db := Some (initDB None) in
  let db := snd (saveGlucose db t1 1e308%float []) in
  opened (snd (saveGlucose db t2 1e308%float [])).

(** A fresh database after one glucose reading at [t3]. *)
Definition one_reading_at_t3 : Database :=
  opened (snd (saveGlucose (Some (initDB None)) t3 7.25%float [])).

(** "血压300 90，血压130 85": the first occurrence, at position 0, captures
    300 and 90; the one at position 9 captures 130 and 85. *)
Definition two_pressures : jsstring := js "血压300 90，血压130 85"%string.

Definition first_of_two_pressures : MatchResult :=
  {| matchIndex := 0;
     matched := js "血压300 90"%string;
     groups := [(2%nat, js "90"%string); (1%nat, js "300"%string)] |}.

(* ================================================================== *)
(** * Properties of the key order *)
(* ================================================================== *)

Lemma key_compare_refl (a : jsstring) : key_compare a a = Eq.
Proof.
  induction a as [|x a IH]; simpl; [reflexivity|].
  now rewrite N.compare_refl.
Qed.

Lemma key_compare_eq (a b : jsstring) : key_compare a b = Eq -> a = b.
Proof.
  revert b; induction a as [|x a IH]; intros [|y b]; simpl; try discriminate; auto.
  destruct (N.compare_spec x y); try discriminate.
  intros E; subst; f_equal; auto.
Qed.

Lemma key_compare_antisym (a b : jsstring) :
  key_compare b a = CompOpp (key_compare a b).
Proof.
  revert b; induction a as [|x a IH]; intros [|y b]; simpl; auto.
  rewrite (N.compare_antisym x y).
  destruct (x ?= y)%N; simpl; auto.
Qed.

Lemma key_compare_lt_trans (a b c : jsstring) :
  key_compare a b = Lt -> key_compare b c = Lt -> key_compare a c = Lt.
Proof.
  revert b c; induction a as [|x a IH]; intros [|y b] [|z c]; simpl;
    try discriminate; auto.
  destruct (N.compare_spec x y), (N.compare_spec y z), (N.compare_spec x z);
    try discriminate; try lia; subst; eauto.
Qed.

Lemma key_lt_trans (a b c : jsstring) : key_lt a b -> key_lt b c -> key_lt a c.
Proof. apply key_compare_lt_trans. Qed.

Lemma key_le_refl (a : jsstring) : key_le a a.
Proof. unfold key_le; now rewrite key_compare_refl. Qed.

Lemma key_le_cases (a b : jsstring) : key_le a b <-> key_lt a b \/ a = b.
Proof.
  unfold key_le, key_lt; split.
  - destruct (key_compare a b) eqn:E; intros Hn.
    + right; now apply key_compare_eq.
    + now left.
    + now elim Hn.
  - intros [E| ->]; [now rewrite E | now rewrite key_compare_refl].
Qed.

Lemma key_le_trans (a b c : jsstring) : key_le a b -> key_le b c -> key_le a c.
Proof.
  rewrite !key_le_cases.
  intros [Hab| ->] [Hbc| ->]; auto.
  left; eapply key_lt_trans; eauto.
Qed.

Lemma key_lt_le_trans (a b c : jsstring) : key_lt a b -> key_le b c -> key_lt a c.
Proof.
  rewrite key_le_cases; intros Hab [Hbc| ->]; auto.
  eapply key_lt_trans; eauto.
Qed.

Lemma key_lt_irrefl (a : jsstring) : ~ key_lt a a.
Proof. unfold key_lt; now rewrite key_compare_refl. Qed.

Lemma key_leb_le (a b : jsstring) : key_leb a b = true <-> key_le a b.
Proof.
  unfold key_leb, key_le; destruct (key_compare a b); split; congruence.
Qed.

Lemma key_not_le_lt (a b : jsstring) : ~ key_le a b <-> key_lt b a.
Proof.
  unfold key_le, key_lt; rewrite (key_compare_antisym a b).
  destruct (key_compare a b); simpl; split; try congruence; intros Hn.
  - elim Hn; discriminate.
  - elim Hn; discriminate.
Qed.

(* ================================================================== *)
(** * Properties of the index and of the cursors *)
(* ================================================================== *)

Section IndexFacts.
Context {A : Type} `{Indexed A}.
Implicit Types (x y z : Stored A) (l : list (Stored A)).

Lemma index_le_iff x y :
  index_le x y <->
  key_lt (keyOf x) (keyOf y) \/ (keyOf x = keyOf y /\ id x <= id y).
Proof.
  unfold index_le, index_leb, key_lt.
  destruct (key_compare (keyOf x) (keyOf y)) eqn:E.
  - apply key_compare_eq in E. rewrite Z.leb_le. intuition congruence.
  - intuition.
  - split; [discriminate|]. intros [?|[E' _]]; [discriminate|].
    rewrite E', key_compare_refl in E; discriminate.
Qed.

Lemma index_le_recent_first x y : index_le y x <-> recent_first x y.
Proof. rewrite index_le_iff. unfold recent_first. intuition congruence. Qed.

Lemma index_le_total x y : index_le x y \/ index_le y x.
Proof.
  unfold index_le, index_leb.
  rewrite (key_compare_antisym (keyOf x) (keyOf y)).
  destruct (key_compare (keyOf x) (keyOf y)); simpl; auto.
  rewrite !Z.leb_le; lia.
Qed.

Lemma index_le_trans x y z : index_le x y -> index_le y z -> index_le x z.
Proof.
  rewrite !index_le_iff.
  intros [Hxy|[Exy Ixy]] [Hyz|[Eyz Iyz]].
  - left; eapply key_lt_trans; eauto.
  - left; now rewrite <- Eyz.
  - left; now rewrite Exy.
  - right; split; [congruence | lia].
Qed.

Lemma index_leb_false x y : index_leb x y = false -> index_le y x.
Proof.
  intros E; destruct (index_le_total x y) as [Hxy|]; auto.
  unfold index_le in Hxy; congruence.
Qed.

Lemma index_insert_perm x l : Permutation (x :: l) (index_insert x l).
Proof.
  induction l as [|y l IH]; simpl; auto.
  destruct (index_leb x y); auto.
  rewrite perm_swap. now constructor.
Qed.

Lemma index_insert_sorted x l :
  StronglySorted index_le l -> StronglySorted index_le (index_insert x l).
Proof.
  induction 1 as [|y l Hs IH Hy]; simpl.
  - repeat constructor.
  - destruct (index_leb x y) eqn:E.
    + constructor; [now constructor|].
      constructor; [exact E|].
      eapply Forall_impl; [|exact Hy].
      intros z Hz; eapply index_le_trans; eauto.
    + constructor; auto.
      apply (Permutation_Forall (index_insert_perm x l)).
      constructor; auto. now apply index_leb_false.
Qed.

Lemma index_perm (st : ObjectStore A) : Permutation (index st) (entries st).
Proof.
  unfold index; induction (entries st) as [|x l IH]; simpl; auto.
  rewrite <- index_insert_perm. now constructor.
Qed.

Lemma index_sorted (st : ObjectStore A) : StronglySorted index_le (index st).
Proof.
  unfold index; induction (entries st) as [|x l IH]; simpl.
  - constructor.
  - now apply index_insert_sorted.
Qed.

Lemma filter_all_true l : filter (includes None) l = l.
Proof.
  induction l as [|x l IH]; simpl; [reflexivity | now rewrite IH].
Qed.

End IndexFacts.

Lemma StronglySorted_app_inv_both {T : Type} (R : T -> T -> Prop)
      (l1 l2 : list T) :
  StronglySorted R (l1 ++ l2) <->
  StronglySorted R l1 /\ StronglySorted R l2
  /\ Forall (fun a => Forall (R a) l2) l1.
Proof.
  induction l1 as [|a l1 IH]; simpl.
  - split; [intros Hs; repeat split; auto; constructor | tauto].
  - split.
    + intros Hs; inversion Hs as [|? ? Hs' Hf]; subst.
      apply IH in Hs' as (H1 & H2 & H3).
      apply Forall_app in Hf as [Hf1 Hf2].
      repeat split; auto; now constructor.
    + intros (H1 & H2 & H3).
      inversion H1; subst. inversion H3; subst.
      constructor.
      * apply IH; auto.
      * apply Forall_app; auto.
Qed.

Section SortedLists.
Context {T : Type} (R : T -> T -> Prop).

Lemma StronglySorted_rev (l : list T) :
  StronglySorted R l -> StronglySorted (fun a b => R b a) (rev l).
Proof.
  induction 1 as [|a l Hs IH Ha]; simpl; [constructor|].
  apply StronglySorted_app_inv_both; repeat split; auto.
  - repeat constructor.
  - apply Forall_forall; intros b Hb.
    constructor; [|constructor].
    apply in_rev in Hb. rewrite Forall_forall in Ha; auto.
Qed.

Lemma StronglySorted_firstn (n : nat) (l : list T) :
  StronglySorted R l -> StronglySorted R (firstn n l).
Proof.
  intros Hs. rewrite <- (firstn_skipn n l) in Hs.
  now apply StronglySorted_app_inv_both in Hs.
Qed.

Lemma StronglySorted_filter (f : T -> bool) (l : list T) :
  StronglySorted R l -> StronglySorted R (filter f l).
Proof.
  induction 1 as [|a l Hs IH Ha]; simpl; [constructor|].
  destruct (f a); auto.
  constructor; auto.
  rewrite Forall_forall in *; intros b Hb.
  apply filter_In in Hb as [Hb _]; auto.
Qed.

Lemma StronglySorted_impl (R' : T -> T -> Prop) (l : list T) :
  (forall a b, In a l -> In b l -> R a b -> R' a b) ->
  StronglySorted R l -> StronglySorted R' l.
Proof.
  intros Himp Hs; induction Hs as [|a l Hs IH Ha]; constructor.
  - apply IH; intros; apply Himp; simpl; auto.
  - rewrite Forall_forall in *; intros b Hb.
    apply Himp; simpl; auto.
Qed.

Lemma StronglySorted_split (l l1 l2 l3 : list T) (a b : T) :
  StronglySorted R l -> l = l1 ++ a :: l2 ++ b :: l3 -> R a b.
Proof.
  intros Hs ->.
  apply StronglySorted_app_inv_both in Hs as (_ & Hs & _).
  inversion Hs as [|? ? _ Hf]; subst.
  apply Forall_app in Hf as [_ Hf]. now inversion Hf.
Qed.

End SortedLists.

Lemma filter_Permutation {T : Type} (f : T -> bool) (l l' : list T) :
  Permutation l l' -> Permutation (filter f l) (filter f l').
Proof.
  induction 1 as [|a l l' Hp IH|a b l|l l' l'' _ IH1 _ IH2]; simpl.
  - constructor.
  - destruct (f a); auto.
  - destruct (f a), (f b); auto using perm_swap.
  - etransitivity; eauto.
Qed.

Section CursorFacts.
Context {A : Type} `{Indexed A}.
Implicit Types (x y z : Stored A) (l : list (Stored A)).

Lemma getRecent_onsuccess_firstn (cursor : list (Stored A)) (limit : Z)
      (results : list (Stored A)) :
  getRecent_onsuccess cursor limit results
  = results ++ firstn (Z.to_nat limit - length results) cursor.
Proof.
  revert results; induction cursor as [|r rest IH]; intros results; simpl.
  - now rewrite firstn_nil, app_nil_r.
  - destruct (Z.ltb_spec (Z.of_nat (length results)) limit) as [Hlt|Hge].
    + rewrite IH, length_app, <- app_assoc; simpl.
      replace (Z.to_nat limit - length results)%nat
        with (S (Z.to_nat limit - (length results + 1)))%nat by lia.
      reflexivity.
    + replace (Z.to_nat limit - length results)%nat with 0%nat by lia.
      now rewrite app_nil_r.
Qed.

Lemma getFilteredRecords_onsuccess_app (cursor results : list (Stored A)) :
  getFilteredRecords_onsuccess cursor results = results ++ cursor.
Proof.
  revert results; induction cursor as [|r rest IH]; intros results; simpl.
  - now rewrite app_nil_r.
  - now rewrite IH, <- app_assoc.
Qed.

Lemma index_rev_sorted (st : ObjectStore A) :
  StronglySorted recent_first (rev (index st)).
Proof.
  eapply StronglySorted_impl;
    [|apply StronglySorted_rev, index_sorted].
  intros a b _ _ Hab; now apply index_le_recent_first.
Qed.

Lemma store_ok_id_inj (st : ObjectStore A) x y :
  store_ok st -> In x (entries st) -> In y (entries st) -> id x = id y -> x = y.
Proof.
  intros [Hs _]; induction Hs as [|a l Hs IH Ha]; simpl; [tauto|].
  rewrite Forall_forall in Ha.
  intros [->|Hx] [->|Hy] E; auto.
  - apply Ha in Hy; lia.
  - apply Ha in Hx; lia.
Qed.

Lemma store_ok_NoDup (st : ObjectStore A) : store_ok st -> NoDup (entries st).
Proof.
  intros [Hs _]; induction Hs as [|a l Hs IH Ha]; constructor; auto.
  intros Hin; rewrite Forall_forall in Ha; apply Ha in Hin; lia.
Qed.

Lemma recent_first_strict l :
  NoDup l ->
  (forall x y, In x l -> In y l -> id x = id y -> x = y) ->
  StronglySorted recent_first l -> StronglySorted newer l.
Proof.
  intros Hnd Hinj Hs; induction Hs as [|a l Hs IH Ha].
  - constructor.
  - inversion Hnd as [|? ? Hnotin Hnd']; subst.
    constructor.
    + apply IH; auto. intros; apply Hinj; simpl; auto.
    + rewrite Forall_forall in *; intros b Hb.
      destruct (Ha b Hb) as [Hlt|[Ek Hid]]; [now left|right; split; auto].
      assert (id a <> id b).
      { intros E; apply Hnotin.
        rewrite (Hinj a b); simpl; auto. }
      lia.
Qed.

Lemma newer_total (st : ObjectStore A) x y :
  store_ok st -> In x (entries st) -> In y (entries st) ->
  x = y \/ newer x y \/ newer y x.
Proof.
  intros Hok Hx Hy. unfold newer, key_lt.
  pose proof (key_compare_antisym (keyOf x) (keyOf y)) as Hanti.
  destruct (key_compare (keyOf x) (keyOf y)) eqn:E; simpl in Hanti.
  - apply key_compare_eq in E.
    destruct (Z.lt_trichotomy (id x) (id y)) as [Hlt|[Heq|Hgt]].
    + right; right; right; split; auto.
    + left; eapply store_ok_id_inj; eauto.
    + right; left; right; split; auto.
  - right; right; now left.
  - right; left; now left.
Qed.

(** An insertion that is last in the order of the index lands at its end. *)
Lemma index_insert_last x y l :
  index_le x y -> index_insert x (l ++ [y]) = index_insert x l ++ [y].
Proof.
  intros Hxy; induction l as [|z l IH]; simpl.
  - unfold index_le in Hxy; now rewrite Hxy.
  - destruct (index_leb x z); [reflexivity|]. now rewrite IH.
Qed.

Lemma index_add_last (st : ObjectStore A) (record : A) :
  Forall (fun x => index_le x (mkStored (keyGen st) record)) (entries st) ->
  index (snd (add st record)) = index st ++ [mkStored (keyGen st) record].
Proof.
  unfold index, add; simpl. rewrite fold_right_app; simpl.
  induction (entries st) as [|x l IH]; simpl; intros Hall; [reflexivity|].
  inversion Hall; subst.
  rewrite IH by assumption. now apply index_insert_last.
Qed.

Lemma add_store_ok (st : ObjectStore A) (record : A) :
  store_ok st -> store_ok (snd (add st record)).
Proof.
  intros [Hs Hf]; split; simpl.
  - apply StronglySorted_app_inv_both; repeat split; auto.
    + repeat constructor.
    + eapply Forall_impl; [|exact Hf].
      intros x Hx; repeat constructor; exact Hx.
  - apply Forall_app; split.
    + eapply Forall_impl; [|exact Hf]. simpl; intros; lia.
    + repeat constructor; simpl; lia.
Qed.

Lemma createObjectStore_ok : store_ok (createObjectStore A).
Proof. split; constructor. Qed.

End CursorFacts.

Lemma getRecent_eq (d : Database) (storeName : StoreName) (limit : Z) :
  getRecent (Some d) storeName limit
  = Fulfilled (firstn (Z.to_nat limit) (rev (index (objectStore d storeName)))).
Proof.
  unfold getRecent, openCursor.
  rewrite getRecent_onsuccess_firstn, filter_all_true; simpl.
  now rewrite Nat.sub_0_r.
Qed.

Lemma getFilteredRecords_eq (d : Database) (storeName : StoreName)
      (cutoffISO : jsstring) :
  getFilteredRecords (Some d) storeName cutoffISO
  = Fulfilled (filter (fun r => key_leb cutoffISO (keyOf r))
                      (index (objectStore d storeName))).
Proof.
  unfold getFilteredRecords, openCursor.
  now rewrite getFilteredRecords_onsuccess_app.
Qed.

(* ================================================================== *)
(** * Query engine *)
(* ================================================================== *)

(** C1. For either collection and every positive [limit], [getRecent]
    fulfils with at most [limit] records, the most recent ones of the
    collection, ordered by [recordedAt] descending and, for equal
    [recordedAt], by [id] descending; on a collection without records it
    fulfils with the empty sequence. *)
Theorem getRecent_most_recent_first
        (d : Database) (storeName : StoreName) (limit : Z) :
  0 < limit ->
  exists results,
    getRecent (Some d) storeName limit = Fulfilled results
    /\ Z.of_nat (length results) <= limit
    /\ length results
       = Nat.min (Z.to_nat limit) (length (entries (objectStore d storeName)))
    /\ StronglySorted recent_first results
    /\ (exists older,
           Permutation (results ++ older) (entries (objectStore d storeName))
           /\ Forall (fun r => Forall (recent_first r) older) results)
    /\ (entries (objectStore d storeName) = [] -> results = []).
Proof.
  intros Hlimit.
  set (st := objectStore d storeName).
  exists (firstn (Z.to_nat limit) (rev (index st))).
  pose proof (index_rev_sorted st) as Hs.
  pose proof (index_perm st) as Hp.
  assert (Hlen : length (rev (index st)) = length (entries st)).
  { rewrite length_rev. now apply Permutation_length. }
  split; [apply getRecent_eq|].
  split; [rewrite length_firstn; lia|].
  split; [rewrite length_firstn; congruence|].
  split; [now apply StronglySorted_firstn|].
  split.
  - exists (skipn (Z.to_nat limit) (rev (index st))).
    rewrite firstn_skipn. split.
    + rewrite <- Hp. symmetry. apply Permutation_rev.
    + rewrite <- (firstn_skipn (Z.to_nat limit) (rev (index st))) in Hs.
      now apply StronglySorted_app_inv_both in Hs.
  - intros Hempty. unfold index. fold st. now rewrite Hempty, firstn_nil.
Qed.

Lemma getRecent_most_recent_first_witness :
  0 < 2 /\
  exists results,
    getRecent (Some three_readings) glucose 2 = Fulfilled results
    /\ Z.of_nat (length results) <= 2
    /\ length results
       = Nat.min (Z.to_nat 2) (length (entries (objectStore three_readings glucose)))
    /\ StronglySorted recent_first results
    /\ (exists older,
           Permutation (results ++ older) (entries (objectStore three_readings glucose))
           /\ Forall (fun r => Forall (recent_first r) older) results)
    /\ (entries (objectStore three_readings glucose) = [] -> results = []).
Proof.
  split; [lia|].
  apply (@getRecent_most_recent_first three_readings glucose 2); lia.
Defined.

(** Readings saved at [t1 < t2 < t3]: the two most recent are the ones of
    [t3] and [t2], in this order. *)
Example getRecent_three_readings :
  option_map (map (fun r => (id r, keyOf r)))
             (match getRecent (Some three_readings) glucose 2 with
              | Fulfilled results => Some results
              | Rejected _ => None
              end)
  = Some [(3, t3); (2, t2)].
Proof. vm_compute. reflexivity. Qed.

(** C4. [getFilteredRecords] fulfils with exactly the records of the
    collection whose [recordedAt] is at or after the cutoff (a record at the
    cutoff is in, an older one is out), ordered by [recordedAt] ascending;
    when no record qualifies it fulfils with the empty sequence. *)
Theorem getFilteredRecords_exactly_since_cutoff
        (d : Database) (storeName : StoreName) (cutoffISO : jsstring) :
  exists results,
    getFilteredRecords (Some d) storeName cutoffISO = Fulfilled results
    /\ Permutation results
         (filter (fun r => key_leb cutoffISO (keyOf r))
                 (entries (objectStore d storeName)))
    /\ (forall r, In r results <->
                  In r (entries (objectStore d storeName))
                  /\ key_le cutoffISO (keyOf r))
    /\ (forall r, In r (entries (objectStore d storeName)) ->
                  keyOf r = cutoffISO -> In r results)
    /\ (forall r, key_lt (keyOf r) cutoffISO -> ~ In r results)
    /\ StronglySorted oldest_first results
    /\ ((forall r, In r (entries (objectStore d storeName)) ->
                   key_lt (keyOf r) cutoffISO) -> results = []).
Proof.
  set (st := objectStore d storeName).
  set (keep := fun r : Stored (fieldsOf storeName) => key_leb cutoffISO (keyOf r)).
  exists (filter keep (index st)).
  assert (Hin : forall r, In r (filter keep (index st)) <->
                          In r (entries st) /\ key_le cutoffISO (keyOf r)).
  { intros r. rewrite filter_In. unfold keep. rewrite key_leb_le.
    split; intros [Hr Hk]; split; auto.
    - eapply Permutation_in; [apply index_perm|exact Hr].
    - eapply Permutation_in; [symmetry; apply index_perm|exact Hr]. }
  split; [apply getFilteredRecords_eq|].
  split; [apply filter_Permutation, index_perm|].
  split; [exact Hin|].
  split; [intros r Hr <-; apply Hin; split; auto using key_le_refl|].
  split; [intros r Hlt Hr; apply Hin in Hr as [_ Hle];
          now apply key_not_le_lt in Hlt|].
  split.
  - apply StronglySorted_filter.
    eapply StronglySorted_impl; [|apply index_sorted].
    intros a b _ _ Hab. apply index_le_iff in Hab. unfold oldest_first.
    apply key_le_cases. destruct Hab as [?|[? _]]; auto.
  - intros Hold.
    destruct (filter keep (index st)) as [|r l] eqn:E; [reflexivity|].
    assert (Hr : In r (r :: l)) by now left.
    apply Hin in Hr as [Hr Hle].
    apply Hold in Hr. now apply key_not_le_lt in Hr.
Qed.

(** C6, as the specification states it, fails: of two readings saved within
    one millisecond, [getRecent] yields the later insertion (id 2) before
    the earlier one (id 1). *)
Lemma getRecent_ties_not_in_insertion_order :
  exists results,
    getRecent (Some same_instant) glucose 2 = Fulfilled results
    /\ ~ ties_in_insertion_order results.
Proof.
  eexists; split; [apply getRecent_eq|].
  intros Hties.
  assert (E : 2 < 1); [|lia].
  apply (Hties []
               (mkStored 2 (Glucose.mk 6.4%float (js "mmol/L"%string) t1 []))
               []
               (mkStored 1 (Glucose.mk 5.5%float (js "mmol/L"%string) t1 []))
               []); vm_compute; reflexivity.
Qed.

(** C6, amended. In a store built by the save operations, [getRecent] yields
    the records in a strict total order: [recordedAt] descending, and records
    of one [recordedAt] in reverse insertion order ([id] descending). *)
Theorem getRecent_ties_in_reverse_insertion_order
        (d : Database) (storeName : StoreName) (limit : Z) :
  store_ok (objectStore d storeName) ->
  exists results,
    getRecent (Some d) storeName limit = Fulfilled results
    /\ StronglySorted newer results
    /\ ties_in_reverse_insertion_order results
    /\ (forall x y,
           In x (entries (objectStore d storeName)) ->
           In y (entries (objectStore d storeName)) ->
           x = y \/ newer x y \/ newer y x).
Proof.
  intros Hok.
  set (st := objectStore d storeName) in *.
  exists (firstn (Z.to_nat limit) (rev (index st))).
  assert (Hs : StronglySorted newer (firstn (Z.to_nat limit) (rev (index st)))).
  { apply StronglySorted_firstn, recent_first_strict.
    - apply NoDup_rev.
      eapply Permutation_NoDup; [symmetry; apply index_perm|].
      now apply store_ok_NoDup.
    - intros x y Hx Hy. eapply store_ok_id_inj; [exact Hok| |].
      + eapply Permutation_in; [apply index_perm|now apply in_rev].
      + eapply Permutation_in; [apply index_perm|now apply in_rev].
    - apply index_rev_sorted. }
  split; [apply getRecent_eq|].
  split; [exact Hs|].
  split.
  - intros l1 x l2 y l3 E Ek.
    destruct (@StronglySorted_split _ _ _ l1 l2 l3 x y Hs E) as [Hlt|[_ Hid]];
      [|exact Hid].
    rewrite Ek in Hlt. now apply key_lt_irrefl in Hlt.
  - intros x y. now apply newer_total.
Qed.

Lemma same_instant_ok : store_ok (objectStore same_instant glucose).
Proof.
  split; simpl; repeat constructor; simpl; lia.
Defined.

Lemma getRecent_ties_in_reverse_insertion_order_witness :
  store_ok (objectStore same_instant glucose) /\
  exists results,
    getRecent (Some same_instant) glucose 2 = Fulfilled results
    /\ StronglySorted newer results
    /\ ties_in_reverse_insertion_order results
    /\ (forall x y,
           In x (entries (objectStore same_instant glucose)) ->
           In y (entries (objectStore same_instant glucose)) ->
           x = y \/ newer x y \/ newer y x).
Proof.
  split; [exact same_instant_ok|].
  apply (@getRecent_ties_in_reverse_insertion_order same_instant glucose 2).
  exact same_instant_ok.
Defined.

(* ================================================================== *)
(** * Record store *)
(* ================================================================== *)

Lemma initDB_ok : db_ok (initDB None).
Proof. split; apply createObjectStore_ok. Qed.

(** A save succeeds on an open database, returns the key generator's
    number, advances it, and keeps the database well formed. *)
Lemma saveGlucose_ok (d : Database) (now : jsstring) (value : float)
      (notes : jsstring) :
  db_ok d ->
  exists d',
    saveGlucose (Some d) now value notes
    = (Fulfilled (keyGen (glucoseStore d)), Some d')
    /\ db_ok d'
    /\ keyGen (glucoseStore d') = keyGen (glucoseStore d) + 1
    /\ pressureStore d' = pressureStore d.
Proof.
  intros [Hg Hp]. eexists. split; [reflexivity|].
  split; [|split; reflexivity].
  split; [|exact Hp]. now apply add_store_ok.
Qed.

Lemma savePressure_ok (d : Database) (now : jsstring) (sys dia : float)
      (notes : jsstring) :
  db_ok d ->
  exists d',
    savePressure (Some d) now sys dia notes
    = (Fulfilled (keyGen (pressureStore d)), Some d')
    /\ db_ok d'
    /\ keyGen (pressureStore d') = keyGen (pressureStore d) + 1
    /\ glucoseStore d' = glucoseStore d.
Proof.
  intros [Hg Hp]. eexists. split; [reflexivity|].
  split; [|split; reflexivity].
  split; [exact Hg|]. now apply add_store_ok.
Qed.

(** C8. After [saveGlucose(value, notes)] on a store built by the save
    operations, whose records are not from after [now], [getRecent('glucose',
    1)] yields one record: the one just saved, with the [id] the save
    returned, [value] as given, whatever it is, and [unit] "mmol/L". *)
Theorem saveGlucose_then_getRecent
        (d : Database) (now : jsstring) (value : float) (notes : jsstring) :
  store_ok (glucoseStore d) ->
  Forall (fun r => key_le (keyOf r) now) (entries (glucoseStore d)) ->
  exists key db' r,
    saveGlucose (Some d) now value notes = (Fulfilled key, db')
    /\ getRecent db' glucose 1 = Fulfilled [r]
    /\ id r = key
    /\ Glucose.value (fields r) = value
    /\ Glucose.unit (fields r) = js "mmol/L"%string
    /\ Glucose.recordedAt (fields r) = now
    /\ Glucose.notes (fields r) = notes.
Proof.
  intros [_ Hids] Hnow.
  set (record := Glucose.mk value (js "mmol/L"%string) now notes).
  exists (keyGen (glucoseStore d)).
  exists (Some {| glucoseStore := snd (add (glucoseStore d) record);
                  pressureStore := pressureStore d |}).
  exists (mkStored (keyGen (glucoseStore d)) record).
  split; [reflexivity|].
  split; [|repeat split].
  rewrite getRecent_eq. cbn [objectStore glucoseStore].
  rewrite index_add_last.
  - rewrite rev_app_distr. reflexivity.
  - rewrite Forall_forall in *. intros x Hx.
    apply index_le_iff.
    specialize (Hids x Hx). specialize (Hnow x Hx).
    apply key_le_cases in Hnow as [Hlt|Heq].
    + left. exact Hlt.
    + right. split; [exact Heq|simpl; lia].
Qed.

Lemma saveGlucose_then_getRecent_witness :
  store_ok (glucoseStore three_readings) /\
  Forall (fun r => key_le (keyOf r) t3) (entries (glucoseStore three_readings)) /\
  exists key db' r,
    saveGlucose (Some three_readings) t3 6.4%float [] = (Fulfilled key, db')
    /\ getRecent db' glucose 1 = Fulfilled [r]
    /\ id r = key
    /\ Glucose.value (fields r) = 6.4%float
    /\ Glucose.unit (fields r) = js "mmol/L"%string
    /\ Glucose.recordedAt (fields r) = t3
    /\ Glucose.notes (fields r) = [].
Proof.
  assert (Hok : store_ok (glucoseStore three_readings))
    by (split; vm_compute; repeat constructor).
  assert (Hnow : Forall (fun r => key_le (keyOf r) t3)
                        (entries (glucoseStore three_readings)))
    by (repeat constructor; vm_compute; discriminate).
  split; [exact Hok|]. split; [exact Hnow|].
  exact (@saveGlucose_then_getRecent three_readings t3 6.4%float [] Hok Hnow).
Defined.

(** The round trip needs a clock that has not gone back. After a reading
    of 7.25 at [t3], a reading of 6.4 saved with the clock at [t1] gets the
    id 2, and the most recent record is still the one of 7.25, with the
    id 1. *)
Lemma saveGlucose_then_getRecent_clock_set_back :
  store_ok (glucoseStore one_reading_at_t3)
  /\ exists db',
    saveGlucose (Some one_reading_at_t3) t1 6.4 [] = (Fulfilled 2, db')
    /\ getRecent db' glucose 1
       = Fulfilled [mkStored 1 (Glucose.mk 7.25 (js "mmol/L"%string) t3 [])].
Proof.
  split; [split; vm_compute; repeat constructor|].
  eexists. split; vm_compute; reflexivity.
Qed.

(** The same on a fresh database, with a value no reading can have. *)
Example saveGlucose_no_validation :
  let (key, db') := saveGlucose (Some (initDB None)) t1 (-1)%float [] in
  key = Fulfilled 1
  /\ getRecent db' glucose 1
     = Fulfilled [mkStored 1 (Glucose.mk (-1)%float (js "mmol/L"%string) t1 [])].
Proof. vm_compute. split; reflexivity. Qed.

(* ================================================================== *)
(** * What the matcher finds *)
(* ================================================================== *)

Lemma consumed_app (w s : jsstring) : consumed (w ++ s) s = w.
Proof.
  unfold consumed. rewrite length_app.
  replace (length w + length s - length s)%nat with (length w) by lia.
  now rewrite firstn_app, Nat.sub_diag, firstn_all, app_nil_r.
Qed.

(** The matcher depends on what its continuation returns, not on how, and
    the iterations of a quantifier never run out of fuel: any amount above
    the length of the input gives the same outcome. *)
Section Fuel.
Variable body : jsstring -> captures -> (jsstring -> captures -> outcome) -> outcome.
Hypothesis body_ext :
  forall s caps k k',
    (forall s' c', k s' c' = k' s' c') -> body s caps k = body s caps k'.

Lemma iterate_ext (lo : nat) (hi : option nat)
      (k k' : jsstring -> captures -> outcome) :
  (forall s' c', k s' c' = k' s' c') ->
  forall fuel n s caps,
    iterate body lo hi k fuel n s caps = iterate body lo hi k' fuel n s caps.
Proof.
  intros Hk. induction fuel as [|fuel IH]; intros n s caps; cbn [iterate];
    [reflexivity|].
  rewrite Hk.
  destruct (below hi n); [|reflexivity].
  erewrite body_ext; [reflexivity|].
  intros s1 c1. cbv beta. destruct (length s1 <? length s)%nat; auto.
Qed.

Lemma iterate_fuel (lo : nat) (hi : option nat)
      (k : jsstring -> captures -> outcome) :
  forall fuel fuel' n s caps,
    (length s < fuel)%nat -> (length s < fuel')%nat ->
    iterate body lo hi k fuel n s caps = iterate body lo hi k fuel' n s caps.
Proof.
  induction fuel as [|fuel IH]; intros [|fuel'] n s caps Hf Hf'; try lia.
  cbn [iterate].
  destruct (below hi n); [|reflexivity].
  erewrite body_ext; [reflexivity|].
  intros s1 c1. cbv beta.
  destruct (Nat.ltb_spec (length s1) (length s)); [|reflexivity].
  apply IH; lia.
Qed.

End Fuel.

Lemma run_ext (r : regex) :
  forall s caps k k',
    (forall s' c', k s' c' = k' s' c') -> run r s caps k = run r s caps k'.
Proof.
  induction r as [c|p|r1 IH1 r2 IH2|r1 IH1 lo hi|i r1 IH1];
    intros s caps k k' Hk; cbn [run].
  - destruct s as [|x s]; [reflexivity|]. now rewrite Hk.
  - destruct s as [|x s]; [reflexivity|]. now rewrite Hk.
  - apply IH1. intros s1 c1. now apply IH2.
  - now apply iterate_ext.
  - apply IH1. intros s1 c1. apply Hk.
Qed.

Lemma run_Repeat_fuel (r : regex) (lo : nat) (hi : option nat) (fuel : nat)
      (s : jsstring) (caps : captures) (k : jsstring -> captures -> outcome) :
  (length s < fuel)%nat ->
  run (Repeat r lo hi) s caps k = iterate (run r) lo hi k fuel 0 s caps.
Proof.
  intros Hf. cbn [run]. apply iterate_fuel; [apply run_ext|lia|exact Hf].
Qed.

Section Soundness.
Variable body : jsstring -> captures -> (jsstring -> captures -> outcome) -> outcome.
Variable M : jsstring -> captures -> captures -> Prop.
Hypothesis body_sound :
  forall s caps k res,
    body s caps k = Some res ->
    exists w s' c', s = w ++ s' /\ M w caps c' /\ k s' c' = Some res.

Lemma iterate_sound (lo : nat) (hi : option nat)
      (k : jsstring -> captures -> outcome) (fuel : nat) :
  forall n s caps res,
    iterate body lo hi k fuel n s caps = Some res ->
    exists m w s' c',
      s = w ++ s' /\ Iterate M m w caps c'
      /\ (lo <= n + m)%nat
      /\ (forall h, hi = Some h -> (n + m <= h)%nat \/ m = 0%nat)
      /\ k s' c' = Some res.
Proof.
  induction fuel as [|fuel IH]; intros n s caps res; simpl; [discriminate|].
  destruct (if below hi n
            then body s caps
                      (fun s1 c1 =>
                         if (length s1 <? length s)%nat
                         then iterate body lo hi k fuel (S n) s1 c1
                         else None)
            else None) as [res'|] eqn:Emore.
  - intros [= ->].
    destruct (below hi n) eqn:Ehi; [|discriminate].
    apply body_sound in Emore as (w1 & s1 & c1 & -> & Hm & Hk).
    destruct (Nat.ltb_spec (length s1) (length (w1 ++ s1))) as [Hlen|];
      [|discriminate].
    apply IH in Hk as (m & w2 & s2 & c2 & -> & Hit & Hlo & Hhi & Hk).
    exists (S m), (w1 ++ w2), s2, c2.
    split; [now rewrite app_assoc|].
    split.
    { econstructor; eauto. intros ->. simpl in Hlen. lia. }
    split; [lia|]. split; [|exact Hk].
    intros h ->. simpl in Ehi. apply Nat.ltb_lt in Ehi.
    destruct (Hhi h eq_refl) as [?| ->]; left; lia.
  - destruct (Nat.leb_spec lo n) as [Hlo|]; [|discriminate].
    intros Hk. exists 0%nat, [], s, caps.
    repeat split; auto; [constructor|lia].
Qed.

End Soundness.

Lemma run_sound (r : regex) :
  forall s caps k res,
    run r s caps k = Some res ->
    exists w s' c', s = w ++ s' /\ Match r w caps c' /\ k s' c' = Some res.
Proof.
  induction r as [c|p|r1 IH1 r2 IH2|r1 IH1 lo hi|i r1 IH1];
    intros s caps k res; cbn [run].
  - destruct s as [|x s]; [discriminate|].
    destruct (N.eqb_spec x c) as [->|]; [|discriminate].
    intros Hk. exists [c], s, caps. repeat split; auto. constructor.
  - destruct s as [|x s]; [discriminate|].
    destruct (p x) eqn:Ep; [|discriminate].
    intros Hk. exists [x], s, caps. repeat split; auto. now constructor.
  - intros Hrun.
    apply IH1 in Hrun as (w1 & s1 & c1 & -> & Hm1 & Hrun).
    apply IH2 in Hrun as (w2 & s2 & c2 & -> & Hm2 & Hk).
    exists (w1 ++ w2), s2, c2.
    split; [now rewrite app_assoc|]. split; [|exact Hk].
    econstructor; eauto.
  - intros Hrun.
    apply (iterate_sound (run r1) (Match r1) IH1) in Hrun
      as (m & w & s' & c' & -> & Hit & Hlo & Hhi & Hk).
    exists w, s', c'. repeat split; auto.
    apply Match_Repeat with (n := m); auto.
    intros h Eh. destruct (Hhi h Eh) as [?| ->]; lia.
  - intros Hrun.
    apply IH1 in Hrun as (w & s1 & c1 & -> & Hm & Hk).
    rewrite consumed_app in Hk.
    exists w, s1, ((i, w) :: c1). repeat split; auto. now constructor.
Qed.

Lemma run_accept (r : regex) (s s1 : jsstring) (c1 : captures) :
  run r s [] accept = Some (s1, c1) ->
  exists w, s = w ++ s1 /\ Match r w [] c1 /\ consumed s s1 = w.
Proof.
  intros Hrun.
  apply run_sound in Hrun as (w & s' & c' & -> & Hm & [= <- <-]).
  exists w. repeat split; auto. apply consumed_app.
Qed.

(** [exec] reports the first position at which the pattern matches, and what
    it matched there. *)
Lemma exec_from_first (r : regex) (s : jsstring) :
  forall i m,
    exec_from r s i = Some m ->
    exists pre w rest,
      s = pre ++ w ++ rest
      /\ matchIndex m = (i + length pre)%nat
      /\ matched m = w
      /\ Match r w [] (groups m)
      /\ run r (w ++ rest) [] accept = Some (rest, groups m)
      /\ (forall j, (j < length pre)%nat -> run r (skipn j s) [] accept = None).
Proof.
  assert (Hhere : forall s i m s1 c1,
             run r s [] accept = Some (s1, c1) ->
             m = {| matchIndex := i; matched := consumed s s1; groups := c1 |} ->
             exists pre w rest,
               s = pre ++ w ++ rest
               /\ matchIndex m = (i + length pre)%nat
               /\ matched m = w
               /\ Match r w [] (groups m)
               /\ run r (w ++ rest) [] accept = Some (rest, groups m)
               /\ (forall j, (j < length pre)%nat ->
                             run r (skipn j s) [] accept = None)).
  { intros s0 i m s1 c1 Erun ->.
    destruct (run_accept _ _ Erun) as (w & E & Hm & Hw).
    exists [], w, s1. simpl.
    repeat split; auto; [now rewrite <- E | intros; lia]. }
  induction s as [|x s IH]; intros i m; simpl.
  - destruct (run r [] [] accept) as [[s1 c1]|] eqn:Erun; [|discriminate].
    intros [= <-]. eapply Hhere; eauto.
  - destruct (run r (x :: s) [] accept) as [[s1 c1]|] eqn:Erun.
    + intros [= <-]. eapply Hhere; eauto.
    + intros Hex.
      apply IH in Hex as (pre & w & rest & -> & Hi & Hw & Hm & Hrun & Hfirst).
      exists (x :: pre), w, rest. simpl.
      repeat split; auto; [lia|].
      intros [|j] Hj; simpl; [exact Erun|].
      apply Hfirst; lia.
Qed.

Lemma Iterate_Class (p : N -> bool) (n : nat) :
  forall w c c',
    Iterate (Match (Class p)) n w c c' ->
    c' = c /\ length w = n /\ Forall (fun x => p x = true) w.
Proof.
  induction n as [|n IH]; intros w c c' Hit; inversion Hit; subst.
  - repeat split; auto.
  - match goal with Hm : Match (Class p) _ _ _ |- _ => inversion Hm; subst end.
    match goal with Hi : Iterate _ n _ _ _ |- _ =>
      apply IH in Hi as (-> & <- & Hall) end.
    repeat split; auto. simpl. now constructor.
Qed.

Lemma Match_Repeat_Class (p : N -> bool) (lo : nat) (hi : option nat) w c c' :
  Match (Repeat (Class p) lo hi) w c c' ->
  c' = c /\ (lo <= length w)%nat
  /\ (forall h, hi = Some h -> (length w <= h)%nat)
  /\ Forall (fun x => p x = true) w.
Proof.
  intros Hm; inversion Hm; subst.
  match goal with Hi : Iterate _ _ _ _ _ |- _ =>
    apply Iterate_Class in Hi as (-> & <- & Hall) end.
  repeat split; auto.
Qed.

Section Completeness.
Variable body : jsstring -> captures -> (jsstring -> captures -> outcome) -> outcome.
Variable M : jsstring -> captures -> captures -> Prop.
Hypothesis body_complete :
  forall w c c' rest k,
    M w c c' -> k rest c' <> None -> body (w ++ rest) c k <> None.

Lemma iterate_complete (lo : nat) (hi : option nat)
      (k : jsstring -> captures -> outcome) (rest : jsstring) :
  forall m w c c',
    Iterate M m w c c' ->
    forall fuel n,
      (lo <= n + m)%nat ->
      (forall h, hi = Some h -> (n + m <= h)%nat) ->
      k rest c' <> None ->
      (length (w ++ rest) < fuel)%nat ->
      iterate body lo hi k fuel n (w ++ rest) c <> None.
Proof.
  induction 1 as [c|m w1 w2 c0 c1 c2 Hm Hne Hit IH];
    intros fuel n Hlo Hhi Hk Hfuel;
    (destruct fuel as [|fuel]; [simpl in Hfuel; lia|]); cbn [iterate].
  - match goal with |- match ?more with _ => _ end <> _ =>
      destruct more; [discriminate|] end.
    destruct (Nat.leb_spec lo n); [exact Hk|lia].
  - assert (Ehi : below hi n = true).
    { destruct hi as [h|]; simpl; auto.
      apply Nat.ltb_lt. specialize (Hhi h eq_refl). lia. }
    rewrite Ehi, <- app_assoc.
    match goal with |- match ?more with _ => _ end <> _ =>
      assert (Hmore : more <> None); [|destruct more; [discriminate|tauto]] end.
    apply body_complete with (c' := c1); auto.
    assert (Hlen : (length (w2 ++ rest) < length (w1 ++ w2 ++ rest))%nat).
    { rewrite (length_app w1). destruct w1; [tauto|simpl; lia]. }
    apply Nat.ltb_lt in Hlen as Hlt. rewrite Hlt.
    apply IH; auto.
    + lia.
    + intros h Eh. specialize (Hhi h Eh). lia.
    + rewrite <- app_assoc in Hfuel. simpl in Hfuel. lia.
Qed.

End Completeness.

(** Whenever the pattern can match a word at the start of the input and what
    follows succeeds, the matcher succeeds. *)
Lemma run_complete (r : regex) :
  forall w c c' rest k,
    Match r w c c' -> k rest c' <> None -> run r (w ++ rest) c k <> None.
Proof.
  induction r as [x|p|r1 IH1 r2 IH2|r1 IH1 lo hi|i r1 IH1];
    intros w c c' rest k Hm Hk; inversion Hm; subst; cbn [run].
  - simpl. now rewrite N.eqb_refl.
  - simpl. match goal with Hp : p _ = true |- _ => now rewrite Hp end.
  - rewrite <- app_assoc. eapply IH1; eauto.
  - eapply iterate_complete with (M := Match r1); eauto.
  - eapply IH1; eauto. now rewrite consumed_app.
Qed.

Lemma exec_from_None (r : regex) (s : jsstring) (i : nat) :
  exec_from r s i = None ->
  forall j, (j <= length s)%nat -> run r (skipn j s) [] accept = None.
Proof.
  revert i; induction s as [|x s IH]; intros i; simpl.
  - destruct (run r [] [] accept) as [[s1 c1]|] eqn:Erun; [discriminate|].
    intros _ [|j] Hj; simpl; auto.
  - destruct (run r (x :: s) [] accept) as [[s1 c1]|] eqn:Erun; [discriminate|].
    intros Hex [|j] Hj; simpl; auto.
    eapply IH; eauto. lia.
Qed.

Lemma run_None_no_occurrence (r : regex) (text : jsstring) (j : nat) :
  run r (skipn j text) [] accept = None -> ~ occurs r text j.
Proof.
  intros Hrun (w & c & rest & E & Hm).
  rewrite E in Hrun. revert Hrun.
  eapply run_complete; eauto. discriminate.
Qed.

(** [text.match(r)] is [null] exactly when the pattern occurs nowhere. *)
Lemma exec_None_iff (r : regex) (text : jsstring) :
  exec r text = None <-> forall j, ~ occurs r text j.
Proof.
  split.
  - intros Hex j.
    destruct (Nat.le_gt_cases j (length text)) as [Hj|Hj].
    + eapply run_None_no_occurrence, exec_from_None; eauto.
    + apply run_None_no_occurrence.
      rewrite skipn_all2 by lia.
      rewrite <- (skipn_all text).
      eapply exec_from_None; eauto.
  - intros Hno. unfold exec.
    destruct (exec_from r text 0) as [m|] eqn:Hex; [|reflexivity].
    apply exec_from_first in Hex as (pre & w & rest & E & _ & _ & Hm & _).
    elim (Hno (length pre)). exists w, (groups m), rest.
    split; [|exact Hm].
    now rewrite E, skipn_app, skipn_all, Nat.sub_diag.
Qed.

(** Otherwise it reports the first occurrence. *)
Lemma exec_Some_first (r : regex) (text : jsstring) (m : MatchResult) :
  exec r text = Some m -> first_occurrence r text m.
Proof.
  intros Hex.
  apply exec_from_first in Hex as (pre & w & rest & E & Hi & Hw & Hm & _ & Hfirst).
  exists pre, rest. subst w. repeat split; auto.
  intros j Hj. now apply run_None_no_occurrence, Hfirst.
Qed.

(* ================================================================== *)
(** * The two patterns *)
(* ================================================================== *)

Ltac invert_match :=
  repeat match goal with
         | H : Match (Seq _ _) _ _ _ |- _ => inversion H; subst; clear H
         | H : Match (Char _) _ _ _ |- _ => inversion H; subst; clear H
         | H : Match (Group _ _) _ _ _ |- _ => inversion H; subst; clear H
         | H : Match (Repeat (Class _) _ _) _ _ _ |- _ =>
           apply Match_Repeat_Class in H;
           destruct H as (? & ? & ? & ?); subst
         end.

Lemma bpRegex_Match (w : jsstring) (c : captures) :
  Match bpRegex w [] c ->
  exists d1 d2, c = [(2%nat, d2); (1%nat, d1)] /\ pressure_phrase w d1 d2.
Proof.
  unfold bpRegex, star. cbn [sequence]. intros Hm. invert_match.
  match goal with
    |- exists d1 d2, [(_, ?b); (_, ?a)] = _ /\ _ => exists a, b
  end.
  split; [reflexivity|].
  match goal with
    |- pressure_phrase (_ ++ _ ++ ?s ++ _ ++ ?m ++ _) _ _ => exists s, m
  end.
  unfold digits.
  repeat match goal with
         | H : forall h, Some ?n = Some h -> _ |- _ => specialize (H n eq_refl)
         end.
  repeat split; auto.
Qed.

Lemma exec_bpRegex (text : jsstring) (m : MatchResult) :
  exec bpRegex text = Some m ->
  exists d1 d2,
    group m 1 = Some d1 /\ group m 2 = Some d2
    /\ pressure_phrase (matched m) d1 d2.
Proof.
  intros Hex. apply exec_Some_first in Hex as (pre & rest & _ & _ & Hm & _).
  apply bpRegex_Match in Hm as (d1 & d2 & Hc & Hp).
  exists d1, d2. unfold group. rewrite Hc. simpl. auto.
Qed.

Lemma take_digits_all (ds rest : jsstring) :
  Forall (fun c => is_digit c = true) ds ->
  match rest with c :: _ => is_digit c = false | [] => True end ->
  take_digits (ds ++ rest) = (ds, rest).
Proof.
  intros Hds Hrest; induction Hds as [|c ds Hc _ IH]; cbn [app take_digits].
  - destruct rest as [|c rest]; [reflexivity|].
    cbn [take_digits]. now rewrite Hrest.
  - now rewrite Hc, IH.
Qed.

Lemma parseInt_digits (lo hi : nat) (ds : jsstring) :
  digits (S lo) hi ds -> parseInt ds = float_of_Z (decimal_value ds).
Proof.
  intros [Hds Hlen]. unfold parseInt.
  rewrite <- (app_nil_r ds) at 1. rewrite take_digits_all; auto.
  destruct ds; [simpl in Hlen; lia|reflexivity].
Qed.

Lemma digit_value_range (c : N) : is_digit c = true -> 0 <= digit_value c <= 9.
Proof.
  unfold is_digit, digit_value. rewrite andb_true_iff, !N.leb_le. lia.
Qed.

Lemma decimal_value_range (lo : nat) (ds : jsstring) :
  digits lo 3 ds -> 0 <= decimal_value ds <= 999.
Proof.
  intros [Hds Hlen]. unfold decimal_value.
  destruct ds as [|a [|b [|c [|e ds]]]]; cbn [fold_left length] in *; try lia;
    repeat match goal with
           | H : Forall _ (_ :: _) |- _ => inversion H; subst; clear H
           | H : is_digit _ = true |- _ => apply digit_value_range in H
           end; lia.
Qed.

(** A property checked on every integer from 0 to [hi - 1] holds on each. *)
Lemma forall_below (P : Z -> bool) (hi : nat) :
  forallb P (map Z.of_nat (seq 0 hi)) = true ->
  forall n, 0 <= n < Z.of_nat hi -> P n = true.
Proof.
  intros Hall n Hn. rewrite forallb_forall in Hall. apply Hall.
  apply in_map_iff. exists (Z.to_nat n). split; [lia|].
  apply in_seq. lia.
Qed.

Lemma bounds_agree_upto_999 (n : Z) : 0 <= n <= 999 -> bounds_agree n = true.
Proof.
  intros Hn. apply (@forall_below bounds_agree 1000); [|lia].
  vm_compute. reflexivity.
Qed.

Lemma in_bounds_float_of_Z (s d : Z) :
  0 <= s <= 999 -> 0 <= d <= 999 ->
  in_bounds (float_of_Z s) (float_of_Z d) = true <-> in_range s d.
Proof.
  intros Hs Hd.
  apply bounds_agree_upto_999 in Hs, Hd.
  unfold bounds_agree in Hs, Hd.
  rewrite !andb_true_iff in Hs, Hd.
  destruct Hs as [[[[_ Hs1] Hs2] _] _], Hd as [[_ Hd1] Hd2].
  apply eqb_prop in Hs1, Hs2, Hd1, Hd2.
  unfold in_bounds, in_range.
  rewrite !andb_true_iff, Hs1, Hs2, Hd1, Hd2, !Z.leb_le. tauto.
Qed.

Lemma number_is_float_of_Z (n : Z) :
  0 <= n <= 999 -> number_is (float_of_Z n) n.
Proof.
  intros Hn. split; [reflexivity|].
  apply bounds_agree_upto_999 in Hn. unfold bounds_agree in Hn.
  rewrite !andb_true_iff in Hn. destruct Hn as [[[[Hq _] _] _] _].
  now apply Qeq_bool_iff.
Qed.

(** The pressure properties of the result, by cases on the match. *)
Lemma parseHealthText_pressure (text : jsstring) :
  match exec bpRegex text with
  | Some m =>
    let sys := parseInt (capture m 1) in
    let dia := parseInt (capture m 2) in
    if in_bounds sys dia
    then systolic (parseHealthText text) = Some sys
         /\ diastolic (parseHealthText text) = Some dia
    else no_pressure (parseHealthText text)
  | None => no_pressure (parseHealthText text)
  end.
Proof.
  unfold parseHealthText, no_pressure, in_bounds.
  destruct (exec bpRegex text) as [m|]; cbv zeta.
  - destruct ((60 <=? parseInt (capture m 1)) && _ && _ && _)%float;
      destruct (exec sugarRegex text); simpl; auto.
  - destruct (exec sugarRegex text); simpl; auto.
Qed.

(** The glucose property of the result. *)
Lemma parseHealthText_bloodSugar (text : jsstring) :
  bloodSugar (parseHealthText text)
  = option_map (fun m => parseFloat (capture m 1)) (exec sugarRegex text).
Proof.
  unfold parseHealthText.
  destruct (exec bpRegex text) as [m|]; cbv zeta.
  - destruct ((60 <=? parseInt (capture m 1)) && _ && _ && _)%float;
      destruct (exec sugarRegex text); reflexivity.
  - destruct (exec sugarRegex text); reflexivity.
Qed.

Lemma sugarRegex_Match (w : jsstring) (c : captures) :
  Match sugarRegex w [] c ->
  exists g, c = [(1%nat, g)] /\ glucose_phrase w g.
Proof.
  unfold sugarRegex, star, plus, opt. cbn [sequence]. intros Hm. invert_match.
  match goal with
  | H : Match (Repeat (Seq _ _) _ _) ?fp _ _ |- _ =>
    inversion H as [| | | |? ? ? n ? ? ? Hit _ Hhi]; subst; clear H;
      specialize (Hhi 1%nat eq_refl)
  end.
  destruct n as [|[|n]]; [| |lia].
  - inversion Hit; subst.
    eexists; split; [reflexivity|].
    match goal with
      |- glucose_phrase (_ ++ _ ++ ?s ++ ?i ++ []) _ => exists s, i, []
    end.
    rewrite app_nil_r. repeat split; auto.
    intros ->; simpl in *; lia.
  - inversion Hit as [|? ? ? ? ? ? Hm1 _ Hit0]; subst.
    inversion Hit0; subst. invert_match.
    eexists; split; [reflexivity|].
    match goal with
      |- glucose_phrase (_ ++ _ ++ ?s ++ ?i ++ (_ ++ ?f) ++ []) _ =>
      exists s, i, f
    end.
    rewrite app_nil_r. repeat split; auto.
    + intros ->; simpl in *; lia.
    + right. split; [intros ->; simpl in *; lia|reflexivity].
Qed.

Lemma exec_sugarRegex (text : jsstring) (m : MatchResult) :
  exec sugarRegex text = Some m ->
  exists g, group m 1 = Some g /\ glucose_phrase (matched m) g.
Proof.
  intros Hex. apply exec_Some_first in Hex as (pre & rest & _ & _ & Hm & _).
  apply sugarRegex_Match in Hm as (g & Hc & Hp).
  exists g. unfold group. rewrite Hc. simpl. auto.
Qed.

(* ================================================================== *)
(** * Text extractor *)
(* ================================================================== *)

(** The pressure reading of the result, in terms of the integers the two
    captures denote. *)
Lemma parseHealthText_pressure_range (text : jsstring) (m : MatchResult) :
  exec bpRegex text = Some m ->
  exists d1 d2,
    group m 1 = Some d1 /\ group m 2 = Some d2
    /\ pressure_phrase (matched m) d1 d2
    /\ (in_range (decimal_value d1) (decimal_value d2) ->
        pressure_is (parseHealthText text) (decimal_value d1) (decimal_value d2))
    /\ (~ in_range (decimal_value d1) (decimal_value d2) ->
        no_pressure (parseHealthText text)).
Proof.
  intros Hex.
  destruct (exec_bpRegex _ Hex) as (d1 & d2 & Hg1 & Hg2 & Hp).
  exists d1, d2. repeat (split; [assumption|]).
  pose proof (parseHealthText_pressure text) as Hparse.
  rewrite Hex in Hparse. cbv zeta in Hparse.
  unfold capture in Hparse. rewrite Hg1, Hg2 in Hparse.
  destruct Hp as (seps & mid & _ & _ & Hd1 & _ & _ & Hd2).
  rewrite (parseInt_digits Hd1), (parseInt_digits Hd2) in Hparse.
  pose proof (in_bounds_float_of_Z (decimal_value_range Hd1)
                                   (decimal_value_range Hd2)) as Hiff.
  destruct (in_bounds _ _).
  - split; [intros _|intros Hout; elim Hout; now apply Hiff].
    destruct Hparse as [Hsys Hdia].
    exists (float_of_Z (decimal_value d1)), (float_of_Z (decimal_value d2)).
    repeat split; auto;
      apply number_is_float_of_Z; eapply decimal_value_range; eauto.
  - split; [|intros _; exact Hparse].
    intros Hin. apply Hiff in Hin. discriminate.
Qed.

(** C2. The result has a pressure reading exactly when the pressure pattern
    occurs in the text and the two integers its first occurrence captures
    satisfy 60 <= systolic <= 250 and 40 <= diastolic <= 150; then the reading
    is these two integers, and otherwise the result has neither [systolic]
    nor [diastolic]. "血压300 90" gives no reading, "血压130 85" gives
    130 over 85. *)
Theorem parseHealthText_pressure_iff_in_bounds :
  (forall text,
      match exec bpRegex text with
      | Some m =>
        first_occurrence bpRegex text m
        /\ exists d1 d2,
          group m 1 = Some d1 /\ group m 2 = Some d2
          /\ pressure_phrase (matched m) d1 d2
          /\ (in_range (decimal_value d1) (decimal_value d2) ->
              pressure_is (parseHealthText text)
                          (decimal_value d1) (decimal_value d2))
          /\ (~ in_range (decimal_value d1) (decimal_value d2) ->
              no_pressure (parseHealthText text))
      | None =>
        (forall j, ~ occurs bpRegex text j)
        /\ no_pressure (parseHealthText text)
      end)
  /\ no_pressure (parseHealthText (js "血压300 90"%string))
  /\ systolic (parseHealthText (js "血压130 85"%string)) = Some 130%float
  /\ diastolic (parseHealthText (js "血压130 85"%string)) = Some 85%float.
Proof.
  split; [|vm_compute; auto].
  intros text.
  destruct (exec bpRegex text) as [m|] eqn:Hex.
  - split; [now apply exec_Some_first|].
    now apply parseHealthText_pressure_range.
  - split; [now apply exec_None_iff|].
    pose proof (parseHealthText_pressure text) as Hparse.
    now rewrite Hex in Hparse.
Qed.

(** C9. The result has [systolic] exactly when it has [diastolic]. *)
Theorem parseHealthText_systolic_iff_diastolic (text : jsstring) :
  ((exists sys, systolic (parseHealthText text) = Some sys)
   <-> (exists dia, diastolic (parseHealthText text) = Some dia))
  /\ (systolic (parseHealthText text) = None
      <-> diastolic (parseHealthText text) = None).
Proof.
  pose proof (parseHealthText_pressure text) as Hparse.
  destruct (exec bpRegex text) as [m|]; cbv zeta in Hparse.
  - destruct (in_bounds _ _).
    + destruct Hparse as [-> ->].
      split; split; eauto; discriminate.
    + destruct Hparse as [-> ->].
      split; split; auto; intros [? ?]; discriminate.
  - destruct Hparse as [-> ->].
    split; split; auto; intros [? ?]; discriminate.
Qed.

(** C10. When the integers captured by the first occurrence of the pressure
    pattern are out of bounds, the result has no pressure reading: only the
    first occurrence counts, whatever the text holds after it. *)
Theorem parseHealthText_first_occurrence_only
        (text : jsstring) (m : MatchResult) (d1 d2 : jsstring) :
  exec bpRegex text = Some m ->
  group m 1 = Some d1 -> group m 2 = Some d2 ->
  ~ in_range (decimal_value d1) (decimal_value d2) ->
  first_occurrence bpRegex text m /\ no_pressure (parseHealthText text).
Proof.
  intros Hex Hg1 Hg2 Hout.
  split; [now apply exec_Some_first|].
  destruct (parseHealthText_pressure_range _ Hex)
    as (d1' & d2' & Hg1' & Hg2' & _ & _ & Hno).
  rewrite Hg1 in Hg1'. rewrite Hg2 in Hg2'.
  injection Hg1' as <-. injection Hg2' as <-.
  now apply Hno.
Qed.

Lemma parseHealthText_first_occurrence_only_witness :
  exec bpRegex two_pressures = Some first_of_two_pressures
  /\ ~ in_range (decimal_value (js "300"%string)) (decimal_value (js "90"%string))
  /\ parseHealthText (skipn 9 two_pressures)
     = {| bloodSugar := None; systolic := Some 130%float;
          diastolic := Some 85%float |}
  /\ first_occurrence bpRegex two_pressures first_of_two_pressures
  /\ no_pressure (parseHealthText two_pressures).
Proof.
  assert (Hex : exec bpRegex two_pressures = Some first_of_two_pressures)
    by (vm_compute; reflexivity).
  assert (Hout : ~ in_range (decimal_value (js "300"%string))
                            (decimal_value (js "90"%string)))
    by (vm_compute; intros [[_ Hle] _]; apply Hle; reflexivity).
  split; [exact Hex|]. split; [exact Hout|].
  split; [vm_compute; reflexivity|].
  exact (@parseHealthText_first_occurrence_only
           two_pressures first_of_two_pressures
           (js "300"%string) (js "90"%string)
           Hex eq_refl eq_refl Hout).
Defined.

(** C5. The glucose property of the result depends on the glucose pattern
    alone and the pressure properties on the pressure pattern alone: the
    result has [bloodSugar] exactly when the glucose pattern occurs in the
    text, whether or not the pressure pattern occurs or its match is in
    bounds, and conversely. "血糖6.4，血压130 85" gives glucose 6.4 and
    pressure 130 over 85. *)
Theorem parseHealthText_patterns_independent :
  (forall text,
      bloodSugar (parseHealthText text)
      = option_map (fun m => parseFloat (capture m 1)) (exec sugarRegex text)
      /\ ((exists g, bloodSugar (parseHealthText text) = Some g)
          <-> exists j, occurs sugarRegex text j)
      /\ (systolic (parseHealthText text), diastolic (parseHealthText text))
         = match exec bpRegex text with
           | Some m =>
             let sys := parseInt (capture m 1) in
             let dia := parseInt (capture m 2) in
             if in_bounds sys dia then (Some sys, Some dia) else (None, None)
           | None => (None, None)
           end)
  /\ parseHealthText (js "血糖6.4，血压130 85"%string)
     = {| bloodSugar := Some 6.4%float; systolic := Some 130%float;
          diastolic := Some 85%float |}
  /\ parseHealthText (js "血糖6.4，血压300 90"%string)
     = {| bloodSugar := Some 6.4%float; systolic := None; diastolic := None |}
  /\ parseHealthText (js "血压130 85"%string)
     = {| bloodSugar := None; systolic := Some 130%float;
          diastolic := Some 85%float |}
  /\ parseHealthText (js "血压130 85，血糖6.4"%string)
     = {| bloodSugar := Some 6.4%float; systolic := Some 130%float;
          diastolic := Some 85%float |}.
Proof.
  split; [|vm_compute; repeat split; reflexivity].
  intros text.
  pose proof (parseHealthText_bloodSugar text) as Hsugar.
  split; [exact Hsugar|]. split.
  - rewrite Hsugar.
    destruct (exec sugarRegex text) as [m|] eqn:Hex; simpl.
    + split; [intros _|eauto].
      apply exec_Some_first in Hex as (pre & rest & E & _ & Hm & _).
      exists (length pre), (matched m), (groups m), rest.
      split; [|exact Hm].
      now rewrite E, skipn_app, skipn_all, Nat.sub_diag.
    + split; [intros [g Hg]; discriminate|].
      intros [j Hj]. rewrite exec_None_iff in Hex. now elim (Hex j).
  - pose proof (parseHealthText_pressure text) as Hparse.
    destruct (exec bpRegex text) as [m|]; cbv zeta in *.
    + destruct (in_bounds _ _); destruct Hparse as [-> ->]; reflexivity.
    + destruct Hparse as [-> ->]; reflexivity.
Qed.

(* ================================================================== *)
(** * Rounding of Numbers *)
(* ================================================================== *)

(** The operations of binary64 are specified by [SpecFloat]: a quotient or
    an integer is cut to the digits of the format by [binary_round_aux].
    This section shows what that is: the nearest number of the format. *)

Lemma fexp_eq (e : Z) : fexp prec emax e = Z.max (e - 53) (-1074).
Proof. reflexivity. Qed.

Lemma digits2_pos_bounds (p : positive) :
  2 ^ (Zpos (digits2_pos p) - 1) <= Zpos p < 2 ^ Zpos (digits2_pos p).
Proof.
  induction p as [p IH|p IH|]; cbn [digits2_pos].
  - rewrite Pos2Z.inj_succ.
    replace (Z.succ (Zpos (digits2_pos p)) - 1) with (Z.succ (Zpos (digits2_pos p) - 1)) by lia.
    rewrite !Z.pow_succ_r by lia. lia.
  - rewrite Pos2Z.inj_succ.
    replace (Z.succ (Zpos (digits2_pos p)) - 1) with (Z.succ (Zpos (digits2_pos p) - 1)) by lia.
    rewrite !Z.pow_succ_r by lia. lia.
  - simpl. lia.
Qed.

(** The number of binary digits of a natural number is fixed by the powers
    of two around it. *)
Lemma Zdigits2_unique (z k : Z) :
  2 ^ (k - 1) <= z < 2 ^ k -> 0 < z -> Zdigits2 z = k.
Proof.
  intros Hz Hpos. destruct z as [|p|p]; try lia.
  cbn [Zdigits2]. pose proof (digits2_pos_bounds p) as Hp.
  set (d := Zpos (digits2_pos p)) in *.
  assert (0 < d) by (unfold d; lia).
  assert (Hk : 0 < k).
  { destruct (Z.ltb_spec 0 k); [assumption|]. 
    assert (2 ^ k <= 1); [|lia].
    destruct (Z.eq_dec k 0) as [->|]; [simpl; lia|].
    rewrite Z.pow_neg_r by lia. lia. }
  assert (k - 1 < d) by (apply (Z.pow_lt_mono_r_iff 2); lia).
  assert (d - 1 < k) by (apply (Z.pow_lt_mono_r_iff 2); lia).
  lia.
Qed.

Lemma Zdigits2_bounds (z : Z) :
  0 < z -> 2 ^ (Zdigits2 z - 1) <= z < 2 ^ Zdigits2 z.
Proof.
  destruct z as [|p|p]; try lia. intros _. apply digits2_pos_bounds.
Qed.

Lemma shr_1_loc (mrs : shr_record) (N U : Z) :
  0 < U -> 0 <= shr_m mrs ->
  loc_in N U (shr_m mrs) (loc_of_shr_record mrs) ->
  0 <= shr_m (shr_1 mrs)
  /\ loc_in N (2 * U) (shr_m (shr_1 mrs)) (loc_of_shr_record (shr_1 mrs)).
Proof.
  intros HU Hm [Hin Hloc]. destruct mrs as [m r s]. cbn [shr_m] in *.
  unfold loc_in.
  destruct m as [|[p|p|]|p]; try lia;
    destruct r, s; cbn [shr_1 shr_m loc_of_shr_record orb] in *;
      repeat match goal with
             | H : _ /\ _ |- _ => destruct H
             | H : (_ ?= _) = _ |- _ =>
               first [apply Z.compare_eq_iff in H
                     |apply Z.compare_lt_iff in H
                     |apply Z.compare_gt_iff in H]
             end;
      repeat split; try lia;
        first [apply Z.compare_eq_iff|apply Z.compare_lt_iff|apply Z.compare_gt_iff];
        lia.
Qed.

Lemma pow2_xO (n : positive) : 2 ^ Zpos n~0 = 2 ^ Zpos n * 2 ^ Zpos n.
Proof.
  replace (Z.pos n~0) with (Z.pos n + Z.pos n) by lia.
  apply Z.pow_add_r; lia.
Qed.

Lemma pow2_xI (n : positive) : 2 ^ Zpos n~1 = 2 * (2 ^ Zpos n * 2 ^ Zpos n).
Proof.
  replace (Z.pos n~1) with (Z.succ (Z.pos n + Z.pos n)) by lia.
  rewrite Z.pow_succ_r, Z.pow_add_r by lia. reflexivity.
Qed.

Lemma iter_shr_1_loc (n : positive) :
  forall (mrs : shr_record) (N U : Z),
    0 < U -> 0 <= shr_m mrs ->
    loc_in N U (shr_m mrs) (loc_of_shr_record mrs) ->
    0 <= shr_m (SpecFloat.iter_pos shr_1 n mrs)
    /\ loc_in N (U * 2 ^ Zpos n) (shr_m (SpecFloat.iter_pos shr_1 n mrs))
              (loc_of_shr_record (SpecFloat.iter_pos shr_1 n mrs)).
Proof.
  induction n as [n IH|n IH|]; intros mrs N U HU Hm Hloc; cbn [SpecFloat.iter_pos].
  - destruct (@shr_1_loc mrs N U HU Hm Hloc) as [Hm1 Hloc1].
    destruct (IH _ N (2 * U) ltac:(lia) Hm1 Hloc1) as [Hm2 Hloc2].
    assert (Hp : 0 < 2 ^ Zpos n) by (apply Z.pow_pos_nonneg; lia).
    destruct (IH _ N (2 * U * 2 ^ Zpos n) ltac:(nia) Hm2 Hloc2) as [Hm3 Hloc3].
    split; [exact Hm3|].
    replace (U * 2 ^ Zpos n~1) with (2 * U * 2 ^ Zpos n * 2 ^ Zpos n);
      [exact Hloc3|rewrite pow2_xI; ring].
  - assert (Hp : 0 < 2 ^ Zpos n) by (apply Z.pow_pos_nonneg; lia).
    destruct (IH _ N U HU Hm Hloc) as [Hm2 Hloc2].
    destruct (IH _ N (U * 2 ^ Zpos n) ltac:(nia) Hm2 Hloc2) as [Hm3 Hloc3].
    split; [exact Hm3|].
    replace (U * 2 ^ Zpos n~0) with (U * 2 ^ Zpos n * 2 ^ Zpos n);
      [exact Hloc3|rewrite pow2_xO; ring].
  - destruct (@shr_1_loc mrs N U HU Hm Hloc) as [Hm1 Hloc1].
    split; [exact Hm1|]. change (2 ^ 1) with 2.
    now replace (U * 2) with (2 * U) by lia.
Qed.

Lemma loc_of_shr_record_of_loc (m : Z) (l : location) :
  loc_of_shr_record (shr_record_of_loc m l) = l
  /\ shr_m (shr_record_of_loc m l) = m.
Proof. destruct l as [|[| |]]; split; reflexivity. Qed.

(** [shr]: the position after a shift by [n >= 0] digits. *)
Lemma shr_loc (m : Z) (l : location) (e n N U : Z) :
  0 < U -> 0 <= m -> 0 <= n ->
  loc_in N U m l ->
  snd (shr (shr_record_of_loc m l) e n) = e + n
  /\ 0 <= shr_m (fst (shr (shr_record_of_loc m l) e n))
  /\ loc_in N (U * 2 ^ n) (shr_m (fst (shr (shr_record_of_loc m l) e n)))
            (loc_of_shr_record (fst (shr (shr_record_of_loc m l) e n))).
Proof.
  intros HU Hm Hn Hloc.
  destruct (loc_of_shr_record_of_loc m l) as [El Em].
  destruct n as [|n|n]; try lia; cbn [shr fst snd].
  - rewrite El, Em, Z.add_0_r, Z.mul_1_r. auto.
  - split; [reflexivity|].
    apply iter_shr_1_loc; [assumption|lia|now rewrite El, Em].
Qed.

Lemma round_nearest_even_loc (N U m : Z) (l : location) :
  0 < U -> loc_in N U m l ->
  m <= round_nearest_even m l <= m + 1
  /\ 2 * Z.abs (round_nearest_even m l * U - N) <= U.
Proof.
  intros HU [Hin Hl]. unfold round_nearest_even.
  destruct l as [|[| |]].
  - subst N. split; [lia|]. replace (m * U - m * U) with 0 by ring. simpl. lia.
  - destruct Hl as [_ Hc]. rewrite Z.compare_eq_iff in Hc.
    destruct (Z.even m); split; lia.
  - destruct Hl as [_ Hc]. rewrite Z.compare_lt_iff in Hc. split; lia.
  - destruct Hl as [_ Hc]. rewrite Z.compare_gt_iff in Hc. split; lia.
Qed.

Lemma pow2_pos (k : Z) : 0 <= k -> 0 < 2 ^ k.
Proof. intros. apply Z.pow_pos_nonneg; lia. Qed.

(** What [binary_round_aux] returns for the position [lx] of [N / U] at
    [mx], in units of [2 ^ ex]. *)
Lemma binary_round_aux_spec (sx : bool) (mx ex : Z) (lx : location) (N U : Z) :
  0 < U -> 0 <= mx -> loc_in N U mx lx ->
  ex <= fexp prec emax (Zdigits2 mx + ex) ->
  exists m e,
    rounds_to N U ex m e
    /\ binary_round_aux prec emax sx mx ex lx = float_of_rounding sx m e.
Proof.
  intros HU Hmx Hloc Hex.
  unfold binary_round_aux, shr_fexp.
  set (e1 := fexp prec emax (Zdigits2 mx + ex)) in *.
  destruct (@shr_loc mx lx ex (e1 - ex) N U HU Hmx ltac:(lia) Hloc)
    as (He & Hm1 & Hloc1).
  destruct (shr (shr_record_of_loc mx lx) ex (e1 - ex)) as [mrs1 e1'].
  cbn [fst snd] in *. replace (ex + (e1 - ex)) with e1 in He by lia. subst e1'.
  set (m1 := shr_m mrs1) in *. set (l1 := loc_of_shr_record mrs1) in *.
  set (U' := U * 2 ^ (e1 - ex)) in *.
  assert (HU' : 0 < U').
  { unfold U'. pose proof (@pow2_pos (e1 - ex) ltac:(lia)). nia. }
  assert (He1 : -1074 <= e1) by (unfold e1; rewrite fexp_eq; lia).
  (* the magnitude of [m1] *)
  assert (Hmag : m1 < 2 ^ 53 /\ (m1 < 2 ^ 52 -> e1 = -1074)).
  { destruct Hloc as [Hin _]. destruct Hloc1 as [Hin1 _].
    destruct (Z.eq_dec mx 0) as [->|Hnz].
    - assert (m1 = 0) by nia. 
      split; [subst m1; lia|]. intros _.
      unfold e1 in *. cbn [Zdigits2] in *. rewrite fexp_eq in *. lia.
    - pose proof (@Zdigits2_bounds mx ltac:(lia)) as Hd.
      set (d := Zdigits2 mx) in *.
      assert (0 < d).
      { destruct mx; try lia. unfold d. simpl. lia. }
      assert (Hn : d - 53 <= e1 - ex) by (unfold e1; rewrite fexp_eq; lia).
      split.
      + assert (2 ^ d * U <= 2 ^ 53 * U').
        { unfold U'. 
          assert (2 ^ d <= 2 ^ (53 + (e1 - ex))) by (apply Z.pow_le_mono_r; lia).
          rewrite Z.pow_add_r in * by lia. nia. }
        assert (0 < 2 ^ 53) by (apply pow2_pos; lia).
        nia.
      + intros Hsmall.
        destruct (Z.eq_dec e1 (-1074)) as [|Hne]; [assumption|exfalso].
        assert (En : e1 - ex = d - 53) by (unfold e1 in *; rewrite fexp_eq in *; lia).
        assert (2 ^ (d - 1) * U = 2 ^ 52 * U').
        { unfold U'. rewrite En.
          replace (d - 1) with (52 + (d - 53)) by lia.
          rewrite Z.pow_add_r by lia. ring. }
        assert (0 < 2 ^ 52) by (apply pow2_pos; lia).
        nia. }
  destruct Hmag as [Hlt Hsub].
  destruct (round_nearest_even_loc HU' Hloc1) as [Hm2 Hnear].
  set (m2 := round_nearest_even m1 l1) in *.
  exists m2, e1. unfold rounds_to, float_of_rounding. fold U'.
  split.
  { split; [lia|]. split; [exact He1|]. split; [lia|]. split; [|exact Hnear].
    intros Hbig. destruct (Z.lt_ge_cases m1 (2 ^ 52)) as [Hs|Hs]; [apply Hsub in Hs; lia|].
    destruct Hloc1 as [Hin1 _]. nia. }
  (* the second shift *)
  destruct (Z.eqb_spec m2 0) as [E0|Hnz].
  - rewrite E0. cbn [Zdigits2]. rewrite Z.add_0_l.
    assert (e1 = -1074) by (apply Hsub; change (2 ^ 52) with 4503599627370496; lia).
    subst e1. replace (fexp prec emax (Zdigits2 mx + ex)) with (-1074) by lia.
    reflexivity.
  - destruct (Z.eqb_spec m2 (2 ^ 53)) as [E53|Hn53].
    + rewrite E53.
      change (Zdigits2 (2 ^ 53)) with 54. rewrite fexp_eq.
      replace (Z.max (54 + e1 - 53) (-1074) - e1) with 1 by lia.
      cbn -[Z.leb Z.add]. 
      change (Z.pos 4503599627370496) with (Z.pos (Z.to_pos (2 ^ 52))).
      reflexivity.
    + assert (Hd2 : fexp prec emax (Zdigits2 m2 + e1) - e1 = 0).
      { rewrite fexp_eq.
        destruct (Z.lt_ge_cases m2 (2 ^ 52)) as [Hs|Hs].
        - assert (e1 = -1074) by (apply Hsub; lia).
          pose proof (@Zdigits2_bounds m2 ltac:(lia)) as Hd.
          assert (Zdigits2 m2 - 1 < 52) by (apply (Z.pow_lt_mono_r_iff 2); lia).
          lia.
        - rewrite (@Zdigits2_unique m2 53); [lia| |lia].
          change (53 - 1) with 52. lia. }
      rewrite Hd2. cbn [shr fst snd shr_record_of_loc shr_m].
      destruct m2 as [|p|p]; try lia.
      change (emax - prec) with 971. rewrite Pos2Z.id. reflexivity.
Qed.

Lemma pow2_split (a b : Z) : 0 <= a -> 0 <= b -> 2 ^ (a + b) = 2 ^ a * 2 ^ b.
Proof. intros. apply Z.pow_add_r; lia. Qed.

(** An integer within half a unit of [N / U] is as near to it as any
    integer. *)
Lemma nearest_integer_unit (N U m k : Z) :
  0 < U -> 2 * Z.abs (m * U - N) <= U ->
  Z.abs (m * U - N) <= Z.abs (k * U - N).
Proof.
  intros HU Hm.
  destruct (Z.lt_trichotomy k m) as [Hk|[->|Hk]]; [|lia|].
  - assert ((k + 1) * U <= m * U) by nia. lia.
  - assert ((m + 1) * U <= k * U) by nia. lia.
Qed.

(** The rounding is as near to [(N / U) * 2 ^ ex] as any number
    [z * 2 ^ e'] of the format; all are scaled by [2 ^ (- L)] and [U]. *)
Lemma rounds_to_nearest (N U ex m e z e' L : Z) :
  0 < U -> 0 <= N ->
  rounds_to N U ex m e ->
  Z.abs z < 2 ^ 53 -> -1074 <= e' ->
  L <= ex -> L <= -1074 ->
  Z.abs (m * 2 ^ (e - L) * U - N * 2 ^ (ex - L))
  <= Z.abs (z * 2 ^ (e' - L) * U - N * 2 ^ (ex - L)).
Proof.
  intros HU HN (Hex & He & Hm & Hbig & Hnear) Hz He' HL1 HL2.
  set (T := 2 ^ (ex - L)).
  set (U' := U * 2 ^ (e - ex)) in *.
  assert (HT : 0 < T) by (apply pow2_pos; lia).
  assert (HU' : 0 < U').
  { unfold U'. pose proof (@pow2_pos (e - ex) ltac:(lia)). nia. }
  assert (EV : m * 2 ^ (e - L) * U - N * T = T * (m * U' - N)).
  { unfold U', T. replace (e - L) with ((e - ex) + (ex - L)) by lia.
    rewrite pow2_split by lia. ring. }
  rewrite EV, Z.abs_mul, (Z.abs_eq T) by lia.
  destruct (Z.le_gt_cases e e') as [Hle|Hgt].
  - assert (EY : z * 2 ^ (e' - L) * U - N * T
                 = T * (z * 2 ^ (e' - e) * U' - N)).
    { unfold U', T. replace (e' - L) with ((e' - e) + ((e - ex) + (ex - L))) by lia.
      rewrite !pow2_split by lia. ring. }
    rewrite EY, Z.abs_mul, (Z.abs_eq T) by lia.
    apply Z.mul_le_mono_nonneg_l; [lia|].
    now apply nearest_integer_unit.
  - specialize (Hbig ltac:(lia)).
    set (W := 2 ^ (e' - L) * U).
    set (G := 2 ^ (e - e' - 1)).
    assert (HW : 0 < W).
    { unfold W. pose proof (@pow2_pos (e' - L) ltac:(lia)). nia. }
    assert (HG : 0 < G) by (apply pow2_pos; lia).
    assert (ETU : T * U' = 2 * G * W).
    { unfold T, U', G, W.
      replace (e - ex) with (1 + (e - e' - 1) + (e' - L) - (ex - L)) by lia.
      assert (E : 2 ^ (1 + (e - e' - 1) + (e' - L))
                  = 2 ^ (1 + (e - e' - 1) + (e' - L) - (ex - L)) * 2 ^ (ex - L)).
      { rewrite <- pow2_split by lia. f_equal. lia. }
      rewrite !pow2_split in E by lia. change (2 ^ 1) with 2 in E. nia. }
    replace (z * 2 ^ (e' - L) * U) with (z * W) by (unfold W; ring).
    pose proof (@nearest_integer_unit N U' m (2 ^ 52) HU' Hnear) as Hk.
    set (P52 := 2 ^ 52) in *.
    assert (HP : 2 ^ 53 = 2 * P52) by reflexivity.
    assert (0 < P52) by (unfold P52; apply pow2_pos; lia).
    rewrite HP in *.
    assert (Hk' : T * Z.abs (m * U' - N) <= T * (N - P52 * U')) by nia.
    assert (HA : 2 * P52 * G * W <= N * T) by nia.
    assert (HY : z * W < 2 * P52 * W) by nia.
    assert (2 * P52 * W <= 2 * P52 * G * W) by nia.
    assert (T * (N - P52 * U') = N * T - 2 * P52 * G * W) by nia.
    lia.
Qed.

(** The value of a finite float, over the denominator [2 ^ (- L)]. *)
Lemma Q_of_finite_scaled (z e L : Z) :
  L <= e -> L <= 0 ->
  ((if 0 <=? e then inject_Z (z * 2 ^ e) else z # Z.to_pos (2 ^ (- e)))
   == (z * 2 ^ (e - L)) # Z.to_pos (2 ^ (- L)))%Q.
Proof.
  intros HLe HL.
  assert (HD : 0 < 2 ^ (- L)) by (apply pow2_pos; lia).
  unfold Qeq. destruct (Z.leb_spec 0 e) as [He|He]; cbn [Qnum Qden inject_Z].
  - rewrite Z2Pos.id by assumption.
    replace (e - L) with (e + - L) by lia. rewrite pow2_split by lia. ring.
  - assert (0 < 2 ^ (- e)) by (apply pow2_pos; lia).
    rewrite !Z2Pos.id by assumption.
    replace (- L) with ((e - L) + - e) by lia. rewrite pow2_split by lia.
    replace (e - L + - e - - e) with (e - L) by lia. ring.
Qed.

Lemma bounded_canonical (m : positive) (e : Z) :
  bounded prec emax m e = true -> Zpos m < 2 ^ 53 /\ -1074 <= e <= 971.
Proof.
  unfold bounded, canonical_mantissa. rewrite andb_true_iff, Z.eqb_eq, Z.leb_le.
  rewrite fexp_eq. change (emax - prec) with 971. intros [Hc He].
  pose proof (digits2_pos_bounds m) as Hm.
  split; [|lia].
  eapply Z.lt_le_trans; [apply Hm|]. apply Z.pow_le_mono_r; lia.
Qed.

Lemma canonical_bounded (m e : Z) :
  0 < m < 2 ^ 53 -> -1074 <= e <= 971 -> (m < 2 ^ 52 -> e = -1074) ->
  bounded prec emax (Z.to_pos m) e = true.
Proof.
  intros Hm He Hsub.
  unfold bounded, canonical_mantissa. rewrite andb_true_iff, Z.eqb_eq, Z.leb_le.
  rewrite fexp_eq. change (emax - prec) with 971. split; [|lia].
  change (Z.pos (digits2_pos (Z.to_pos m))) with (Zdigits2 (Zpos (Z.to_pos m))).
  rewrite Z2Pos.id by lia.
  destruct (Z.lt_ge_cases m (2 ^ 52)) as [Hs|Hs].
  - pose proof (@Zdigits2_bounds m ltac:(lia)) as Hd.
    assert (Zdigits2 m - 1 < 52) by (apply (Z.pow_lt_mono_r_iff 2); lia).
    specialize (Hsub Hs). lia.
  - rewrite (@Zdigits2_unique m 53); [lia| |lia]. change (53 - 1) with 52. lia.
Qed.

(** The float a rounding gives is one of the format. *)
Lemma float_of_rounding_valid (sx : bool) (N U ex m e : Z) :
  0 < U ->
  rounds_to N U ex m e ->
  valid_binary (float_of_rounding sx m e) = true.
Proof.
  intros HU (Hex & He & Hm & Hbig & Hnear). unfold float_of_rounding.
  destruct (Z.eqb_spec m 0); [reflexivity|].
  destruct (Z.eqb_spec m (2 ^ 53)).
  - destruct (Z.leb_spec (e + 1) 971); [|reflexivity].
    cbn [SpecFloat.valid_binary]. apply canonical_bounded.
    + change (2 ^ 52) with 4503599627370496. change (2 ^ 53) with 9007199254740992. lia.
    + lia.
    + lia.
  - destruct (Z.leb_spec e 971); [|reflexivity].
    cbn [SpecFloat.valid_binary]. apply canonical_bounded; try lia.
    intros Hs. destruct (Z.eq_dec e (-1074)); [assumption|exfalso].
    specialize (Hbig ltac:(lia)).
    pose proof (@pow2_pos (e - ex) ltac:(lia)).
    assert (0 < U * 2 ^ (e - ex)) by nia.
    nia.
Qed.

Lemma Qabs_minus_le_scaled (v y P : Z) (D U : positive) :
  Z.abs (v * Zpos U - P) <= Z.abs (y * Zpos U - P) ->
  (Qabs ((v # D) - (P # (U * D))) <= Qabs ((y # D) - (P # (U * D))))%Q.
Proof.
  intros Hle. unfold Qabs, Qminus, Qplus, Qopp, Qle. cbn [Qnum Qden].
  apply Z.mul_le_mono_nonneg_r; [lia|].
  replace (v * Z.pos (U * D) + - P * Z.pos D)
    with (Zpos D * (v * Zpos U - P)) by (rewrite Pos2Z.inj_mul; ring).
  replace (y * Z.pos (U * D) + - P * Z.pos D)
    with (Zpos D * (y * Zpos U - P)) by (rewrite Pos2Z.inj_mul; ring).
  rewrite !Z.abs_mul. apply Z.mul_le_mono_nonneg_l; [lia|exact Hle].
Qed.

(** A finite float of the format is [z * 2 ^ e] for an integer [z] of at
    most 53 digits and an exponent [e] of at least -1074. *)
Lemma Q_of_spec_format (f : spec_float) :
  valid_binary f = true -> is_finite_spec f = true ->
  exists z e,
    Z.abs z < 2 ^ 53 /\ -1074 <= e
    /\ forall L, L <= -1074 ->
                 (Q_of_spec f == (z * 2 ^ (e - L)) # Z.to_pos (2 ^ (- L)))%Q.
Proof.
  intros Hv Hf. destruct f as [s|s| |s m e]; try discriminate.
  - exists 0, (-1074). split; [reflexivity|]. split; [lia|].
    intros L HL. reflexivity.
  - apply bounded_canonical in Hv as [Hm He].
    exists (if s then Zneg m else Zpos m), e.
    split; [destruct s; simpl Z.abs; lia|]. split; [lia|].
    intros L HL. apply Q_of_finite_scaled; lia.
Qed.

(** The value of the float of a rounding that does not overflow. *)
Lemma Q_of_rounding (sx : bool) (m e L : Z) :
  0 <= m <= 2 ^ 53 -> L <= e -> L <= 0 ->
  is_finite_spec (float_of_rounding sx m e) = true ->
  (Q_of_spec (float_of_rounding sx m e)
   == ((if sx then - m else m) * 2 ^ (e - L)) # Z.to_pos (2 ^ (- L)))%Q.
Proof.
  intros Hm HLe HL. unfold float_of_rounding.
  destruct (Z.eqb_spec m 0) as [->|Hnz].
  - intros _. destruct sx; reflexivity.
  - destruct (Z.eqb_spec m (2 ^ 53)) as [->|Hn53].
    + destruct (Z.leb_spec (e + 1) 971); [intros _|discriminate].
      cbn [Q_of_spec].
      rewrite (@Q_of_finite_scaled
                 (if sx then Z.neg (Z.to_pos (2 ^ 52)) else Z.pos (Z.to_pos (2 ^ 52)))
                 (e + 1) L) by lia.
      replace (e + 1 - L) with (1 + (e - L)) by lia.
      rewrite pow2_split by lia. unfold Qeq. cbn [Qnum Qden].
      f_equal. destruct sx; change (2 ^ 1) with 2;
        change (Z.neg (Z.to_pos (2 ^ 52))) with (- 2 ^ 52);
        change (Z.pos (Z.to_pos (2 ^ 52))) with (2 ^ 52);
        change (2 ^ 53) with (2 * 2 ^ 52); ring.
    + destruct (Z.leb_spec e 971); [intros _|discriminate].
      cbn [Q_of_spec].
      rewrite (@Q_of_finite_scaled
                 (if sx then Z.neg (Z.to_pos m) else Z.pos (Z.to_pos m)) e L) by lia.
      unfold Qeq. cbn [Qnum Qden]. f_equal. f_equal.
      destruct sx.
      * change (Z.neg (Z.to_pos m)) with (- Z.pos (Z.to_pos m)).
        rewrite Z2Pos.id by lia. reflexivity.
      * rewrite Z2Pos.id by lia. reflexivity.
Qed.

(** The rounding of a quotient that is not negative is as near to it as any
    float of the format, unless it overflows. *)
Lemma rounding_nearest (sx : bool) (N U ex m e : Z) (f : spec_float) :
  0 < U -> 0 <= N ->
  rounds_to N U ex m e ->
  is_finite_spec (float_of_rounding sx m e) = true ->
  valid_binary f = true -> is_finite_spec f = true ->
  let L := Z.min ex (-1074) in
  let X := ((if sx then - N else N) * 2 ^ (ex - L)) # (Z.to_pos U * Z.to_pos (2 ^ (- L))) in
  (Qabs (Q_of_spec (float_of_rounding sx m e) - X) <= Qabs (Q_of_spec f - X))%Q.
Proof.
  intros HU HN Hr Hfin Hv Hf L X.
  pose proof Hr as (Hex & He & Hm & Hbig & Hnear).
  destruct (Q_of_spec_format f Hv Hf) as (z & e' & Hz & He' & EQ).
  rewrite (EQ L) by lia.
  rewrite (@Q_of_rounding sx m e L) by (assumption || lia).
  unfold X. apply Qabs_minus_le_scaled. rewrite Z2Pos.id by lia.
  pose proof (@rounds_to_nearest N U ex m e (if sx then - z else z) e' L
                                 HU HN Hr ltac:(destruct sx; lia) He'
                                 ltac:(lia) ltac:(lia)) as Hn.
  destruct sx.
  - replace (- m * 2 ^ (e - L) * U - - N * 2 ^ (ex - L))
      with (- (m * 2 ^ (e - L) * U - N * 2 ^ (ex - L))) by ring.
    replace (z * 2 ^ (e' - L) * U - - N * 2 ^ (ex - L))
      with (- (- z * 2 ^ (e' - L) * U - N * 2 ^ (ex - L))) by ring.
    rewrite !Z.abs_opp. exact Hn.
  - exact Hn.
Qed.

(** A rounding overflows only from the middle between the greatest Number
    and [2 ^ 1024] on. *)
Lemma rounding_overflow (sx : bool) (N U ex m e : Z) :
  0 < U -> 0 <= N -> ex <= 0 ->
  rounds_to N U ex m e ->
  is_finite_spec (float_of_rounding sx m e) = false ->
  float_of_rounding sx m e = S754_infinity sx
  /\ (2 ^ 54 - 1) * 2 ^ 970 * (U * 2 ^ (- ex)) <= N.
Proof.
  intros HU HN Hex0 (Hex & He & Hm & Hbig & Hnear). unfold float_of_rounding.
  set (U' := U * 2 ^ (e - ex)) in *.
  assert (HB : 0 < 2 ^ (- ex)) by (apply pow2_pos; lia).
  assert (HP : 2 ^ 53 = 2 * 2 ^ 52) by reflexivity.
  assert (HK : 2 ^ 54 - 1 = 4 * 2 ^ 52 - 1) by reflexivity.
  assert (H52 : 0 < 2 ^ 52) by (apply pow2_pos; lia).
  assert (HA : 0 < 2 ^ 970) by (apply pow2_pos; lia).
  assert (Hpow : forall k, 0 <= k -> k <= e ->
                           2 ^ (e - ex) = 2 ^ (e - k) * (2 ^ k * 2 ^ (- ex))).
  { intros k Hk0 Hk. rewrite <- !pow2_split by lia. f_equal. lia. }
  destruct (Z.eqb_spec m 0); [discriminate|].
  destruct (Z.eqb_spec m (2 ^ 53)) as [E53|Hn53].
  - destruct (Z.leb_spec (e + 1) 971) as [|Hov]; [discriminate|].
    intros _. split; [reflexivity|].
    pose proof (Hpow 971 ltac:(lia) ltac:(lia)) as E.
    change (2 ^ 971) with (2 * 2 ^ 970) in E.
    pose proof (@pow2_pos (e - 971) ltac:(lia)) as Hq.
    rewrite HK. rewrite HP in E53.
    set (A := 2 ^ 970) in *. set (B := 2 ^ (- ex)) in *. set (P := 2 ^ 52) in *.
    set (G := 2 ^ (e - 971)) in *.
    assert (HU' : U' = G * (2 * A * B) * U) by (unfold U'; rewrite E; ring).
    assert (0 < A * B * U) by nia.
    assert (Hlow : (4 * P - 1) * U' <= 2 * N) by lia.
    assert ((4 * P - 1) * (2 * (A * B * U)) <= (4 * P - 1) * U').
    { apply Z.mul_le_mono_nonneg_l; [lia|]. rewrite HU'. nia. }
    replace ((4 * P - 1) * A * (U * B)) with ((4 * P - 1) * (A * B * U)) by ring.
    lia.
  - destruct (Z.leb_spec e 971) as [|Hov]; [discriminate|].
    intros _. split; [reflexivity|].
    specialize (Hbig ltac:(lia)).
    pose proof (Hpow 972 ltac:(lia) ltac:(lia)) as E.
    change (2 ^ 972) with (4 * 2 ^ 970) in E.
    pose proof (@pow2_pos (e - 972) ltac:(lia)) as Hq.
    rewrite HK.
    set (A := 2 ^ 970) in *. set (B := 2 ^ (- ex)) in *. set (P := 2 ^ 52) in *.
    set (G := 2 ^ (e - 972)) in *.
    assert (HU' : U' = G * (4 * A * B) * U) by (unfold U'; rewrite E; ring).
    assert (0 < A * B * U) by nia.
    assert (P * (4 * (A * B * U)) <= P * U').
    { apply Z.mul_le_mono_nonneg_l; [lia|]. rewrite HU'. nia. }
    replace ((4 * P - 1) * A * (U * B)) with ((4 * P - 1) * (A * B * U)) by ring.
    nia.
Qed.

Lemma new_location_loc (n q r : Z) :
  0 <= r < n -> loc_in (q * n + r) n q (new_location n r).
Proof.
  intros Hr. unfold loc_in. split; [lia|].
  unfold new_location, new_location_even, new_location_odd.
  destruct (Z.even n) eqn:Even.
  - destruct (Z.eqb_spec r 0); [lia|].
    split; [lia|]. f_equal. lia.
  - destruct (Z.eqb_spec r 0); [lia|].
    split; [lia|].
    rewrite <- Z.negb_odd in Even. apply negb_false_iff, Z.odd_spec in Even.
    destruct Even as [k ->].
    replace (2 * (q * (2 * k + 1) + r - q * (2 * k + 1))) with (2 * r) by ring.
    destruct (Z.compare_spec (2 * r + 1) (2 * k + 1));
      [apply Z.compare_lt_iff|apply Z.compare_lt_iff|apply Z.compare_gt_iff]; lia.
Qed.

(** The quotient [SFdiv] hands to the rounding, for two integers. *)
Lemma SFdiv_core_binary_spec (p q : positive) :
  exists s qq l,
    SFdiv_core_binary prec emax (Zpos p) 0 (Zpos q) 0 = (qq, - s, l)
    /\ 0 <= s /\ 0 <= qq
    /\ loc_in (Zpos p * 2 ^ s) (Zpos q) qq l
    /\ - s <= fexp prec emax (Zdigits2 qq + - s).
Proof.
  unfold SFdiv_core_binary.
  set (d1 := Zdigits2 (Zpos p)). set (d2 := Zdigits2 (Zpos q)).
  rewrite !Z.add_0_r, Z.sub_diag.
  set (e' := Z.min (fexp prec emax (d1 - d2)) 0).
  set (s := 0 - e').
  assert (Hs : 0 <= s) by (unfold s, e'; lia).
  set (m' := match s with Z.pos _ => Z.shiftl (Zpos p) s | 0 => Zpos p | Z.neg _ => 0 end).
  assert (Em : m' = Zpos p * 2 ^ s).
  { unfold m'. destruct s as [|s'|s']; try lia.
    apply Z.shiftl_mul_pow2. lia. }
  assert (Hdiv : Z.div_eucl m' (Zpos q) = (m' / Zpos q, m' mod Zpos q)).
  { unfold Z.div, Z.modulo. now destruct (Z.div_eucl m' (Zpos q)). }
  rewrite Hdiv.
  pose proof (Z.div_mod m' (Zpos q) ltac:(lia)) as Hdm.
  pose proof (Z.mod_pos_bound m' (Zpos q) ltac:(lia)) as Hmod.
  assert (Hp2 : 0 < 2 ^ s) by (apply pow2_pos; lia).
  assert (Hqq : 0 <= m' / Zpos q) by (apply Z.div_pos; nia).
  exists s, (m' / Zpos q), (new_location (Zpos q) (m' mod Zpos q)).
  replace e' with (- s) by (unfold s; lia).
  split; [reflexivity|]. split; [exact Hs|]. split; [exact Hqq|].
  split.
  - rewrite <- Em. rewrite Hdm at 1.
    replace (Z.pos q * (m' / Z.pos q) + m' mod Z.pos q)
      with (m' / Z.pos q * Z.pos q + m' mod Z.pos q) by ring.
    now apply new_location_loc.
  - set (qq := m' / Zpos q) in *.
    pose proof (@Zdigits2_bounds (Zpos p) ltac:(lia)) as Hd1.
    pose proof (@Zdigits2_bounds (Zpos q) ltac:(lia)) as Hd2.
    fold d1 in Hd1. fold d2 in Hd2.
    assert (0 < d1) by (unfold d1; simpl; lia).
    assert (0 < d2) by (unfold d2; simpl; lia).
    assert (Hfe : - s <= fexp prec emax (d1 - d2)) by (unfold s, e'; lia).
    rewrite fexp_eq in *.
    destruct (Z.eq_dec qq 0) as [E0|Hnz].
    + rewrite E0. cbn [Zdigits2].
      (* the quotient is below 1, so [d1 + s <= d2] *)
      assert (Hlt : m' < Zpos q) by nia.
      assert (2 ^ (d1 - 1 + s) < 2 ^ d2).
      { rewrite pow2_split by lia. nia. }
      assert (d1 - 1 + s < d2) by (apply (Z.pow_lt_mono_r_iff 2); lia).
      lia.
    + pose proof (@Zdigits2_bounds qq ltac:(lia)) as Hdq.
      set (dq := Zdigits2 qq) in *.
      assert (0 < dq).
      { destruct qq; try lia. unfold dq. simpl. lia. }
      assert (Hlt : m' < (qq + 1) * Zpos q) by nia.
      assert (2 ^ (d1 - 1 + s) < 2 ^ (dq + d2)).
      { rewrite !pow2_split by lia. nia. }
      assert (d1 - 1 + s < dq + d2) by (apply (Z.pow_lt_mono_r_iff 2); lia).
      lia.
Qed.

(** The Number [parseFloat] takes for the decimal [p / q] is a nearest one. *)
Lemma float_of_ratio_nearest (p q : positive) :
  nearest_Number (Zpos p # q) (float_of_ratio (Zpos p) (Zpos q)).
Proof.
  unfold float_of_ratio, SFdiv.
  destruct (SFdiv_core_binary_spec p q) as (s & qq & l & E & Hs & Hqq & Hloc & Hfe).
  rewrite E. cbn [xorb].
  destruct (@binary_round_aux_spec false qq (- s) l (Zpos p * 2 ^ s) (Zpos q)
                                   ltac:(lia) Hqq Hloc Hfe) as (m & e & Hr & Eb).
  rewrite Eb.
  assert (Hp2 : 0 < 2 ^ s) by (apply pow2_pos; lia).
  pose proof (@float_of_rounding_valid false (Zpos p * 2 ^ s) (Zpos q) (- s) m e ltac:(lia) Hr) as Hv.
  destruct (is_finite_spec (float_of_rounding false m e)) eqn:Hfin.
  - left. unfold finiteb, Q_of_float. rewrite Prim2SF_SF2Prim by exact Hv.
    split; [exact Hfin|].
    intros y Hy.
    pose proof (@rounding_nearest false (Zpos p * 2 ^ s) (Zpos q) (- s) m e
                                  (Prim2SF y) ltac:(lia) ltac:(nia)
                                  Hr Hfin (Prim2SF_valid y) Hy) as Hn.
    cbv zeta in Hn.
    set (L := Z.min (- s) (-1074)) in *.
    assert (HD : 0 < 2 ^ (- L)) by (apply pow2_pos; lia).
    assert (EX : ((Z.pos p * 2 ^ s * 2 ^ (- s - L))
                    # (Z.to_pos (Z.pos q) * Z.to_pos (2 ^ (- L))) == Zpos p # q)%Q).
    { unfold Qeq. cbn [Qnum Qden]. rewrite Pos2Z.inj_mul, !Z2Pos.id by lia.
      replace (2 ^ (- L)) with (2 ^ (s + (- s - L))) by (f_equal; lia).
      rewrite pow2_split by lia. ring. }
    rewrite EX in Hn. exact Hn.
  - right.
    destruct (@rounding_overflow false (Zpos p * 2 ^ s) (Zpos q) (- s) m e
                                 ltac:(lia) ltac:(nia) ltac:(lia) Hr Hfin) as [Einf Hth].
    rewrite Einf. split; [reflexivity|].
    unfold Qle. cbn [Qnum Qden inject_Z]. rewrite Z.opp_involutive in Hth.
    nia.
Qed.

Lemma Pos_iter_xO (d : positive) (p : positive) :
  Zpos (Pos.iter xO p d) = Zpos p * 2 ^ Zpos d.
Proof.
  induction d as [|d IH] using Pos.peano_ind.
  - simpl. lia.
  - rewrite Pos.iter_succ, Pos2Z.inj_xO, IH, Pos2Z.inj_succ, Z.pow_succ_r by lia.
    ring.
Qed.

(** What [binary_round] returns for [mx * 2 ^ ex]. *)
Lemma binary_round_spec (sx : bool) (mx : positive) (ex : Z) :
  exists mz ez m e,
    ez <= ex /\ mz = Zpos mx * 2 ^ (ex - ez)
    /\ rounds_to mz 1 ez m e
    /\ binary_round prec emax sx mx ex = float_of_rounding sx m e.
Proof.
  unfold binary_round, shl_align.
  set (d := Zpos (digits2_pos mx)).
  pose proof (digits2_pos_bounds mx) as Hd. fold d in Hd.
  assert (Hd0 : 0 < d) by (unfold d; lia).
  set (e1 := fexp prec emax (d + ex)).
  destruct (e1 - ex) as [|k|k] eqn:Ek.
  - destruct (@binary_round_aux_spec sx (Zpos mx) ex loc_Exact (Zpos mx) 1)
      as (m & e & Hr & Eb); try lia.
    + split; [lia|]. lia.
    + change (Zdigits2 (Zpos mx)) with d. lia.
    + exists (Zpos mx), ex, m, e. rewrite Z.sub_diag, Z.mul_1_r. auto with zarith.
  - destruct (@binary_round_aux_spec sx (Zpos mx) ex loc_Exact (Zpos mx) 1)
      as (m & e & Hr & Eb); try lia.
    + split; [lia|]. lia.
    + change (Zdigits2 (Zpos mx)) with d. lia.
    + exists (Zpos mx), ex, m, e. rewrite Z.sub_diag, Z.mul_1_r. auto with zarith.
  - assert (Hk : ex - e1 = Zpos k) by lia.
    assert (Hpk : 0 < 2 ^ Zpos k) by (apply pow2_pos; lia).
    destruct (@binary_round_aux_spec sx (Zpos (Pos.iter xO mx k)) e1 loc_Exact
                                     (Zpos (Pos.iter xO mx k)) 1)
      as (m & e & Hr & Eb); try lia.
    + split; [lia|]. lia.
    + rewrite Pos_iter_xO.
      rewrite (@Zdigits2_unique (Zpos mx * 2 ^ Zpos k) (d + Zpos k));
        [|split|apply Z.mul_pos_pos; lia].
      * assert (He1 : e1 = Z.max (d + ex - 53) (-1074)) by reflexivity.
        rewrite fexp_eq. lia.
      * replace (d + Zpos k - 1) with ((d - 1) + Zpos k) by lia.
        rewrite pow2_split by lia. nia.
      * rewrite pow2_split by lia. nia.
    + exists (Zpos (Pos.iter xO mx k)), e1, m, e.
      split; [lia|]. split; [rewrite Pos_iter_xO, Hk; reflexivity|].
      split; [exact Hr|exact Eb].
Qed.

(** An integer of at most 53 digits, or [2 ^ 53], is rounded to itself. *)
Lemma binary_round_exact (sx : bool) (p : positive) :
  Zpos p <= 2 ^ 53 ->
  valid_binary (binary_round prec emax sx p 0) = true
  /\ is_finite_spec (binary_round prec emax sx p 0) = true
  /\ (Q_of_spec (binary_round prec emax sx p 0)
      == inject_Z (if sx then Zneg p else Zpos p))%Q.
Proof.
  intros Hp.
  destruct (binary_round_spec sx p 0) as (mz & ez & m & e & Hez & Emz & Hr & Eb).
  rewrite Eb. rewrite Z.sub_0_l in Emz.
  assert (Hpz : 0 < 2 ^ (- ez)) by (apply pow2_pos; lia).
  assert (Hmz : 0 <= mz) by nia.
  pose proof (@float_of_rounding_valid sx mz 1 ez m e ltac:(lia) Hr) as Hv.
  split; [exact Hv|].
  assert (Hfin : is_finite_spec (float_of_rounding sx m e) = true).
  { destruct (is_finite_spec (float_of_rounding sx m e)) eqn:Hfin; [reflexivity|].
    destruct (@rounding_overflow sx mz 1 ez m e ltac:(lia) Hmz Hez Hr Hfin)
      as [_ Hth].
    exfalso. rewrite Emz, Z.mul_1_l in Hth.
    assert (HK : 2 ^ 53 < (2 ^ 54 - 1) * 2 ^ 970) by reflexivity.
    nia. }
  split; [exact Hfin|].
  set (L := Z.min ez (-1074)).
  pose proof Hr as (Hex & He & Hm & _).
  rewrite (@Q_of_rounding sx m e L) by (assumption || lia).
  assert (HD : 0 < 2 ^ (- L)) by (apply pow2_pos; lia).
  assert (EA : mz * 2 ^ (ez - L) = Zpos p * 2 ^ (- L)).
  { rewrite Emz, <- Z.mul_assoc, <- pow2_split by lia. do 2 f_equal. lia. }
  assert (Hexact : m * 2 ^ (e - L) * 1 = mz * 2 ^ (ez - L)).
  { assert (Hc : exists z e', Z.abs z < 2 ^ 53 /\ -1074 <= e'
                              /\ z * 2 ^ (e' - L) * 1 = mz * 2 ^ (ez - L)).
    { destruct (Z.eq_dec (Zpos p) (2 ^ 53)) as [E53|Hn53].
      - exists (2 ^ 52), 1. split; [reflexivity|]. split; [lia|].
        rewrite EA, E53. replace (1 - L) with (1 + - L) by lia.
        rewrite pow2_split by lia.
        change (2 ^ 53) with (2 ^ 52 * 2 ^ 1). ring.
      - exists (Zpos p), 0. split; [lia|]. split; [lia|].
        rewrite EA, Z.sub_0_l. ring. }
    destruct Hc as (z & e' & Hz & He' & Ez).
    pose proof (@rounds_to_nearest mz 1 ez m e z e' L ltac:(lia) Hmz Hr Hz He'
                                   ltac:(lia) ltac:(lia)) as Hn.
    rewrite Ez, Z.sub_diag in Hn. simpl Z.abs in Hn. lia. }
  rewrite Z.mul_1_r, EA in Hexact.
  unfold Qeq. cbn [Qnum Qden inject_Z]. rewrite Z2Pos.id by lia.
  destruct sx; [|lia].
  change (Z.neg p) with (- Zpos p). nia.
Qed.

(** The Number of an integer of at most 53 digits is that integer. *)
Lemma float_of_Z_exact (z : Z) :
  Z.abs z <= 2 ^ 53 ->
  finiteb (float_of_Z z) = true /\ (Q_of_float (float_of_Z z) == inject_Z z)%Q.
Proof.
  intros Hz. unfold float_of_Z, finiteb, Q_of_float, binary_normalize.
  destruct z as [|p|p].
  - rewrite Prim2SF_SF2Prim by reflexivity. split; reflexivity.
  - destruct (@binary_round_exact false p ltac:(lia)) as (Hv & Hf & Hq).
    rewrite Prim2SF_SF2Prim by exact Hv. split; [exact Hf|exact Hq].
  - destruct (@binary_round_exact true p ltac:(lia)) as (Hv & Hf & Hq).
    rewrite Prim2SF_SF2Prim by exact Hv. split; [exact Hf|exact Hq].
Qed.

(* ================================================================== *)
(** * Statistics aggregator *)
(* ================================================================== *)

Lemma getStats_eq (d : Database) (cutoffOf : float -> option jsstring)
      (days : float) (cutoffISO : jsstring) :
  cutoffOf days = Some cutoffISO ->
  getStats (Some d) cutoffOf days
  = Returned
      (Fulfilled
         {| Stats.glucose :=
              glucose_stats (filter (fun r => key_leb cutoffISO (keyOf r))
                                    (index (glucoseStore d)));
            Stats.pressure :=
              pressure_stats (filter (fun r => key_leb cutoffISO (keyOf r))
                                     (index (pressureStore d))) |}).
Proof.
  intros E. unfold getStats. now rewrite E, !getFilteredRecords_eq.
Qed.

(** With an invalid date [getStats] throws, whatever the database. *)
Lemma getStats_invalid_date (db : option Database)
      (cutoffOf : float -> option jsstring) (days : float) :
  cutoffOf days = None -> getStats db cutoffOf days = Thrown RangeError.
Proof. intros E. unfold getStats. now rewrite E. Qed.

Lemma filter_none {T : Type} (f : T -> bool) (l l' : list T) :
  Permutation l l' -> (forall x, In x l' -> f x = false) -> filter f l = [].
Proof.
  intros Hp Hnone.
  destruct (filter f l) as [|x rest] eqn:E; [reflexivity|].
  assert (Hx : In x (filter f l)) by (rewrite E; now left).
  apply filter_In in Hx as [Hx Hfx].
  rewrite (Hnone x) in Hfx; [discriminate|].
  eapply Permutation_in; eauto.
Qed.

Lemma key_lt_leb_false (a b : jsstring) : key_lt a b -> key_leb b a = false.
Proof.
  unfold key_lt, key_leb. rewrite (key_compare_antisym a b).
  now intros ->.
Qed.

(** C3. For every [days]: when the date it leaves is invalid, [getStats]
    throws a [RangeError] and looks for no record; otherwise it fulfils,
    and when no record of a collection is in the window it does so with
    [count] 0 and [null] for every average, minimum and maximum of that
    collection (and so with neither [NaN] nor 0 for any of them). *)
Theorem getStats_empty_window
        (d : Database) (cutoffOf : float -> option jsstring) (days : float) :
  (cutoffOf days = None -> getStats (Some d) cutoffOf days = Thrown RangeError)
  /\ forall cutoffISO,
      cutoffOf days = Some cutoffISO ->
      exists stats,
        getStats (Some d) cutoffOf days = Returned (Fulfilled stats)
        /\ ((forall r, In r (entries (glucoseStore d)) ->
                       key_lt (keyOf r) cutoffISO) ->
            Stats.glucose stats
            = {| GlucoseStats.count := 0;
                 GlucoseStats.average := None;
                 GlucoseStats.min := None;
                 GlucoseStats.max := None |})
        /\ ((forall r, In r (entries (pressureStore d)) ->
                       key_lt (keyOf r) cutoffISO) ->
            Stats.pressure stats
            = {| PressureStats.count := 0;
                 PressureStats.avgSystolic := None;
                 PressureStats.avgDiastolic := None;
                 PressureStats.minSystolic := None;
                 PressureStats.maxSystolic := None;
                 PressureStats.minDiastolic := None;
                 PressureStats.maxDiastolic := None |})
        /\ (GlucoseStats.count (Stats.glucose stats) = 0%nat ->
            GlucoseStats.average (Stats.glucose stats) = None
            /\ GlucoseStats.min (Stats.glucose stats) = None
            /\ GlucoseStats.max (Stats.glucose stats) = None)
        /\ (PressureStats.count (Stats.pressure stats) = 0%nat ->
            PressureStats.avgSystolic (Stats.pressure stats) = None
            /\ PressureStats.avgDiastolic (Stats.pressure stats) = None
            /\ PressureStats.minSystolic (Stats.pressure stats) = None
            /\ PressureStats.maxSystolic (Stats.pressure stats) = None
            /\ PressureStats.minDiastolic (Stats.pressure stats) = None
            /\ PressureStats.maxDiastolic (Stats.pressure stats) = None).
Proof.
  split; [apply getStats_invalid_date|].
  intros cutoffISO Ecut.
  eexists. split; [exact (@getStats_eq d cutoffOf days cutoffISO Ecut)|].
  cbn [Stats.glucose Stats.pressure].
  split; [|split; [|split]].
  - intros Hold. erewrite filter_none; [reflexivity|apply index_perm|].
    intros r Hr. now apply key_lt_leb_false, Hold.
  - intros Hold. erewrite filter_none; [reflexivity|apply index_perm|].
    intros r Hr. now apply key_lt_leb_false, Hold.
  - destruct (filter _ (index (glucoseStore d))); simpl; [auto|discriminate].
  - destruct (filter _ (index (pressureStore d))); simpl;
      [repeat split|discriminate].
Qed.

(** Nothing in the window of a database with three readings of March; and
    no statistics for a number of days that is not one. *)
Example getStats_empty_window_three_readings :
  getStats (Some three_readings)
           (fun _ => Some (js "2024-04-01T00:00:00.000Z"%string)) 7
  = Returned
      (Fulfilled
         {| Stats.glucose := GlucoseStats.mk 0 None None None;
            Stats.pressure := PressureStats.mk 0 None None None None None None |})
  /\ getStats (Some three_readings)
              (fun days => if is_nan days then None else Some t1) nan
     = Thrown RangeError.
Proof. split; vm_compute; reflexivity. Qed.

Lemma getStats_empty_window_witness :
  exists stats,
    getStats (Some three_readings)
             (fun days => if is_nan days then None
                          else Some (js "2024-04-01T00:00:00.000Z"%string)) 7
    = Returned (Fulfilled stats)
    /\ Stats.glucose stats = GlucoseStats.mk 0 None None None
    /\ Stats.pressure stats = PressureStats.mk 0 None None None None None None.
Proof.
  destruct (@getStats_empty_window
              three_readings
              (fun days => if is_nan days then None
                           else Some (js "2024-04-01T00:00:00.000Z"%string))
              7%float) as [_ Hvalid].
  destruct (Hvalid _ eq_refl) as (stats & E & Hg & Hp & _).
  exists stats. split; [exact E|]. split.
  - apply Hg. intros r Hr. simpl in Hr.
    destruct Hr as [<-|[<-|[<-|[]]]]; vm_compute; reflexivity.
  - apply Hp. intros r [].
Defined.

(* ------------------------------------------------------------------ *)
(** ** The order of Numbers *)

Ltac compare_cases :=
  repeat match goal with
         | |- context [Z.compare ?a ?b] => destruct (Z.compare_spec a b)
         | |- context [PosDef.Pos.compare_cont Eq ?a ?b] =>
           change (PosDef.Pos.compare_cont Eq a b) with (Pos.compare a b);
           destruct (Pos.compare_spec a b)
         end.

Lemma SFleb_trans (a b c : spec_float) :
  SFleb a b = true -> SFleb b c = true -> SFleb a c = true.
Proof.
  unfold SFleb, SFcompare.
  destruct a as [sa|sa| |sa ma ea], b as [sb|sb| |sb mb eb],
           c as [sc|sc| |sc mc ec];
    try destruct sa; try destruct sb; try destruct sc;
      try (simpl; congruence);
      compare_cases; simpl; try congruence; try lia.
Qed.

Lemma SFltb_leb (a b : spec_float) : SFltb a b = true -> SFleb a b = true.
Proof.
  unfold SFltb, SFleb. destruct (SFcompare a b) as [[| |]|]; congruence.
Qed.

Lemma SFleb_total (a b : spec_float) :
  a <> S754_nan -> b <> S754_nan -> SFltb b a = false -> SFleb a b = true.
Proof.
  unfold SFleb, SFltb, SFcompare.
  destruct a as [sa|sa| |sa ma ea], b as [sb|sb| |sb mb eb];
    try destruct sa; try destruct sb; try (simpl; congruence);
      compare_cases; simpl; try congruence; try lia.
Qed.

Lemma SFleb_refl (a : spec_float) : a <> S754_nan -> SFleb a a = true.
Proof.
  unfold SFleb, SFcompare.
  destruct a as [sa|sa| |sa ma ea]; try destruct sa; try (simpl; congruence);
    compare_cases; simpl; try congruence; try lia.
Qed.

Lemma is_nan_false (x : float) : is_nan x = false -> Prim2SF x <> S754_nan.
Proof.
  unfold is_nan. rewrite FloatAxioms.eqb_spec. intros Hx E. rewrite E in Hx. discriminate.
Qed.

Lemma is_zero_true (x : float) :
  is_zero x = true -> exists s, Prim2SF x = S754_zero s.
Proof.
  unfold is_zero. rewrite FloatAxioms.eqb_spec.
  change (Prim2SF zero) with (S754_zero false).
  destruct (Prim2SF x) as [s|s| |s m e]; try destruct s; try discriminate; eauto.
Qed.

Lemma fle_trans (x y z : float) : fle x y -> fle y z -> fle x z.
Proof. unfold fle. rewrite !FloatAxioms.leb_spec. apply SFleb_trans. Qed.

Lemma fle_refl (x : float) : is_nan x = false -> fle x x.
Proof.
  intros Hx. unfold fle. rewrite FloatAxioms.leb_spec. now apply SFleb_refl, is_nan_false.
Qed.

Lemma flt_fle (x y : float) : (x <? y)%float = true -> fle x y.
Proof. unfold fle. rewrite FloatAxioms.ltb_spec, FloatAxioms.leb_spec. apply SFltb_leb. Qed.

Lemma not_flt_fle (x y : float) :
  is_nan x = false -> is_nan y = false -> (y <? x)%float = false -> fle x y.
Proof.
  intros Hx Hy. unfold fle. rewrite FloatAxioms.ltb_spec, FloatAxioms.leb_spec.
  apply SFleb_total; now apply is_nan_false.
Qed.

Lemma zeros_fle (x y : float) : is_zero x = true -> is_zero y = true -> fle x y.
Proof.
  intros Hx Hy. apply is_zero_true in Hx as [sx Hx], Hy as [sy Hy].
  unfold fle. now rewrite FloatAxioms.leb_spec, Hx, Hy.
Qed.

Lemma fle_infinity (x : float) : fle infinity x -> x = infinity.
Proof.
  unfold fle. rewrite FloatAxioms.leb_spec.
  change (Prim2SF infinity) with (S754_infinity false).
  intros Hle. rewrite <- (SF2Prim_Prim2SF x).
  destruct (Prim2SF x) as [s|s| |s m e]; try destruct s; try discriminate.
  reflexivity.
Qed.

Lemma fle_neg_infinity (x : float) : fle x neg_infinity -> x = neg_infinity.
Proof.
  unfold fle. rewrite FloatAxioms.leb_spec.
  change (Prim2SF neg_infinity) with (S754_infinity true).
  intros Hle. rewrite <- (SF2Prim_Prim2SF x).
  destruct (Prim2SF x) as [s|s| |s m e]; try destruct s; try discriminate.
  reflexivity.
Qed.

(* ------------------------------------------------------------------ *)
(** ** [Math.min] and [Math.max] *)

Lemma Math_min_step_spec (lowest number : float) :
  is_nan lowest = false -> is_nan number = false ->
  (Math_min_step lowest number = lowest \/ Math_min_step lowest number = number)
  /\ is_nan (Math_min_step lowest number) = false
  /\ fle (Math_min_step lowest number) lowest
  /\ fle (Math_min_step lowest number) number.
Proof.
  intros Hl Hn. unfold Math_min_step. rewrite Hl, Hn. cbn [orb].
  destruct (is_neg_zero number && is_pos_zero lowest) eqn:Ez.
  - unfold is_neg_zero, is_pos_zero in Ez.
    rewrite !andb_true_iff in Ez. destruct Ez as [[Hzn _] [Hzl _]].
    repeat split; auto using zeros_fle, fle_refl.
  - destruct (number <? lowest)%float eqn:Elt.
    + repeat split; auto using flt_fle, fle_refl.
    + repeat split; auto using not_flt_fle, fle_refl.
Qed.

Lemma Math_min_fold (values : list float) :
  no_NaN values ->
  forall lowest,
    is_nan lowest = false ->
    let m := fold_left Math_min_step values lowest in
    is_nan m = false
    /\ (m = lowest \/ In m values)
    /\ fle m lowest
    /\ Forall (fun v => fle m v) values.
Proof.
  induction 1 as [|v values Hv _ IH]; intros lowest Hl; simpl.
  - repeat split; auto using fle_refl.
  - destruct (@Math_min_step_spec lowest v Hl Hv) as (Hor & Hnan & Hle1 & Hle2).
    destruct (IH _ Hnan) as (Hm & Hin & Hle & Hall).
    repeat split; auto.
    + destruct Hin as [->|Hin]; [|now right; right].
      destruct Hor as [->| ->]; auto.
    + eapply fle_trans; eauto.
    + constructor; auto. eapply fle_trans; eauto.
Qed.

Lemma Math_min_minimum (values : list float) :
  values <> [] -> no_NaN values -> minimum_of values (Math_min values).
Proof.
  intros Hne Hnan.
  destruct (@Math_min_fold values Hnan infinity eq_refl) as (_ & Hin & _ & Hall).
  fold (Math_min values) in *.
  split; [|exact Hall].
  destruct Hin as [E|Hin]; [|exact Hin].
  destruct values as [|v values]; [tauto|].
  inversion Hall as [|? ? Hv _]; subst.
  rewrite E in Hv. apply fle_infinity in Hv. rewrite E, Hv. now left.
Qed.

Lemma Math_max_step_spec (highest number : float) :
  is_nan highest = false -> is_nan number = false ->
  (Math_max_step highest number = highest \/ Math_max_step highest number = number)
  /\ is_nan (Math_max_step highest number) = false
  /\ fle highest (Math_max_step highest number)
  /\ fle number (Math_max_step highest number).
Proof.
  intros Hh Hn. unfold Math_max_step. rewrite Hh, Hn. cbn [orb].
  destruct (is_pos_zero number && is_neg_zero highest) eqn:Ez.
  - unfold is_neg_zero, is_pos_zero in Ez.
    rewrite !andb_true_iff in Ez. destruct Ez as [[Hzn _] [Hzh _]].
    repeat split; auto using zeros_fle, fle_refl.
  - destruct (highest <? number)%float eqn:Elt.
    + repeat split; auto using flt_fle, fle_refl.
    + repeat split; auto using not_flt_fle, fle_refl.
Qed.

Lemma Math_max_fold (values : list float) :
  no_NaN values ->
  forall highest,
    is_nan highest = false ->
    let m := fold_left Math_max_step values highest in
    is_nan m = false
    /\ (m = highest \/ In m values)
    /\ fle highest m
    /\ Forall (fun v => fle v m) values.
Proof.
  induction 1 as [|v values Hv _ IH]; intros highest Hh; simpl.
  - repeat split; auto using fle_refl.
  - destruct (@Math_max_step_spec highest v Hh Hv) as (Hor & Hnan & Hle1 & Hle2).
    destruct (IH _ Hnan) as (Hm & Hin & Hle & Hall).
    repeat split; auto.
    + destruct Hin as [->|Hin]; [|now right; right].
      destruct Hor as [->| ->]; auto.
    + eapply fle_trans; eauto.
    + constructor; auto. eapply fle_trans; eauto.
Qed.

Lemma Math_max_maximum (values : list float) :
  values <> [] -> no_NaN values -> maximum_of values (Math_max values).
Proof.
  intros Hne Hnan.
  destruct (@Math_max_fold values Hnan neg_infinity eq_refl)
    as (_ & Hin & _ & Hall).
  fold (Math_max values) in *.
  split; [|exact Hall].
  destruct Hin as [E|Hin]; [|exact Hin].
  destruct values as [|v values]; [tauto|].
  inversion Hall as [|? ? Hv _]; subst.
  rewrite E in Hv. apply fle_neg_infinity in Hv. rewrite E, Hv. now left.
Qed.

(* ------------------------------------------------------------------ *)
(** ** Rounding *)

Lemma round_half_up_nearest (z e : Z) :
  nearest_integer
    (if 0 <=? e then inject_Z (z * 2 ^ e) else z # Z.to_pos (2 ^ (- e)))
    (round_half_up z e).
Proof.
  unfold round_half_up, nearest_integer.
  destruct (Z.leb_spec 0 e) as [He|He].
  - unfold Qle, Qlt; simpl; lia.
  - assert (Hd : 0 < 2 ^ (- e)) by (apply Z.pow_pos_nonneg; lia).
    set (d := 2 ^ (- e)) in *.
    pose proof (Z.div_mod (2 * z + d) (2 * d) ltac:(lia)) as Hdiv.
    pose proof (Z.mod_pos_bound (2 * z + d) (2 * d) ltac:(lia)) as Hmod.
    set (n := (2 * z + d) / (2 * d)) in *.
    unfold Qle, Qlt; simpl. rewrite Z2Pos.id by lia. lia.
Qed.

Lemma nearest_integer_Qeq (q q' : Q) (n : Z) :
  (q == q')%Q -> nearest_integer q n -> nearest_integer q' n.
Proof. unfold nearest_integer. now intros ->. Qed.

(** The integer [Math.round] takes has at most 53 binary digits. *)
Lemma round_half_up_bound (z e : Z) :
  Z.abs z < 2 ^ 53 -> e < 0 -> Z.abs (round_half_up z e) <= 2 ^ 53.
Proof.
  intros Hz He. unfold round_half_up.
  destruct (Z.leb_spec 0 e) as [|_]; [lia|].
  assert (Hd : 2 <= 2 ^ (- e)).
  { change 2 with (2 ^ 1) at 1. apply Z.pow_le_mono_r; lia. }
  set (d := 2 ^ (- e)) in *.
  pose proof (Z.div_mod (2 * z + d) (2 * d) ltac:(lia)) as Hdiv.
  pose proof (Z.mod_pos_bound (2 * z + d) (2 * d) ltac:(lia)) as Hmod.
  set (n := (2 * z + d) / (2 * d)) in *.
  assert (HP : 0 < 2 ^ 53) by (apply pow2_pos; lia).
  set (P := 2 ^ 53) in *. nia.
Qed.

Lemma Math_round_rounded (x : float) :
  finiteb x = true -> rounded_to_integer x (Math_round x).
Proof.
  intros Hfin. pose proof (Prim2SF_valid x) as Hv.
  unfold rounded_to_integer, Math_round.
  destruct (Prim2SF x) as [s|s| |s m e] eqn:E;
    try (unfold finiteb in Hfin; rewrite E in Hfin; discriminate).
  - exists 0. unfold Q_of_float. rewrite E.
    split; [unfold nearest_integer, Qle, Qlt; simpl; lia|].
    split; [exact Hfin|reflexivity].
  - cbv zeta. apply bounded_canonical in Hv as [Hm _].
    set (z := if s then Z.neg m else Z.pos m).
    assert (Hz : Z.abs z < 2 ^ 53) by (unfold z; destruct s; simpl Z.abs; lia).
    exists (round_half_up z e).
    split; [unfold Q_of_float; rewrite E; apply round_half_up_nearest|].
    destruct (Z.leb_spec 0 e) as [He|He].
    + split; [exact Hfin|].
      unfold Q_of_float, round_half_up. rewrite E.
      destruct (Z.leb_spec 0 e); [reflexivity|lia].
    + destruct ((round_half_up z e =? 0) && s) eqn:E0.
      * apply andb_true_iff in E0 as [E0 _]. apply Z.eqb_eq in E0.
        rewrite E0. split; reflexivity.
      * apply float_of_Z_exact. now apply round_half_up_bound.
Qed.

Lemma uint_digits_value (d : Decimal.uint) (acc : positive) :
  fold_left (fun a c => 10 * a + digit_value c) (uint_digits d) (Z.pos acc)
  = Z.pos (Pos.of_uint_acc d acc).
Proof.
  revert acc; induction d; intros acc; cbn [uint_digits fold_left Pos.of_uint_acc];
    auto; rewrite <- IHd; f_equal; unfold digit_value; lia.
Qed.

Lemma uint_digits_value0 (d : Decimal.uint) :
  decimal_value (uint_digits d) = Z.of_N (Pos.of_uint d).
Proof.
  unfold decimal_value.
  induction d; cbn [uint_digits fold_left Pos.of_uint Z.of_N]; auto;
    rewrite <- uint_digits_value; f_equal.
Qed.

Lemma uint_digits_digits (d : Decimal.uint) :
  Forall (fun c => is_digit c = true) (uint_digits d).
Proof. induction d; simpl; constructor; auto. Qed.

Lemma decimal_digits_value (n : Z) :
  0 <= n -> decimal_value (decimal_digits n) = n.
Proof.
  destruct n as [|p|p]; intros Hn; [reflexivity| |lia].
  unfold decimal_digits.
  now rewrite uint_digits_value0, DecimalPos.Unsigned.of_to.
Qed.

Lemma decimal_digits_digits (n : Z) :
  Forall (fun c => is_digit c = true) (decimal_digits n).
Proof.
  destruct n; simpl; try apply uint_digits_digits; repeat constructor.
Qed.

Lemma decimal_digits_one (n : Z) :
  0 <= n <= 9 -> digits 1 1 (decimal_digits n).
Proof.
  intros Hn. split; [apply decimal_digits_digits|].
  assert (Hlen : (length (decimal_digits n) =? 1)%nat = true).
  { apply (@forall_below (fun k => (length (decimal_digits k) =? 1)%nat) 10);
      [reflexivity|lia]. }
  apply Nat.eqb_eq in Hlen. lia.
Qed.

Lemma toFixed1_n_nearest (x : float) :
  0 <= toFixed1_n x
  /\ nearest_integer (10 * Qabs (Q_of_float x)) (toFixed1_n x).
Proof.
  unfold toFixed1_n, Q_of_float.
  destruct (Prim2SF x) as [s|s| |s m e];
    try (split; [lia|unfold nearest_integer, Qle, Qlt; simpl; lia]).
  cbv zeta. split.
  - unfold round_half_up.
    destruct (Z.leb_spec 0 e) as [He|He].
    + apply Z.mul_nonneg_nonneg; [lia|apply Z.pow_nonneg; lia].
    + assert (0 < 2 ^ (- e)) by (apply Z.pow_pos_nonneg; lia).
      apply Z.div_pos; lia.
  - eapply nearest_integer_Qeq; [|apply round_half_up_nearest].
    set (z := if s then Z.neg m else Z.pos m).
    assert (Hz : Z.abs z = Z.pos m) by (destruct s; reflexivity).
    destruct (0 <=? e).
    + unfold Qeq, Qabs, Qmult, inject_Z; cbn [Qnum Qden].
      rewrite Z.abs_mul, Hz, (Z.abs_eq (2 ^ e)) by (apply Z.pow_nonneg; lia).
      change (Qnum 10) with 10. lia.
    + unfold Qeq, Qabs, Qmult; cbn [Qnum Qden].
      rewrite Hz. change (Qnum 10) with 10. change (Qden 10) with 1%positive.
      lia.
Qed.

Lemma nzhead_head (d : Decimal.uint) :
  match Decimal.nzhead d with
  | Decimal.D0 _ => False
  | _ => True
  end.
Proof. induction d; simpl; auto. Qed.

(** The digits of a positive number do not start with a zero. *)
Lemma to_uint_head (p : positive) :
  match Pos.to_uint p with
  | Decimal.D0 _ | Decimal.Nil => False
  | _ => True
  end.
Proof.
  pose proof (DecimalPos.Unsigned.to_of (Pos.to_uint p)) as E.
  rewrite DecimalPos.Unsigned.of_to in E.
  change (N.to_uint (N.pos p)) with (Pos.to_uint p) in E.
  pose proof (DecimalPos.Unsigned.to_uint_nonzero p) as Hnz.
  pose proof (DecimalPos.Unsigned.to_uint_nonnil p) as Hnn.
  destruct (Pos.to_uint p) as [|d| | | | | | | | |]; auto.
  unfold Decimal.unorm in E. cbn [Decimal.nzhead] in E.
  pose proof (nzhead_head d) as Hh.
  destruct (Decimal.nzhead d) eqn:Ed; try discriminate.
  - injection E as ->. now apply Hnz.
  - exact Hh.
Qed.

Lemma decimal_digits_no_leading_zero (n : Z) : no_leading_zero (decimal_digits n).
Proof.
  destruct n as [|p|p]; try (now left).
  right. unfold decimal_digits.
  pose proof (to_uint_head p) as Hh.
  destruct (Pos.to_uint p); try tauto; cbn [uint_digits];
    eexists; eexists; (split; [reflexivity|discriminate]).
Qed.

Lemma toFixed1_rounded (x : float) :
  is_nan x = false -> is_infinity x = false -> (1e21 <=? abs x)%float = false ->
  rounded_to_one_decimal x (toFixed1 x).
Proof.
  intros Hnan Hinf Hbig. unfold toFixed1. rewrite Hnan, Hinf, Hbig.
  destruct (toFixed1_n_nearest x) as [Hn Hnear].
  set (n := toFixed1_n x) in *.
  exists n, (decimal_digits (n / 10)), (decimal_digits (n mod 10)).
  pose proof (Z.mod_pos_bound n 10 ltac:(lia)).
  pose proof (Z.div_pos n 10 Hn ltac:(lia)).
  split; [exact Hnear|]. split; [reflexivity|].
  split; [apply decimal_digits_digits|].
  split; [apply decimal_digits_no_leading_zero|].
  split; [now apply decimal_digits_value|].
  split; [apply decimal_digits_one; lia|].
  apply decimal_digits_value; lia.
Qed.

Lemma printed_to_one_decimal_toFixed1 (x : float) :
  printed_to_one_decimal x (toFixed1 x).
Proof.
  unfold printed_to_one_decimal.
  destruct (is_nan x) eqn:Hnan; [unfold toFixed1; now rewrite Hnan|].
  destruct (is_infinity x) eqn:Hinf; [unfold toFixed1; now rewrite Hnan, Hinf|].
  destruct (1e21 <=? abs x)%float eqn:Hbig;
    [unfold toFixed1; now rewrite Hnan, Hinf, Hbig|].
  now apply toFixed1_rounded.
Qed.

Lemma Math_min_step_nan (lowest number : float) :
  is_nan lowest = true \/ is_nan number = true ->
  Math_min_step lowest number = nan.
Proof.
  unfold Math_min_step. intros [-> | ->]; [reflexivity|now rewrite orb_true_r].
Qed.

Lemma Math_max_step_nan (highest number : float) :
  is_nan highest = true \/ is_nan number = true ->
  Math_max_step highest number = nan.
Proof.
  unfold Math_max_step. intros [-> | ->]; [reflexivity|now rewrite orb_true_r].
Qed.

(** One [NaN] among the values makes the minimum and the maximum [NaN]. *)
Lemma Math_min_nan (values : list float) :
  Exists (fun v => is_nan v = true) values -> is_nan (Math_min values) = true.
Proof.
  assert (Hacc : forall vs lowest,
             is_nan lowest = true ->
             is_nan (fold_left Math_min_step vs lowest) = true).
  { induction vs as [|v vs IH]; intros lowest Hl; simpl; [exact Hl|].
    apply IH. now rewrite Math_min_step_nan by auto. }
  intros Hex. unfold Math_min. generalize infinity.
  induction Hex as [v vs Hv|v vs _ IH]; intros lowest; simpl.
  - apply Hacc. now rewrite Math_min_step_nan by auto.
  - apply IH.
Qed.

Lemma Math_max_nan (values : list float) :
  Exists (fun v => is_nan v = true) values -> is_nan (Math_max values) = true.
Proof.
  assert (Hacc : forall vs highest,
             is_nan highest = true ->
             is_nan (fold_left Math_max_step vs highest) = true).
  { induction vs as [|v vs IH]; intros highest Hh; simpl; [exact Hh|].
    apply IH. now rewrite Math_max_step_nan by auto. }
  intros Hex. unfold Math_max. generalize neg_infinity.
  induction Hex as [v vs Hv|v vs _ IH]; intros highest; simpl.
  - apply Hacc. now rewrite Math_max_step_nan by auto.
  - apply IH.
Qed.

Lemma exact_extrema_Math (values : list float) :
  values <> [] ->
  exact_extrema values (Some (Math_min values)) (Some (Math_max values)).
Proof.
  intros Hne. exists (Math_min values), (Math_max values).
  split; [reflexivity|]. split; [reflexivity|]. split.
  - intros Hnan. split; [now apply Math_min_minimum|now apply Math_max_maximum].
  - intros Hnan. split; [now apply Math_min_nan|now apply Math_max_nan].
Qed.

(** [reduce] adds the values as the floating-point sum is defined. *)
Lemma float_sum_sum (values : list float) : float_sum values (sum values).
Proof.
  induction values as [|v values IH] using rev_ind; [constructor|].
  unfold sum. rewrite fold_left_app. cbn [fold_left]. now constructor.
Qed.

(** The floating-point sum of a list is one Number. *)
Lemma float_sum_unique (values : list float) (s s' : float) :
  float_sum values s -> float_sum values s' -> s = s'.
Proof.
  intros Hs. revert s'.
  induction Hs as [|values s v Hs IH]; intros s' Hs'.
  - inversion Hs' as [|values' t w _ E]; [reflexivity|].
    symmetry in E. now apply app_cons_not_nil in E.
  - inversion Hs' as [E|values' t w Ht E].
    + now apply app_cons_not_nil in E.
    + apply app_inj_tail in E as [-> ->]. now rewrite (IH t Ht).
Qed.

Lemma count_Number_length (values : list float) :
  count_Number values (length_number values).
Proof.
  split; [reflexivity|]. intros Hlen. apply float_of_Z_exact. lia.
Qed.

Lemma float_average_quotient (values : list float) :
  float_average values (sum values / length_number values)%float.
Proof.
  exists (sum values), (length_number values).
  split; [apply float_sum_sum|]. split; [apply count_Number_length|reflexivity].
Qed.

Lemma average_to_one_decimal_toFixed1 (values : list float) :
  average_to_one_decimal
    values (Some (toFixed1 (sum values / length_number values))).
Proof.
  eexists. eexists. split; [apply float_average_quotient|].
  split; [reflexivity|apply printed_to_one_decimal_toFixed1].
Qed.

Lemma average_to_integer_Math_round (values : list float) :
  average_to_integer
    values (Some (Math_round (sum values / length_number values))).
Proof.
  eexists. eexists. split; [apply float_average_quotient|].
  split; [reflexivity|].
  set (avg := (sum values / length_number values)%float).
  destruct (finiteb avg) eqn:Hfin; [now apply Math_round_rounded|].
  unfold Math_round. unfold finiteb in Hfin.
  destruct (Prim2SF avg); try discriminate; reflexivity.
Qed.

(** C7. For the records in the window of a collection, if there is any,
    [getStats] (when the date is valid) yields: for glucose, the
    floating-point sum of the values divided by their count, printed by
    [toFixed(1)], which rounds it to one decimal place when it is finite
    and below 1e21 and prints it unrounded, by name or in exponent
    notation, otherwise; for pressure, the two such averages rounded to the
    nearest integer when they are finite; and as minimum and maximum the
    least and the greatest stored value themselves. *)
Theorem getStats_averages_rounded_extrema_exact
        (d : Database) (cutoffOf : float -> option jsstring) (days : float)
        (cutoffISO : jsstring)
        (glucoseRecords : list (Stored Glucose.t))
        (pressureRecords : list (Stored Pressure.t)) :
  cutoffOf days = Some cutoffISO ->
  getFilteredRecords (Some d) glucose cutoffISO = Fulfilled glucoseRecords ->
  getFilteredRecords (Some d) pressure cutoffISO = Fulfilled pressureRecords ->
  exists stats,
    getStats (Some d) cutoffOf days = Returned (Fulfilled stats)
    /\ (glucoseRecords <> [] ->
        glucose_stats_spec glucoseRecords (Stats.glucose stats))
    /\ (pressureRecords <> [] ->
        pressure_stats_spec pressureRecords (Stats.pressure stats)).
Proof.
  intros Ecut Hg Hp. unfold getStats. rewrite Ecut, Hg, Hp.
  eexists; split; [reflexivity|]. cbn [Stats.glucose Stats.pressure].
  split.
  - intros Hne. destruct glucoseRecords as [|r l]; [tauto|].
    unfold glucose_stats_spec, glucose_stats.
    cbn [GlucoseStats.count GlucoseStats.average GlucoseStats.min GlucoseStats.max].
    split; [reflexivity|].
    split; [apply average_to_one_decimal_toFixed1|].
    apply exact_extrema_Math. discriminate.
  - intros Hne. destruct pressureRecords as [|r l]; [tauto|].
    unfold pressure_stats_spec, pressure_stats.
    cbn [PressureStats.count PressureStats.avgSystolic PressureStats.avgDiastolic
         PressureStats.minSystolic PressureStats.maxSystolic
         PressureStats.minDiastolic PressureStats.maxDiastolic].
    split; [reflexivity|].
    split; [apply average_to_integer_Math_round|].
    split; [apply average_to_integer_Math_round|].
    split; apply exact_extrema_Math; discriminate.
Qed.

(** The statistics of [mixed_readings] over a window that holds all of it:
    glucose 6.4 and 7.25 average to "6.8", pressures 130/85 and 121/78 to
    126 over 82. *)
Example getStats_mixed_readings :
  getStats (Some mixed_readings) (fun _ => Some t1) 7
  = Returned
      (Fulfilled
         {| Stats.glucose :=
              GlucoseStats.mk 2 (Some (Str (js "6.8"%string)))
                              (Some 6.4%float) (Some 7.25%float);
            Stats.pressure :=
              PressureStats.mk 2 (Some 126%float) (Some 82%float)
                               (Some 121%float) (Some 130%float)
                               (Some 78%float) (Some 85%float) |}).
Proof. vm_compute. reflexivity. Qed.

Lemma getStats_averages_rounded_extrema_exact_witness :
  exists glucoseRecords pressureRecords,
    getFilteredRecords (Some mixed_readings) glucose t1 = Fulfilled glucoseRecords
    /\ getFilteredRecords (Some mixed_readings) pressure t1
       = Fulfilled pressureRecords
    /\ glucoseRecords <> [] /\ pressureRecords <> []
    /\ exists stats,
        getStats (Some mixed_readings) (fun _ => Some t1) 7
        = Returned (Fulfilled stats)
        /\ (glucoseRecords <> [] ->
            glucose_stats_spec glucoseRecords (Stats.glucose stats))
        /\ (pressureRecords <> [] ->
            pressure_stats_spec pressureRecords (Stats.pressure stats)).
Proof.
  eexists. eexists.
  split; [vm_compute; reflexivity|].
  split; [vm_compute; reflexivity|].
  split; [discriminate|]. split; [discriminate|].
  apply (@getStats_averages_rounded_extrema_exact
           mixed_readings (fun _ => Some t1) 7%float t1);
    vm_compute; reflexivity.
Defined.

(** An average is not always rounded to one decimal place. The one reading
    1e21 has the average 1e21, which [toFixed(1)] hands to [ToString]: it
    is printed in exponent notation. Two readings of 1e308 have a sum that
    is no finite Number, and the average printed is "Infinity", while
    minimum and maximum are 1e308. *)
Lemma getStats_average_not_one_decimal :
  (exists stats,
      getStats (Some huge_reading) (fun _ => Some t1) 7
      = Returned (Fulfilled stats)
      /\ GlucoseStats.count (Stats.glucose stats) = 1%nat
      /\ GlucoseStats.average (Stats.glucose stats) = Some (ToString 1e21)
      /\ forall x, ~ rounded_to_one_decimal x (ToString 1e21))
  /\ (exists stats,
         getStats (Some overflowing_readings) (fun _ => Some t1) 7
         = Returned (Fulfilled stats)
         /\ GlucoseStats.count (Stats.glucose stats) = 2%nat
         /\ GlucoseStats.average (Stats.glucose stats)
            = Some (Str (js "Infinity"%string))
         /\ GlucoseStats.max (Stats.glucose stats) = Some 1e308%float
         /\ forall x, ~ rounded_to_one_decimal x (Str (js "Infinity"%string))).
Proof.
  split.
  - eexists. split; [vm_compute; reflexivity|].
    split; [reflexivity|]. split; [reflexivity|].
    intros x (n & ip & fp & _ & E & _). discriminate.
  - eexists. split; [vm_compute; reflexivity|].
    split; [reflexivity|]. split; [reflexivity|]. split; [reflexivity|].
    intros x (n & ip & fp & _ & E & Hip & _).
    injection E as E.
    destruct (x <? 0)%float; vm_compute in E; [discriminate|].
    destruct ip as [|c ip]; [discriminate|].
    injection E as <- _. inversion Hip as [|? ? Hc _]. discriminate.
Qed.

(* ================================================================== *)
(** * Further properties of the record store and the queries *)
(* ================================================================== *)

Section NewestRecord.
Context {A : Type} `{Indexed A}.

(** A record added with a key not below the stored ones is the first the
    [prev] cursor yields. *)
Lemma add_newest (st : ObjectStore A) (record : A) :
  Forall (fun x => id x < keyGen st) (entries st) ->
  Forall (fun x => key_le (keyOf x) (recordedAt record)) (entries st) ->
  rev (index (snd (add st record)))
  = mkStored (keyGen st) record :: rev (index st).
Proof.
  intros Hids Hnow. rewrite index_add_last.
  - now rewrite rev_app_distr.
  - rewrite Forall_forall in *. intros x Hx.
    apply index_le_iff.
    specialize (Hids x Hx). specialize (Hnow x Hx).
    apply key_le_cases in Hnow as [Hlt|Heq].
    + left. exact Hlt.
    + right. split; [exact Heq|simpl; lia].
Qed.

End NewestRecord.

(** X1. After [savePressure(systolic, diastolic, notes)] on a store built by
    the save operations, whose records are not from after [now],
    [getRecent('pressure', 1)] yields exactly the record just saved: the id
    the save returned, the two values as given, [recordedAt = now], the
    notes. *)
Theorem savePressure_then_getRecent
        (d : Database) (now : jsstring) (sys dia : float) (notes : jsstring) :
  store_ok (pressureStore d) ->
  Forall (fun r => key_le (keyOf r) now) (entries (pressureStore d)) ->
  exists key db',
    savePressure (Some d) now sys dia notes = (Fulfilled key, db')
    /\ getRecent db' pressure 1
       = Fulfilled [mkStored key (Pressure.mk sys dia now notes)]
    /\ Forall (fun r => id r < key) (entries (pressureStore d)).
Proof.
  intros [_ Hids] Hnow.
  set (record := Pressure.mk sys dia now notes).
  exists (keyGen (pressureStore d)).
  exists (Some {| glucoseStore := glucoseStore d;
                  pressureStore := snd (add (pressureStore d) record) |}).
  split; [reflexivity|]. split; [|exact Hids].
  rewrite getRecent_eq. cbn [objectStore pressureStore].
  now rewrite add_newest.
Qed.

Lemma savePressure_then_getRecent_witness :
  exists key db',
    savePressure (Some mixed_readings) t3 118 76 (js "血压118 76"%string)
    = (Fulfilled key, db')
    /\ getRecent db' pressure 1
       = Fulfilled [mkStored key (Pressure.mk 118 76 t3 (js "血压118 76"%string))]
    /\ Forall (fun r => id r < key) (entries (pressureStore mixed_readings)).
Proof.
  apply (@savePressure_then_getRecent mixed_readings t3 118%float 76%float).
  - split; vm_compute; repeat constructor.
  - repeat constructor; vm_compute; discriminate.
Defined.






Section AddFacts.
Context {A : Type} `{Indexed A}.

(** What a range of the index holds after [add]: what it held, and at most
    the new record. *)
Lemma add_range (st : ObjectStore A) (record : A) (f : Stored A -> bool) :
  incl (filter f (index st)) (filter f (index (snd (add st record))))
  /\ (length (filter f (index (snd (add st record))))
      <= S (length (filter f (index st))))%nat
  /\ (forall x, In x (filter f (index (snd (add st record)))) ->
                In x (filter f (index st)) \/ x = mkStored (keyGen st) record).
Proof.
  assert (Hp : Permutation (filter f (index (snd (add st record))))
                           (filter f (index st)
                                   ++ filter f [mkStored (keyGen st) record])).
  { rewrite (filter_Permutation f (index_perm (snd (add st record)))).
    cbn [add snd entries]. rewrite filter_app.
    apply Permutation_app_tail, filter_Permutation.
    symmetry. apply index_perm. }
  split; [|split].
  - intros x Hx. eapply Permutation_in; [symmetry; exact Hp|].
    apply in_or_app. now left.
  - rewrite (Permutation_length Hp), length_app. simpl.
    destruct (f _); simpl; lia.
  - intros x Hx. apply (Permutation_in _ Hp) in Hx.
    apply in_app_or in Hx as [Hx|Hx]; [now left|right].
    simpl in Hx. destruct (f _); simpl in Hx; [|tauto].
    destruct Hx as [<-|[]]. reflexivity.
Qed.

Lemma filter_length_mono (f g : Stored A -> bool) (l : list (Stored A)) :
  (forall x, f x = true -> g x = true) ->
  (length (filter f l) <= length (filter g l))%nat.
Proof.
  intros Hfg. induction l as [|x l IH]; simpl; [lia|].
  destruct (f x) eqn:Ef.
  - rewrite (Hfg x Ef). simpl. lia.
  - destruct (g x); simpl; lia.
Qed.

End AddFacts.

(** X3. A save loses nothing: for every cutoff, each record the window query
    of a store returned before the save is returned after it; the window of
    the store saved into gains at most one record, the one with the id the
    save returned, and the window of the other store is what it was. *)
Theorem save_keeps_records (d : Database) (op : SaveOp) :
  exists key d',
    save (Some d) op = (Fulfilled key, Some d')
    /\ forall (n : StoreName) (cutoffISO : jsstring),
      exists before after,
        getFilteredRecords (Some d) n cutoffISO = Fulfilled before
        /\ getFilteredRecords (Some d') n cutoffISO = Fulfilled after
        /\ incl before after
        /\ (length after <= S (length before))%nat
        /\ (forall r, In r after -> In r before \/ id r = key)
        /\ (n <> store_of op -> after = before).
Proof.
  destruct op as [now value notes|now sys dia notes]; cbn [save store_of].
  - eexists. eexists. split; [reflexivity|].
    intros n cutoffISO. eexists. eexists.
    split; [apply getFilteredRecords_eq|].
    split; [apply getFilteredRecords_eq|].
    destruct n; cbn [objectStore glucoseStore pressureStore].
    + destruct (add_range (glucoseStore d)
                          (Glucose.mk value (js "mmol/L"%string) now notes)
                          (fun r => key_leb cutoffISO (keyOf r)))
        as (Hincl & Hlen & Hnew).
      repeat split; auto; [|tauto].
      intros r Hr. destruct (Hnew r Hr) as [?| ->]; auto.
    + repeat split; auto using incl_refl.
  - eexists. eexists. split; [reflexivity|].
    intros n cutoffISO. eexists. eexists.
    split; [apply getFilteredRecords_eq|].
    split; [apply getFilteredRecords_eq|].
    destruct n; cbn [objectStore glucoseStore pressureStore].
    + repeat split; auto using incl_refl.
    + destruct (add_range (pressureStore d)
                          (Pressure.mk sys dia now notes)
                          (fun r => key_leb cutoffISO (keyOf r)))
        as (Hincl & Hlen & Hnew).
      repeat split; auto; [|tauto].
      intros r Hr. destruct (Hnew r Hr) as [?| ->]; auto.
Qed.

(** X4. A larger limit only adds older records to what [getRecent] yields:
    the result for [a] is the first [a] records of the result for [b >= a];
    and from the number of stored records on, the result is all of them. *)
Theorem getRecent_larger_limit
        (d : Database) (n : StoreName) (a b : Z) :
  0 <= a <= b ->
  exists ra rb,
    getRecent (Some d) n a = Fulfilled ra
    /\ getRecent (Some d) n b = Fulfilled rb
    /\ ra = firstn (Z.to_nat a) rb
    /\ (Z.of_nat (length (entries (objectStore d n))) <= a ->
        rb = ra /\ Permutation ra (entries (objectStore d n))).
Proof.
  intros Hab. eexists. eexists.
  split; [apply getRecent_eq|]. split; [apply getRecent_eq|].
  set (l := rev (index (objectStore d n))).
  assert (Hlen : length l = length (entries (objectStore d n))).
  { unfold l. rewrite length_rev. apply Permutation_length, index_perm. }
  split.
  - rewrite firstn_firstn. f_equal. lia.
  - intros Hall. rewrite !firstn_all2 by lia. split; [reflexivity|].
    unfold l. rewrite <- Permutation_rev. apply index_perm.
Qed.

Lemma getRecent_larger_limit_witness :
  exists ra rb,
    getRecent (Some three_readings) glucose 1 = Fulfilled ra
    /\ getRecent (Some three_readings) glucose 20 = Fulfilled rb
    /\ ra = firstn (Z.to_nat 1) rb
    /\ (Z.of_nat (length (entries (objectStore three_readings glucose))) <= 1 ->
        rb = ra /\ Permutation ra (entries (objectStore three_readings glucose))).
Proof.
  apply (@getRecent_larger_limit three_readings glucose 1 20). lia.
Defined.

(** X5. The two queries agree: with a cutoff that is not after any record of
    the store and a limit that is not below their number, [getRecent] yields
    the records [getFilteredRecords] yields, in the opposite order. *)
Theorem getRecent_reverses_getFilteredRecords
        (d : Database) (n : StoreName) (cutoffISO : jsstring) (limit : Z) :
  (forall r, In r (entries (objectStore d n)) -> key_le cutoffISO (keyOf r)) ->
  Z.of_nat (length (entries (objectStore d n))) <= limit ->
  exists window,
    getFilteredRecords (Some d) n cutoffISO = Fulfilled window
    /\ getRecent (Some d) n limit = Fulfilled (rev window)
    /\ Permutation window (entries (objectStore d n)).
Proof.
  intros Hcut Hlimit. exists (index (objectStore d n)).
  assert (Hlen : length (index (objectStore d n))
                 = length (entries (objectStore d n)))
    by apply Permutation_length, index_perm.
  split; [|split; [|apply index_perm]].
  - rewrite getFilteredRecords_eq. f_equal.
    apply forallb_filter_id. apply forallb_forall. intros r Hr.
    apply key_leb_le, Hcut.
    eapply Permutation_in; [apply index_perm|exact Hr].
  - rewrite getRecent_eq. f_equal.
    apply firstn_all2. rewrite length_rev. lia.
Qed.

Lemma getRecent_reverses_getFilteredRecords_witness :
  exists window,
    getFilteredRecords (Some three_readings) glucose t1 = Fulfilled window
    /\ getRecent (Some three_readings) glucose 1000 = Fulfilled (rev window)
    /\ Permutation window (entries (objectStore three_readings glucose)).
Proof.
  apply (@getRecent_reverses_getFilteredRecords three_readings glucose t1 1000).
  - intros r Hr. simpl in Hr.
    destruct Hr as [<-|[<-|[<-|[]]]]; vm_compute; discriminate.
  - vm_compute. discriminate.
Defined.

Lemma glucose_stats_count (records : list (Stored Glucose.t)) :
  GlucoseStats.count (glucose_stats records) = length records.
Proof. unfold glucose_stats. now destruct (0 <? length records)%nat. Qed.

Lemma pressure_stats_count (records : list (Stored Pressure.t)) :
  PressureStats.count (pressure_stats records) = length records.
Proof. unfold pressure_stats. now destruct (0 <? length records)%nat. Qed.

Lemma window_length {A : Type} `{Indexed A} (st : ObjectStore A)
      (cutoffISO : jsstring) :
  length (filter (fun r => key_leb cutoffISO (keyOf r)) (index st))
  = length (filter (fun r => key_leb cutoffISO (keyOf r)) (entries st)).
Proof. apply Permutation_length, filter_Permutation, index_perm. Qed.

(** X6. When the dates of two windows are valid, the two counts of
    [getStats] are the numbers of stored records whose [recordedAt] is at
    or after the cutoff, and a window that starts later never counts more:
    if the cutoff for [days2] is not before the one for [days1], each count
    for [days2] is at most the count for [days1], which is at most the
    number of records of the store. *)
Theorem getStats_counts
        (d : Database) (cutoffOf : float -> option jsstring)
        (days1 days2 : float) (cutoff1 cutoff2 : jsstring) :
  cutoffOf days1 = Some cutoff1 ->
  cutoffOf days2 = Some cutoff2 ->
  key_le cutoff1 cutoff2 ->
  exists stats1 stats2,
    getStats (Some d) cutoffOf days1 = Returned (Fulfilled stats1)
    /\ getStats (Some d) cutoffOf days2 = Returned (Fulfilled stats2)
    /\ GlucoseStats.count (Stats.glucose stats1)
       = length (filter (fun r => key_leb cutoff1 (keyOf r))
                        (entries (glucoseStore d)))
    /\ PressureStats.count (Stats.pressure stats1)
       = length (filter (fun r => key_leb cutoff1 (keyOf r))
                        (entries (pressureStore d)))
    /\ (GlucoseStats.count (Stats.glucose stats2)
        <= GlucoseStats.count (Stats.glucose stats1)
        <= length (entries (glucoseStore d)))%nat
    /\ (PressureStats.count (Stats.pressure stats2)
        <= PressureStats.count (Stats.pressure stats1)
        <= length (entries (pressureStore d)))%nat.
Proof.
  intros E1 E2 Hle. eexists. eexists.
  split; [exact (@getStats_eq d cutoffOf days1 cutoff1 E1)|].
  split; [exact (@getStats_eq d cutoffOf days2 cutoff2 E2)|].
  cbn [Stats.glucose Stats.pressure].
  rewrite !glucose_stats_count, !pressure_stats_count, !window_length.
  split; [reflexivity|]. split; [reflexivity|].
  assert (Hsub : forall A (I : Indexed A) (r : Stored A),
             key_leb cutoff2 (keyOf r) = true ->
             key_leb cutoff1 (keyOf r) = true).
  { intros A I r. rewrite !key_leb_le. now apply key_le_trans. }
  split; (split; [apply filter_length_mono, Hsub|apply List.filter_length_le]).
Qed.

(** The counts of [three_readings] since [t2] and since [t3]. *)
Lemma getStats_counts_witness :
  exists stats1 stats2,
    getStats (Some three_readings)
             (fun days => if is_nan days then None
                          else Some (if (days <? 2)%float then t3 else t2)) 3
    = Returned (Fulfilled stats1)
    /\ getStats (Some three_readings)
                (fun days => if is_nan days then None
                             else Some (if (days <? 2)%float then t3 else t2)) 1
       = Returned (Fulfilled stats2)
    /\ GlucoseStats.count (Stats.glucose stats1) = 2%nat
    /\ GlucoseStats.count (Stats.glucose stats2) = 1%nat.
Proof.
  destruct (@getStats_counts
              three_readings
              (fun days => if is_nan days then None
                           else Some (if (days <? 2)%float then t3 else t2))
              3%float 1%float t2 t3)
    as (stats1 & stats2 & H1 & H2 & Hc1 & _ & _ & _).
  - reflexivity.
  - reflexivity.
  - vm_compute. discriminate.
  - exists stats1, stats2. split; [exact H1|]. split; [exact H2|].
    split; [rewrite Hc1; reflexivity|].
    vm_compute in H2. injection H2 as <-. reflexivity.
Defined.

(* ================================================================== *)
(** * Further properties of the text extractor *)
(* ================================================================== *)

Lemma parseFloat_decimal (ip fp : jsstring) :
  Forall (fun c => is_digit c = true) ip -> ip <> [] ->
  Forall (fun c => is_digit c = true) fp ->
  parseFloat (ip ++ fraction fp)
  = float_of_ratio (decimal_value (ip ++ fp)) (10 ^ Z.of_nat (length fp)).
Proof.
  intros Hip Hne Hfp. unfold parseFloat.
  rewrite take_digits_all; auto.
  - destruct fp as [|c fp]; cbn [fraction].
    + destruct ip; [tauto|reflexivity].
    + assert (E : take_digits (c :: fp) = (c :: fp, [])).
      { rewrite <- (app_nil_r (c :: fp)) at 1. now apply take_digits_all. }
      rewrite E. destruct ip; [tauto|reflexivity].
  - destruct fp; cbn [fraction]; [exact I|reflexivity].
Qed.

Lemma decimal_value_nonneg (ds : jsstring) : 0 <= decimal_value ds.
Proof.
  unfold decimal_value.
  assert (Hacc : forall acc, 0 <= acc ->
                             0 <= fold_left (fun a c => 10 * a + digit_value c) ds acc).
  { induction ds as [|c ds IH]; intros acc Hacc; cbn [fold_left]; [exact Hacc|].
    apply IH. unfold digit_value. lia. }
  apply Hacc. lia.
Qed.

(** The Number [parseFloat] takes for the decimal [p / q] is a nearest
    one. *)
Lemma float_of_ratio_nearest_Z (p q : Z) :
  0 <= p -> 0 < q -> nearest_Number (p # Z.to_pos q) (float_of_ratio p q).
Proof.
  intros Hp Hq. destruct q as [|q|q]; try lia. destruct p as [|p|p]; try lia.
  - left. split; [reflexivity|]. intros y _.
    change (Q_of_float (float_of_ratio 0 (Z.pos q))) with 0%Q.
    assert (E : (0 - (0 # Z.to_pos (Z.pos q)) == 0)%Q) by reflexivity.
    rewrite E. apply Qabs_nonneg.
  - apply float_of_ratio_nearest.
Qed.

(** X7. When the glucose pattern occurs in the text, its first occurrence is
    the keyword, separators and a decimal (digits, or digits, a point and
    digits), and the result's [bloodSugar] is a Number nearest to that
    decimal, whatever its size, since no bound is checked: a finite Number
    that no finite Number is nearer to the decimal than, or [Infinity] when
    the decimal is at least [2 ^ 1024 - 2 ^ 970]. *)
Theorem parseHealthText_glucose_value (text : jsstring) (m : MatchResult) :
  exec sugarRegex text = Some m ->
  first_occurrence sugarRegex text m
  /\ exists seps ip fp x,
    matched m = [0x8840; 0x7CD6]%N ++ seps ++ ip ++ fraction fp
    /\ group m 1 = Some (ip ++ fraction fp)
    /\ Forall (fun c => separator c = true) seps
    /\ Forall (fun c => is_digit c = true) ip /\ ip <> []
    /\ Forall (fun c => is_digit c = true) fp
    /\ bloodSugar (parseHealthText text) = Some x
    /\ nearest_Number
         (decimal_value (ip ++ fp) # Z.to_pos (10 ^ Z.of_nat (length fp))) x.
Proof.
  intros Hex. split; [now apply exec_Some_first|].
  destruct (exec_sugarRegex _ Hex)
    as (g & Hg & seps & ip & fp & Hw & Hseps & Hip & Hne & Hfp & Hshape).
  assert (Hsugar : bloodSugar (parseHealthText text) = Some (parseFloat g)).
  { rewrite parseHealthText_bloodSugar, Hex. simpl.
    unfold capture. now rewrite Hg. }
  assert (Hnear : forall fp',
             nearest_Number
               (decimal_value (ip ++ fp') # Z.to_pos (10 ^ Z.of_nat (length fp')))
               (float_of_ratio (decimal_value (ip ++ fp'))
                               (10 ^ Z.of_nat (length fp')))).
  { intros fp'. apply float_of_ratio_nearest_Z; [apply decimal_value_nonneg|].
    apply Z.pow_pos_nonneg; lia. }
  destruct Hshape as [->|[Hfp' ->]].
  - exists seps, ip, [], (parseFloat ip). cbn [fraction]. rewrite app_nil_r.
    repeat split; auto.
    pose proof (@parseFloat_decimal ip [] Hip Hne (Forall_nil _)) as E.
    cbn [fraction] in E. rewrite app_nil_r in E.
    rewrite E. specialize (Hnear []). now rewrite app_nil_r in Hnear.
  - exists seps, ip, fp, (parseFloat (ip ++ 0x2E%N :: fp)).
    assert (Efp : 0x2E%N :: fp = fraction fp) by (destruct fp; [tauto|reflexivity]).
    rewrite Efp in *.
    repeat split; auto.
    rewrite parseFloat_decimal by assumption. apply Hnear.
Qed.

(** "今天血糖：16.25": the occurrence at position 2 gives 16.25. *)
Lemma parseHealthText_glucose_value_witness :
  exists m,
    exec sugarRegex (js "今天血糖：16.25"%string) = Some m
    /\ (first_occurrence sugarRegex (js "今天血糖：16.25"%string) m
        /\ exists seps ip fp x,
          matched m = [0x8840; 0x7CD6]%N ++ seps ++ ip ++ fraction fp
          /\ group m 1 = Some (ip ++ fraction fp)
          /\ Forall (fun c => separator c = true) seps
          /\ Forall (fun c => is_digit c = true) ip /\ ip <> []
          /\ Forall (fun c => is_digit c = true) fp
          /\ bloodSugar (parseHealthText (js "今天血糖：16.25"%string)) = Some x
          /\ nearest_Number
               (decimal_value (ip ++ fp) # Z.to_pos (10 ^ Z.of_nat (length fp))) x)
    /\ bloodSugar (parseHealthText (js "今天血糖：16.25"%string)) = Some 16.25%float.
Proof.
  destruct (exec sugarRegex (js "今天血糖：16.25"%string)) as [m|] eqn:Hex;
    [|vm_compute in Hex; discriminate].
  exists m. split; [reflexivity|].
  split; [exact (@parseHealthText_glucose_value _ m Hex)|].
  vm_compute. reflexivity.
Defined.

(** A [bloodSugar] comes from a text that holds "血糖". *)
Lemma bloodSugar_needs_keyword (text : jsstring) :
  bloodSugar (parseHealthText text) <> None ->
  exists pre rest, text = pre ++ [0x8840; 0x7CD6]%N ++ rest.
Proof.
  rewrite parseHealthText_bloodSugar.
  destruct (exec sugarRegex text) as [m|] eqn:Hex; [intros _|now intros []].
  destruct (exec_sugarRegex _ Hex) as (g & _ & seps & ip & fp & Hw & _).
  apply exec_Some_first in Hex as (pre & rest & E & _).
  exists pre, (seps ++ g ++ rest).
  rewrite E, Hw. now rewrite <- !app_assoc.
Qed.

(** A pressure reading comes from a text that holds "血压". *)
Lemma pressure_needs_keyword (text : jsstring) :
  systolic (parseHealthText text) <> None
  \/ diastolic (parseHealthText text) <> None ->
  exists pre rest, text = pre ++ [0x8840; 0x538B]%N ++ rest.
Proof.
  pose proof (parseHealthText_pressure text) as Hparse.
  destruct (exec bpRegex text) as [m|] eqn:Hex;
    [intros _|destruct Hparse as [-> ->]; intros [[]|[]]; reflexivity].
  destruct (exec_bpRegex _ Hex) as (d1 & d2 & _ & _ & seps & mid & Hw & _).
  apply exec_Some_first in Hex as (pre & rest & E & _).
  exists pre, (seps ++ d1 ++ mid ++ d2 ++ rest).
  rewrite E, Hw. now rewrite <- !app_assoc.
Qed.

(** A text without the character "血" gives the empty result. *)
Lemma parseHealthText_without_keyword (text : jsstring) :
  ~ In 0x8840%N text ->
  parseHealthText text
  = {| bloodSugar := None; systolic := None; diastolic := None |}.
Proof.
  intros Hno.
  pose proof (bloodSugar_needs_keyword text) as Hsugar.
  pose proof (pressure_needs_keyword text) as Hbp.
  assert (Hin : forall pre c rest, text <> pre ++ [0x8840; c]%N ++ rest).
  { intros pre c rest E. apply Hno. rewrite E.
    apply in_or_app. right. now left. }
  destruct (parseHealthText text) as [[g|] [s|] [di|]] eqn:E; simpl in *;
    try reflexivity; exfalso;
      try (destruct Hsugar as (pre & rest & E'); [discriminate|];
           now apply (Hin pre 0x7CD6%N rest));
      (destruct Hbp as (pre & rest & E');
       [(left; discriminate) || (right; discriminate)|];
       now apply (Hin pre 0x538B%N rest)).
Qed.

(** X8. A reading is never reported without its keyword: when the result
    has [bloodSugar] the text holds "血糖", when it has [systolic] or
    [diastolic] it holds "血压"; so a text without the character "血", the
    empty one included, gives the empty result. *)
Theorem parseHealthText_needs_keyword (text : jsstring) :
  (bloodSugar (parseHealthText text) <> None ->
   exists pre rest, text = pre ++ [0x8840; 0x7CD6]%N ++ rest)
  /\ (systolic (parseHealthText text) <> None
      \/ diastolic (parseHealthText text) <> None ->
      exists pre rest, text = pre ++ [0x8840; 0x538B]%N ++ rest)
  /\ (~ In 0x8840%N text ->
      parseHealthText text
      = {| bloodSugar := None; systolic := None; diastolic := None |}).
Proof.
  split; [apply bloodSugar_needs_keyword|].
  split; [apply pressure_needs_keyword|apply parseHealthText_without_keyword].
Qed.

(* ================================================================== *)
(** * Voice input handlers *)
(* ================================================================== *)

Lemma SFcompare_refl (a : spec_float) :
  a <> S754_nan -> SFcompare a a = Some Eq.
Proof.
  destruct a as [s|s| |s m e]; try destruct s; simpl; try congruence;
    intros _; rewrite Z.compare_refl;
    change (PosDef.Pos.compare_cont Eq m m) with (Pos.compare m m);
    now rewrite Pos.compare_refl.
Qed.

(** A Number that is at least a positive one is neither zero nor [NaN]. *)
Lemma lower_bound_truthy (c x : float) (m : positive) (e : Z) :
  Prim2SF c = S754_finite false m e ->
  (c <=? x)%float = true -> truthy x = true.
Proof.
  intros Hc. unfold truthy, is_zero, is_nan.
  rewrite FloatAxioms.leb_spec, !FloatAxioms.eqb_spec, Hc.
  change (Prim2SF zero) with (S754_zero false).
  unfold SFleb, SFeqb.
  destruct (Prim2SF x) as [s|s| |s m' e'] eqn:E; try destruct s;
    try discriminate; intros _;
      rewrite SFcompare_refl by discriminate; reflexivity.
Qed.

Lemma in_bounds_truthy (sys dia : float) :
  in_bounds sys dia = true -> truthy sys && truthy dia = true.
Proof.
  unfold in_bounds. rewrite !andb_true_iff. intros [[[Hs _] Hd] _].
  split.
  - now apply (@lower_bound_truthy 60 sys 8444249301319680 (-47)).
  - now apply (@lower_bound_truthy 40 dia 5629499534213120 (-47)).
Qed.

(** The pressure half of a result: both Numbers, within the bounds, or
    neither. *)
Lemma parsed_pressure_cases (text : jsstring) :
  (exists sys dia,
      systolic (parseHealthText text) = Some sys
      /\ diastolic (parseHealthText text) = Some dia
      /\ in_bounds sys dia = true)
  \/ no_pressure (parseHealthText text).
Proof.
  pose proof (parseHealthText_pressure text) as Hparse.
  destruct (exec bpRegex text) as [m|]; cbv zeta in Hparse; [|now right].
  destruct (in_bounds _ _) eqn:Eb; [|now right].
  left. destruct Hparse as [Hs Hd]. eauto.
Qed.

(** What [processVoiceInput] does on an open database. *)
Lemma processVoiceInput_effect
      (d : Database) (currentTab : StoreName) (now1 now2 text : jsstring) :
  let parsed := parseHealthText text in
  let g := glucose_to_save d now1 text parsed in
  let p := pressure_to_save d now2 text parsed in
  processVoiceInput (Some d) currentTab now1 now2 text
  = if (keys_length parsed =? 0)%nat then
      (Some d,
       [SetTextContent (js "result"%string)
          [Text (js "没有听清楚，请说例如：血糖6.4，或者血压130 85"%string)];
        SetTextContent (js "statusBar"%string) [Text (js "请重试"%string)];
        Speak [Text (js "没有听清楚，请说例如：血糖6.4，或者血压130 85"%string)]])
    else
      (Some {| glucoseStore :=
                 {| entries := entries (glucoseStore d) ++ g;
                    keyGen := keyGen (glucoseStore d) + Z.of_nat (length g) |};
               pressureStore :=
                 {| entries := entries (pressureStore d) ++ p;
                    keyGen := keyGen (pressureStore d) + Z.of_nat (length p) |} |},
       [SetTextContent (js "result"%string) (confirmation g p);
        SetTextContent (js "statusBar"%string) [Text (js "记录成功"%string)];
        Speak (confirmation g p);
        LoadHistory currentTab]).
Proof.
  unfold processVoiceInput, glucose_to_save, pressure_to_save. cbv zeta.
  destruct (parsed_pressure_cases text) as [(sys & dia & Hs & Hd & Hb)|[Hs Hd]];
    rewrite Hs; rewrite ?Hd.
  - apply in_bounds_truthy in Hb. rewrite Hb.
    destruct d as [[ge gk] [pe pk]].
    destruct (bloodSugar (parseHealthText text)) as [x|];
      [destruct (truthy x)|]; unfold keys_length; rewrite ?Hs, ?Hd;
        cbn -[js Z.add]; rewrite ?app_nil_r, ?Z.add_0_r; reflexivity.
  - destruct d as [[ge gk] [pe pk]].
    destruct (bloodSugar (parseHealthText text)) as [x|];
      [destruct (truthy x)|]; unfold keys_length; rewrite ?Hs, ?Hd;
        cbn -[js Z.add]; rewrite ?app_nil_r, ?Z.add_0_r; reflexivity.
Qed.

Lemma keys_length_pressure (text : jsstring) (sys : float) :
  systolic (parseHealthText text) = Some sys ->
  (keys_length (parseHealthText text) =? 0)%nat = false.
Proof.
  intros Hs. unfold keys_length. rewrite Hs.
  destruct (bloodSugar _), (diastolic _); reflexivity.
Qed.

Lemma keys_length_bloodSugar (text : jsstring) (x : float) :
  bloodSugar (parseHealthText text) = Some x ->
  (keys_length (parseHealthText text) =? 0)%nat = false.
Proof.
  intros Hs. unfold keys_length. rewrite Hs.
  destruct (systolic _), (diastolic _); reflexivity.
Qed.





(** X11. A blood sugar of zero is reported as saved although nothing is:
    when the text gives a blood sugar that is zero and no pressure reading,
    [processVoiceInput] leaves the database as it is, open or not, and
    still shows and speaks the confirmation, with nothing named in it. *)
Theorem processVoiceInput_zero_glucose
        (db : option Database) (currentTab : StoreName)
        (now1 now2 text : jsstring) (x : float) :
  bloodSugar (parseHealthText text) = Some x ->
  truthy x = false ->
  no_pressure (parseHealthText text) ->
  processVoiceInput db currentTab now1 now2 text
  = (db,
     [SetTextContent (js "result"%string)
                     [Text (js "好的，已记录"%string); Text (js "。"%string)];
      SetTextContent (js "statusBar"%string) [Text (js "记录成功"%string)];
      Speak [Text (js "好的，已记录"%string); Text (js "。"%string)];
      LoadHistory currentTab]).
Proof.
  intros Hx Ht [Hs Hd]. unfold processVoiceInput. cbv zeta.
  rewrite (keys_length_bloodSugar _ Hx), Hx, Ht, Hs. reflexivity.
Qed.

(** "血糖0" and "血糖 0.0". *)
Lemma processVoiceInput_zero_glucose_witness :
  processVoiceInput (Some three_readings) glucose t3 t3 (js "血糖0"%string)
  = (Some three_readings,
     [SetTextContent (js "result"%string)
                     [Text (js "好的，已记录"%string); Text (js "。"%string)];
      SetTextContent (js "statusBar"%string) [Text (js "记录成功"%string)];
      Speak [Text (js "好的，已记录"%string); Text (js "。"%string)];
      LoadHistory glucose])
  /\ fst (processVoiceInput None pressure t3 t3 (js "血糖 0.0"%string)) = None.
Proof.
  split.
  - apply (@processVoiceInput_zero_glucose
             (Some three_readings) glucose t3 t3 (js "血糖0"%string) 0%float);
      vm_compute; auto.
  - rewrite (@processVoiceInput_zero_glucose
               None pressure t3 t3 (js "血糖 0.0"%string) 0%float);
      vm_compute; auto.
Defined.

(** X12. Without an open database a reading cannot be saved, and the
    handlers say so only in the status: when the text gives a blood sugar
    that is not zero or a pressure reading, [processVoiceInput] logs the
    error, sets the status to "保存失败", and neither shows nor speaks a
    confirmation, nor reloads the history; [processAutoVoiceInput] shows
    the failure in the overlay. *)
Theorem processVoiceInput_without_database
        (currentTab : StoreName) (now1 now2 text : jsstring) :
  (exists x, bloodSugar (parseHealthText text) = Some x /\ truthy x = true)
  \/ systolic (parseHealthText text) <> None ->
  processVoiceInput None currentTab now1 now2 text
  = (None,
     [ConsoleError (js "Save error:"%string);
      SetTextContent (js "statusBar"%string) [Text (js "保存失败"%string)]])
  /\ processAutoVoiceInput None currentTab now1 now2 text
     = (None,
        [ConsoleError (js "Save error:"%string);
         SetContent (js "❌"%string) [Text (js "保存失败"%string)]
                    [Text (js "轻触重试"%string)];
         SetOnclickStartAutoRecord]).
Proof.
  intros Hsome. unfold processVoiceInput, processAutoVoiceInput. cbv zeta.
  assert (Hk : (keys_length (parseHealthText text) =? 0)%nat = false).
  { destruct Hsome as [(x & Hx & _)|Hs].
    - now apply keys_length_bloodSugar with x.
    - destruct (systolic (parseHealthText text)) as [sys|] eqn:E; [|tauto].
      now apply keys_length_pressure with sys. }
  rewrite Hk.
  destruct (parsed_pressure_cases text) as [(sys & dia & Hs & Hd & Hb)|[Hs Hd]];
    rewrite Hs; rewrite ?Hd.
  - apply in_bounds_truthy in Hb. rewrite Hb.
    destruct (bloodSugar (parseHealthText text)) as [x|];
      [destruct (truthy x)|]; split; reflexivity.
  - destruct Hsome as [(x & Hx & Ht)|Hs']; [|congruence].
    rewrite Hx, Ht. split; reflexivity.
Qed.

Lemma processVoiceInput_without_database_witness :
  processVoiceInput None glucose t1 t1 (js "血压 130 85"%string)
  = (None,
     [ConsoleError (js "Save error:"%string);
      SetTextContent (js "statusBar"%string) [Text (js "保存失败"%string)]])
  /\ processAutoVoiceInput None glucose t1 t1 (js "血压 130 85"%string)
     = (None,
        [ConsoleError (js "Save error:"%string);
         SetContent (js "❌"%string) [Text (js "保存失败"%string)]
                    [Text (js "轻触重试"%string)];
         SetOnclickStartAutoRecord]).
Proof.
  apply (@processVoiceInput_without_database
           glucose t1 t1 (js "血压 130 85"%string)).
  right. vm_compute. discriminate.
Defined.

(** X13. A text without the character "血", the empty one included, changes
    nothing: both handlers leave the database as it is, open or not, and
    ask to say it again. *)
Theorem processVoiceInput_not_understood
        (db : option Database) (currentTab : StoreName)
        (now1 now2 text : jsstring) :
  ~ In 0x8840%N text ->
  processVoiceInput db currentTab now1 now2 text
  = (db,
     [SetTextContent
        (js "result"%string)
        [Text (js "没有听清楚，请说例如：血糖6.4，或者血压130 85"%string)];
      SetTextContent (js "statusBar"%string) [Text (js "请重试"%string)];
      Speak [Text (js "没有听清楚，请说例如：血糖6.4，或者血压130 85"%string)]])
  /\ processAutoVoiceInput db currentTab now1 now2 text
     = (db,
        [SetContent (js "❓"%string) [Text (js "没有听清楚"%string)]
                    [Text (js "轻触屏幕重试"%string)];
         Speak [Text (js "没有听清楚，请重试"%string)];
         SetOnclickStartAutoRecord]).
Proof.
  intros Hno. unfold processVoiceInput, processAutoVoiceInput.
  rewrite (parseHealthText_without_keyword _ Hno). split; reflexivity.
Qed.

Lemma processVoiceInput_not_understood_witness :
  processVoiceInput (Some three_readings) glucose t3 t3 (js "你好 130 85"%string)
  = (Some three_readings,
     [SetTextContent
        (js "result"%string)
        [Text (js "没有听清楚，请说例如：血糖6.4，或者血压130 85"%string)];
      SetTextContent (js "statusBar"%string) [Text (js "请重试"%string)];
      Speak [Text (js "没有听清楚，请说例如：血糖6.4，或者血压130 85"%string)]])
  /\ processAutoVoiceInput (Some three_readings) glucose t3 t3
                           (js "你好 130 85"%string)
     = (Some three_readings,
        [SetContent (js "❓"%string) [Text (js "没有听清楚"%string)]
                    [Text (js "轻触屏幕重试"%string)];
         Speak [Text (js "没有听清楚，请重试"%string)];
         SetOnclickStartAutoRecord]).
Proof.
  apply (@processVoiceInput_not_understood
           (Some three_readings) glucose t3 t3 (js "你好 130 85"%string)).
  vm_compute. intuition discriminate.
Defined.

(** X14. The two handlers save the same: for every text and database,
    [processAutoVoiceInput] leaves the database [processVoiceInput] leaves,
    reloads the history when it does, and, when the text gave a reading,
    speaks the same words (it asks to repeat in shorter words). *)
Theorem processAutoVoiceInput_same_saves
        (db : option Database) (currentTab : StoreName)
        (now1 now2 text : jsstring) :
  let auto := processAutoVoiceInput db currentTab now1 now2 text in
  let manual := processVoiceInput db currentTab now1 now2 text in
  fst auto = fst manual
  /\ spoken (snd auto)
     = (if (keys_length (parseHealthText text) =? 0)%nat
        then [[Text (js "没有听清楚，请重试"%string)]]
        else spoken (snd manual))
  /\ (In (LoadHistory currentTab) (snd auto)
      <-> In (LoadHistory currentTab) (snd manual)).
Proof.
  unfold processVoiceInput, processAutoVoiceInput. cbv zeta.
  destruct (keys_length (parseHealthText text) =? 0)%nat;
    [cbn -[js]; intuition discriminate|].
  assert (Hin : forall (a b c a' b' c' : event) (t : StoreName),
             In (LoadHistory t) [a; b; LoadHistory t; c]
             <-> In (LoadHistory t) [a'; b'; c'; LoadHistory t]).
  { intros; split; intros _; simpl; auto 6. }
  assert (Hout : forall (a b c : jsstring) (m h t : template) (n : StoreName),
             In (LoadHistory n)
                [ConsoleError a; SetContent b m h; SetOnclickStartAutoRecord]
             <-> In (LoadHistory n) [ConsoleError a; SetTextContent c t]).
  { intros; simpl; intuition discriminate. }
  destruct db as [d|];
    destruct (bloodSugar (parseHealthText text)) as [x|];
    try destruct (truthy x);
    destruct (systolic (parseHealthText text)) as [sys|];
    destruct (diastolic (parseHealthText text)) as [dia|];
    try destruct (truthy sys && truthy dia);
    cbn -[js In]; (split; [reflexivity|split; [reflexivity|]]);
      first [apply Hin | apply Hout].
Qed.

(* ================================================================== *)
(** * Summaries, history and export *)
(* ================================================================== *)

Lemma str_eqb_eq (a b : jsstring) : str_eqb a b = true <-> a = b.
Proof.
  unfold str_eqb. split.
  - destruct (key_compare a b) eqn:E; try discriminate.
    intros _. now apply key_compare_eq.
  - intros ->. now rewrite key_compare_refl.
Qed.

Lemma str_eqb_neq (a b : jsstring) : a <> b -> str_eqb a b = false.
Proof.
  intros Hne. destruct (str_eqb a b) eqn:E; [|reflexivity].
  now apply str_eqb_eq in E.
Qed.

(** The newest record of a store after a save with a clock that has not
    gone back. *)
Lemma getRecent_after_add (d d' : Database) (n : StoreName)
      (record : fieldsOf n) (limit : Z) :
  Forall (fun x => id x < keyGen (objectStore d n)) (entries (objectStore d n)) ->
  Forall (fun x => key_le (keyOf x) (recordedAt record)) (entries (objectStore d n)) ->
  objectStore d' n = snd (add (objectStore d n) record) ->
  0 < limit ->
  getRecent (Some d') n limit
  = Fulfilled (mkStored (keyGen (objectStore d n)) record
                        :: firstn (Z.to_nat (limit - 1))
                                  (rev (index (objectStore d n)))).
Proof.
  intros Hids Hnow E Hlimit. rewrite getRecent_eq, E, add_newest by assumption.
  replace (Z.to_nat limit) with (S (Z.to_nat (limit - 1))) by lia.
  reflexivity.
Qed.

(** X15. What was said is what is read back: after [processVoiceInput] on a
    text that gives a blood sugar other than zero and a pressure reading,
    on a database built by the save operations whose records are not from
    after the two clock readings, [showSummary('latest')] shows and speaks
    exactly these three Numbers, each with the time of its save. *)
Theorem showSummary_latest_after_processVoiceInput
        (d : Database) (currentTab : StoreName) (now1 now2 text : jsstring)
        (cutoffOf : float -> jsstring) (x sys dia : float) :
  db_ok d ->
  bloodSugar (parseHealthText text) = Some x ->
  truthy x = true ->
  systolic (parseHealthText text) = Some sys ->
  diastolic (parseHealthText text) = Some dia ->
  Forall (fun r => key_le (keyOf r) now1) (entries (glucoseStore d)) ->
  Forall (fun r => key_le (keyOf r) now2) (entries (pressureStore d)) ->
  let speech :=
      [Text (js "最近血糖"%string); Num x; Text (js "，"%string); Time now1;
       Text (js "。"%string);
       Text (js "最近血压，高压"%string); Num sys; Text (js "，低压"%string);
       Num dia; Text (js "，"%string); Time now2;
       Text (js "。"%string)] in
  showSummary (fst (processVoiceInput (Some d) currentTab now1 now2 text))
              cutoffOf (js "latest"%string)
  = ([EnableSpeech; SetTextContent (js "result"%string) speech; Speak speech],
     Fulfilled tt).
Proof.
  intros [[_ Hg] [_ Hp]] Hx Ht Hs Hd Hnow1 Hnow2 speech.
  pose proof (processVoiceInput_effect d currentTab now1 now2 text) as E.
  cbv zeta in E. rewrite (keys_length_bloodSugar _ Hx) in E.
  unfold glucose_to_save, pressure_to_save in E. rewrite Hx, Ht, Hs, Hd in E.
  rewrite E. cbn [fst length Z.of_nat Pos.of_succ_nat].
  unfold showSummary.
  change (negb (str_eqb (js "latest"%string) (js "today"%string))
          && negb (str_eqb (js "latest"%string) (js "3day"%string))
          && negb (str_eqb (js "latest"%string) (js "weekly"%string))
          && str_eqb (js "latest"%string) (js "latest"%string)) with true.
  cbv iota.
  rewrite (@getRecent_after_add
             d _ glucose (Glucose.mk x (js "mmol/L"%string) now1 text) 1);
    [|exact Hg|exact Hnow1|reflexivity|lia].
  rewrite (@getRecent_after_add
             d _ pressure (Pressure.mk sys dia now2 text) 1);
    [|exact Hp|exact Hnow2|reflexivity|lia].
  reflexivity.
Qed.

Lemma showSummary_latest_after_processVoiceInput_witness :
  showSummary
    (fst (processVoiceInput (Some mixed_readings) glucose t3 t3
                            (js "血糖6.5，血压130 85"%string)))
    (fun _ => t1) (js "latest"%string)
  = ([EnableSpeech;
      SetTextContent
        (js "result"%string)
        [Text (js "最近血糖"%string); Num 6.5; Text (js "，"%string); Time t3;
         Text (js "。"%string);
         Text (js "最近血压，高压"%string); Num 130; Text (js "，低压"%string);
         Num 85; Text (js "，"%string); Time t3;
         Text (js "。"%string)];
      Speak
        [Text (js "最近血糖"%string); Num 6.5; Text (js "，"%string); Time t3;
         Text (js "。"%string);
         Text (js "最近血压，高压"%string); Num 130; Text (js "，低压"%string);
         Num 85; Text (js "，"%string); Time t3;
         Text (js "。"%string)]],
     Fulfilled tt).
Proof.
  apply (@showSummary_latest_after_processVoiceInput
           mixed_readings glucose t3 t3 (js "血糖6.5，血压130 85"%string)
           (fun _ => t1) 6.5%float 130%float 85%float).
  - split; split; vm_compute; repeat constructor.
  - vm_compute. reflexivity.
  - vm_compute. reflexivity.
  - vm_compute. reflexivity.
  - vm_compute. reflexivity.
  - repeat constructor; vm_compute; discriminate.
  - repeat constructor; vm_compute; discriminate.
Defined.

(** X16. Any [type] other than 'today', '3day' and 'latest' gives the weekly
    report: [showSummary] does for it exactly what it does for 'weekly',
    the period named "过去7天" and the window of 7 days. *)
Theorem showSummary_other_types_weekly
        (db : option Database) (cutoffOf : float -> jsstring) (type : jsstring) :
  type <> js "today"%string ->
  type <> js "3day"%string ->
  type <> js "latest"%string ->
  showSummary db cutoffOf type = showSummary db cutoffOf (js "weekly"%string)
  /\ summary_days type = 7%float
  /\ periodName type = js "过去7天"%string.
Proof.
  intros H1 H3 Hl.
  assert (E : forall t,
             str_eqb t (js "today"%string) = false ->
             str_eqb t (js "3day"%string) = false ->
             str_eqb t (js "latest"%string) = false ->
             showSummary db cutoffOf t
             = match getStats db (fun days => Some (cutoffOf days)) 7 with
               | Returned (Fulfilled stats) =>
                 let speech :=
                     report_speech (js "weekly"%string) stats in
                 ([EnableSpeech; SetTextContent (js "result"%string) speech;
                   Speak speech], Fulfilled tt)
               | Returned (Rejected e) => ([EnableSpeech], Rejected e)
               | Thrown e => ([EnableSpeech], Rejected e)
               end
             /\ summary_days t = 7%float
             /\ periodName t = js "过去7天"%string).
  { intros t E1 E3 El.
    unfold showSummary, summary_days, report_speech, periodName.
    rewrite E1, E3, El. cbv zeta. rewrite andb_false_r.
    change (str_eqb (js "weekly"%string) (js "today"%string)) with false.
    change (str_eqb (js "weekly"%string) (js "3day"%string)) with false.
    cbv iota.
    split; [|split; [now destruct (str_eqb t (js "weekly"%string))|reflexivity]].
    now destruct (str_eqb t (js "weekly"%string)). }
  destruct (E type) as (Et & Ed & Ep); try now apply str_eqb_neq.
  destruct (E (js "weekly"%string)) as (Ew & _); try reflexivity.
  rewrite Et, Ew. auto.
Qed.

(** 'monthly' and the empty string. *)
Lemma showSummary_other_types_weekly_witness :
  (showSummary (Some three_readings) (fun _ => t2) (js "monthly"%string)
   = showSummary (Some three_readings) (fun _ => t2) (js "weekly"%string)
   /\ summary_days (js "monthly"%string) = 7%float
   /\ periodName (js "monthly"%string) = js "过去7天"%string)
  /\ summary_days [] = 7%float.
Proof.
  split.
  - apply (@showSummary_other_types_weekly
             (Some three_readings) (fun _ => t2) (js "monthly"%string));
      vm_compute; discriminate.
  - apply (@showSummary_other_types_weekly None (fun _ => t2) []);
      vm_compute; discriminate.
Defined.

(** X17. Without an open database nothing is read: [showSummary] only
    enables the speech and its promise rejects, whatever the type, so
    nothing is shown or spoken; [loadHistory] leaves the list as it is and
    [exportData] downloads nothing, and both reject. *)
Theorem readers_without_database
        (cutoffOf : float -> jsstring) (type : jsstring) (n : StoreName)
        (now1 now2 : jsstring) :
  showSummary None cutoffOf type = ([EnableSpeech], Rejected TypeError)
  /\ loadHistory None n = ([], Rejected TypeError)
  /\ exportData None now1 now2 = ([], Rejected TypeError).
Proof.
  unfold showSummary, loadHistory, exportData.
  destruct (negb _ && negb _ && negb _ && _); repeat split.
Qed.

Lemma says_null_app (a b : template) :
  says_null (a ++ b) = says_null a || says_null b.
Proof. apply existsb_app. Qed.

Lemma says_null_join (parts : list template) :
  Forall (fun p => says_null p = false) parts ->
  forall sep, says_null (join sep parts) = false.
Proof.
  induction 1 as [|p ps Hp _ IH]; intros sep; [reflexivity|].
  destruct ps as [|q ps]; [exact Hp|].
  change (join sep (p :: q :: ps)) with (p ++ Text sep :: join sep (q :: ps)).
  rewrite says_null_app, Hp. apply IH.
Qed.

(** X18. A summary never says "null": on an open database [showSummary]
    shows and speaks one text, for every type, and no value printed in it
    is [null]; the statistics that are [null] for an empty window are not
    printed, their line is replaced by the one that says there is no
    record. *)
Theorem showSummary_never_says_null
        (d : Database) (cutoffOf : float -> jsstring) (type : jsstring) :
  exists speech,
    showSummary (Some d) cutoffOf type
    = ([EnableSpeech; SetTextContent (js "result"%string) speech; Speak speech],
       Fulfilled tt)
    /\ says_null speech = false.
Proof.
  unfold showSummary.
  destruct (negb _ && negb _ && negb _ && _).
  - rewrite !getRecent_eq. eexists. split; [reflexivity|].
    unfold latest_speech. cbv zeta.
    rewrite says_null_app, says_null_join; [reflexivity|].
    destruct (firstn _ (rev (index (objectStore d glucose))));
      destruct (firstn _ (rev (index (objectStore d pressure))));
      repeat constructor.
  - rewrite (@getStats_eq d (fun days => Some (cutoffOf days))
                          (summary_days type) _ eq_refl).
    eexists. split; [reflexivity|].
    unfold report_speech. cbv zeta. apply says_null_join.
    cbn [Stats.glucose Stats.pressure].
    set (g := filter _ (index (glucoseStore d))).
    set (p := filter _ (index (pressureStore d))).
    unfold glucose_stats, pressure_stats. cbv zeta.
    destruct g as [|g0 g]; destruct p as [|p0 p];
      cbn [length Nat.ltb Nat.leb Nat.eqb GlucoseStats.count
                  GlucoseStats.average GlucoseStats.min GlucoseStats.max
                  PressureStats.count PressureStats.avgSystolic
                  PressureStats.avgDiastolic PressureStats.minSystolic
                  PressureStats.maxSystolic PressureStats.minDiastolic
                  PressureStats.maxDiastolic app];
      repeat constructor.
Qed.

Lemma getRecent_length (d : Database) (n : StoreName) (limit : nat) :
  length (firstn limit (rev (index (objectStore d n))))
  = Nat.min limit (length (entries (objectStore d n))).
Proof.
  rewrite length_firstn, length_rev.
  now rewrite (Permutation_length (index_perm (objectStore d n))).
Qed.

Lemma getRecent_incl (d : Database) (n : StoreName) (limit : nat) :
  incl (firstn limit (rev (index (objectStore d n))))
       (entries (objectStore d n)).
Proof.
  intros r Hr.
  apply (Permutation_in _ (index_perm (objectStore d n))).
  apply in_rev. rewrite <- (firstn_skipn limit (rev (index _))).
  apply in_or_app. now left.
Qed.

(** The records a limit leaves out are not newer than the ones it keeps. *)
Lemma getRecent_dropped (d : Database) (n : StoreName) (limit : nat) :
  forall r x,
    In r (entries (objectStore d n)) ->
    ~ In r (firstn limit (rev (index (objectStore d n)))) ->
    In x (firstn limit (rev (index (objectStore d n)))) ->
    recent_first x r.
Proof.
  intros r x Hr Hnot Hx.
  pose proof (index_rev_sorted (objectStore d n)) as Hs.
  rewrite <- (firstn_skipn limit (rev (index (objectStore d n)))) in Hs.
  apply StronglySorted_app_inv_both in Hs as (_ & _ & Hall).
  rewrite Forall_forall in Hall. specialize (Hall x Hx).
  rewrite Forall_forall in Hall. apply Hall.
  apply (Permutation_in _ (Permutation_sym (index_perm (objectStore d n)))) in Hr.
  apply in_rev in Hr.
  rewrite <- (firstn_skipn limit (rev (index (objectStore d n)))) in Hr.
  apply in_app_or in Hr as [Hr|Hr]; [contradiction|exact Hr].
Qed.

(** X19. [exportData] on an open database downloads one file, named
    "health_data_", the first ten characters of the clock reading (the
    date) and ".json". For each store it holds at most 1000 records, all
    stored ones: every record when the store has no more than 1000, and
    otherwise the 1000 newest, so a record left out is not newer than any
    record exported. *)
Theorem exportData_exports (d : Database) (now1 now2 : jsstring) :
  exists (g : list (Stored Glucose.t)) (p : list (Stored Pressure.t)),
    exportData (Some d) now1 now2
    = ([Download (js "health_data_"%string ++ firstn 10 now2 ++ js ".json"%string)
                 {| ExportData.exportTime := now1;
                    ExportData.glucose := g;
                    ExportData.pressure := p |};
        SetTextContent (js "statusBar"%string) [Text (js "数据已导出"%string)]],
       Fulfilled tt)
    /\ length g = Nat.min 1000 (length (entries (glucoseStore d)))
    /\ length p = Nat.min 1000 (length (entries (pressureStore d)))
    /\ incl g (entries (glucoseStore d))
    /\ incl p (entries (pressureStore d))
    /\ ((length (entries (glucoseStore d)) <= 1000)%nat ->
        Permutation g (entries (glucoseStore d)))
    /\ ((length (entries (pressureStore d)) <= 1000)%nat ->
        Permutation p (entries (pressureStore d)))
    /\ (forall r x, In r (entries (glucoseStore d)) -> ~ In r g -> In x g ->
                    recent_first x r)
    /\ (forall r x, In r (entries (pressureStore d)) -> ~ In r p -> In x p ->
                    recent_first x r).
Proof.
  unfold exportData. rewrite !getRecent_eq. cbv zeta.
  eexists. eexists. split; [reflexivity|].
  assert (Hall : forall n,
             (length (entries (objectStore d n)) <= Z.to_nat 1000)%nat ->
             Permutation (firstn (Z.to_nat 1000) (rev (index (objectStore d n))))
                         (entries (objectStore d n))).
  { intros n Hle. rewrite firstn_all2.
    - rewrite <- Permutation_rev. apply index_perm.
    - rewrite length_rev, (Permutation_length (index_perm _)). exact Hle. }
  assert (E : Z.to_nat 1000 = 1000%nat) by (apply Nat2Z.inj; rewrite Z2Nat.id; lia).
  split; [rewrite <- E; apply (getRecent_length d glucose)|].
  split; [rewrite <- E; apply (getRecent_length d pressure)|].
  split; [apply (getRecent_incl d glucose)|].
  split; [apply (getRecent_incl d pressure)|].
  split; [intros Hle; apply (Hall glucose); rewrite E; exact Hle|].
  split; [intros Hle; apply (Hall pressure); rewrite E; exact Hle|].
  split; [apply (getRecent_dropped d glucose)|apply (getRecent_dropped d pressure)].
Qed.

(** X20. [loadHistory] on an open database shows the empty state exactly
    when the store has no record; otherwise it lists the records of
    [getRecent(type, 20)] in their order, newest first, one line each: the
    20 newest, or all of them when there are fewer. *)
Theorem loadHistory_shows (d : Database) (type : StoreName) :
  exists records,
    getRecent (Some d) type 20 = Fulfilled records
    /\ length records = Nat.min 20 (length (entries (objectStore d type)))
    /\ StronglySorted recent_first records
    /\ loadHistory (Some d) type
       = (match entries (objectStore d type) with
          | [] => [SetHistoryEmpty]
          | _ :: _ => [SetHistory (map (history_item type) records)]
          end, Fulfilled tt).
Proof.
  unfold loadHistory. rewrite getRecent_eq. eexists. split; [reflexivity|].
  pose proof (getRecent_length d type (Z.to_nat 20)) as Hlen.
  change (Z.to_nat 20) with 20%nat in *.
  split; [exact Hlen|]. split.
  - pose proof (index_rev_sorted (objectStore d type)) as Hs.
    rewrite <- (firstn_skipn 20 (rev (index (objectStore d type)))) in Hs.
    now apply StronglySorted_app_inv_both in Hs as (Hs & _).
  - rewrite Hlen. destruct (entries (objectStore d type)); [reflexivity|].
    cbn [length]. now destruct (length l) as [|[|]].
Qed.

Lemma save_objectStore (d : Database) (op : SaveOp) :
  exists d' record,
    save (Some d) op = (Fulfilled (keyGen (objectStore d (store_of op))), Some d')
    /\ objectStore d' (store_of op) = snd (add (objectStore d (store_of op)) record)
    /\ recordedAt record = now_of op
    /\ history_item (store_of op)
                    (mkStored (keyGen (objectStore d (store_of op))) record)
       = item_of op.
Proof.
  destruct op as [now value notes|now sys dia notes]; cbn [save store_of].
  - eexists. exists (Glucose.mk value (js "mmol/L"%string) now notes).
    repeat split.
  - eexists. exists (Pressure.mk sys dia now notes).
    repeat split.
Qed.

(** X21. A new record shows at the top of the history: after a save on a
    database built by the save operations, whose records in that store are
    not from after the clock reading, [loadHistory] of the store lists the
    line of the saved values first, followed by the lines of up to 19 of
    the records there were. *)
Theorem loadHistory_after_save (d : Database) (op : SaveOp) :
  db_ok d ->
  Forall (fun r => key_le (keyOf r) (now_of op))
         (entries (objectStore d (store_of op))) ->
  exists older,
    getRecent (Some d) (store_of op) 19 = Fulfilled older
    /\ loadHistory (snd (save (Some d) op)) (store_of op)
       = ([SetHistory (item_of op :: map (history_item (store_of op)) older)],
          Fulfilled tt).
Proof.
  intros Hok Hnow.
  destruct (save_objectStore d op) as (d' & record & Hsave & Hstore & Hrec & Hitem).
  rewrite Hsave. cbn [snd]. unfold loadHistory.
  rewrite (@getRecent_after_add d d' (store_of op) record 20);
    [| |now rewrite Hrec|exact Hstore|lia].
  - rewrite getRecent_eq. eexists. split; [reflexivity|].
    cbn [length Nat.eqb map]. now rewrite Hitem.
  - destruct Hok as [[_ Hg] [_ Hp]]. destruct op; assumption.
Qed.

Lemma loadHistory_after_save_witness :
  exists older,
    getRecent (Some mixed_readings) pressure 19 = Fulfilled older
    /\ loadHistory (snd (save (Some mixed_readings)
                              (SavePressure t3 118 76 (js "血压118 76"%string))))
                   pressure
       = ([SetHistory
             ({| itemValue := [Text (js "血压 "%string); Num 118;
                               Text (js "/"%string); Num 76];
                 itemTime := [Time t3] |}
                :: map (history_item pressure) older)],
          Fulfilled tt).
Proof.
  apply (@loadHistory_after_save
           mixed_readings (SavePressure t3 118 76 (js "血压118 76"%string))).
  - split; split; vm_compute; repeat constructor.
  - repeat constructor; vm_compute; discriminate.
Defined.

(** X22. A save is counted by the statistics exactly when its clock reading
    is at or after the cutoff: when the date of the window is valid, the
    count of [getStats] for the store saved into is after a save one more
    than before if [now] is not before the cutoff and the same otherwise,
    and the count of the other store is the same. *)
Theorem getStats_counts_after_save
        (d : Database) (op : SaveOp) (cutoffOf : float -> option jsstring)
        (days : float) (cutoffISO : jsstring) :
  cutoffOf days = Some cutoffISO ->
  exists d' before after,
    snd (save (Some d) op) = Some d'
    /\ getStats (Some d) cutoffOf days = Returned (Fulfilled before)
    /\ getStats (Some d') cutoffOf days = Returned (Fulfilled after)
    /\ GlucoseStats.count (Stats.glucose after)
       = (GlucoseStats.count (Stats.glucose before)
          + counted glucose cutoffISO op)%nat
    /\ PressureStats.count (Stats.pressure after)
       = (PressureStats.count (Stats.pressure before)
          + counted pressure cutoffISO op)%nat.
Proof.
  intros Ecut.
  destruct op as [now value notes|now sys dia notes];
    cbn [save saveGlucose savePressure add snd];
    eexists; eexists; eexists;
      (split; [reflexivity|]);
      (split; [exact (@getStats_eq _ cutoffOf days cutoffISO Ecut)|]);
      (split; [exact (@getStats_eq _ cutoffOf days cutoffISO Ecut)|]);
      cbn [Stats.glucose Stats.pressure glucoseStore pressureStore];
      rewrite !glucose_stats_count, !pressure_stats_count, !window_length;
      unfold counted; cbn [store_of same_store now_of andb entries];
        rewrite ?filter_app, ?length_app; cbn [filter keyOf fields recordedAt
                                                 glucose_indexed pressure_indexed
                                                 Glucose.recordedAt
                                                 Pressure.recordedAt];
          split; try lia; destruct (key_leb cutoffISO now); simpl; lia.
Qed.

(** A reading at [t3] is counted since [t2], and one at [t1] is not. *)
Lemma getStats_counts_after_save_witness :
  (exists d' before after,
      snd (save (Some three_readings) (SaveGlucose t3 5.5 [])) = Some d'
      /\ getStats (Some three_readings) (fun _ => Some t2) 7
         = Returned (Fulfilled before)
      /\ getStats (Some d') (fun _ => Some t2) 7 = Returned (Fulfilled after)
      /\ GlucoseStats.count (Stats.glucose after)
         = (GlucoseStats.count (Stats.glucose before)
            + counted glucose t2 (SaveGlucose t3 5.5 []))%nat
      /\ PressureStats.count (Stats.pressure after)
         = (PressureStats.count (Stats.pressure before)
            + counted pressure t2 (SaveGlucose t3 5.5 []))%nat)
  /\ counted glucose t2 (SaveGlucose t3 5.5 []) = 1%nat
  /\ counted glucose t2 (SaveGlucose t1 5.5 []) = 0%nat.
Proof.
  split; [|split; reflexivity].
  apply (@getStats_counts_after_save
           three_readings (SaveGlucose t3 5.5 []) (fun _ => Some t2) 7%float t2).
  reflexivity.
Defined.
